(** * C-PAC pipeline engine: resource pool, provenance codec, strategy
      combination and node-block commit (CPAC/pipeline/engine.py)

    A shallow embedding of [ResourcePool] and of the commit step of
    [NodeBlock.connect_block], with the properties of the engine's
    specification stated and proved over it.

    Conventions of the embedding.
    - A Python [str] is a [string]; a character is a code point below 256.
    - A Python [dict] is an association list in insertion order with unique
      keys ([pydict]); [dset], [ddel] and [dget] are item assignment,
      [del] and subscription.
    - The metadata dictionaries ([json_info]) are objects of a store
      ([heap]) and are passed by reference ([loc]), since [set_data] and
      [get_strats] copy, alias and mutate them.
    - A method that raises is a computation in the monad [M]: it returns
      [inl e] together with the state reached when [e] was raised. *)

From Stdlib Require Import String Ascii List Bool Arith NArith Lia.
From stdpp Require Import base option list strings.
Import ListNotations.
Local Open Scope string_scope.
Local Open Scope list_scope.
#[local] Arguments String.append !s1 s2 : simpl nomatch.

(** ** Strings *)

Module Str.

Definition eqb (a b : string) : bool := String.eqb a b.

(** [c in s] for a character. *)
Fixpoint mem_char (c : ascii) (s : string) : bool :=
  match s with
  | EmptyString => false
  | String d s' => Ascii.eqb c d || mem_char c s'
  end.

(** [s.startswith(p)] *)
Fixpoint prefix (p s : string) : bool :=
  match p, s with
  | EmptyString, _ => true
  | String a p', String b s' => Ascii.eqb a b && prefix p' s'
  | String _ _, EmptyString => false
  end.

(** [p in s] for strings. *)
Fixpoint contains (p s : string) : bool :=
  prefix p s ||
  match s with
  | EmptyString => false
  | String _ s' => contains p s'
  end.

(** [s.split(sep)] for a one-character separator: the pieces between the
    occurrences of [sep]; never empty. *)
Fixpoint split (sep : ascii) (s : string) : list string :=
  match s with
  | EmptyString => [EmptyString]
  | String c s' =>
      if Ascii.eqb c sep then EmptyString :: split sep s'
      else match split sep s' with
           | [] => [String c EmptyString]
           | w :: ws => String c w :: ws
           end
  end.

(** [s.split(sep)[0]] *)
Definition split_hd (sep : ascii) (s : string) : string :=
  match split sep s with
  | [] => EmptyString
  | w :: _ => w
  end.

(** [s.replace(old, '')] for a non-empty [old]: the occurrences of [old]
    are removed from left to right, without overlap.  [skip] counts the
    characters of a matched occurrence still to be dropped. *)
Fixpoint remove_go (old : string) (skip : nat) (s : string) : string :=
  match s with
  | EmptyString => EmptyString
  | String c s' =>
      match skip with
      | S k => remove_go old k s'
      | O => if prefix old s then remove_go old (String.length old - 1) s'
             else String c (remove_go old 0 s')
      end
  end.

Definition remove (old s : string) : string :=
  match old with
  | EmptyString => s
  | _ => remove_go old 0 s
  end.

(** [s[-1]], when [s] is not empty. *)
Fixpoint last_char (s : string) : option ascii :=
  match s with
  | EmptyString => None
  | String c EmptyString => Some c
  | String _ s' => last_char s'
  end.

(** [sep.join(l)] *)
Fixpoint join (sep : string) (l : list string) : string :=
  match l with
  | [] => EmptyString
  | [x] => x
  | x :: l' => x +:+ sep +:+ join sep l'
  end.

End Str.

(** ** Exceptions and results *)

Inductive exn : Type :=
| IndexError            (* a bare IndexError: [l[-1]] or [l[1]] out of range *)
| KeyError              (* subscription of a dict with a missing key *)
| EmptyProvenance       (* set_data: "has no provenance information and
                           should not be an injection" *)
| ResourceNotFound      (* get, list of alternatives: Exception(info_msg) *)
| ResourceLookupError   (* get, single name: LookupError(info_msg) *)
| IncompleteJson        (* get_json: "the JSON information ... is incomplete" *)
| NoStrategiesFound     (* get_strats: "None of the listed resources ..." *)
| BadOutputName         (* check_output *)
| AttributeError        (* a method the value does not have: one of str on a
                           list, [__getitem__] on None or a boolean *)
| IllTyped              (* a metadata field of another shape than the engine
                           writes, or a dangling reference: outside the model *)
| TypeError             (* an operation on a value of the wrong type *)
| ValueError            (* list.index of an item that is not in the list *)
| IOError               (* a node block body: the node exists already *)
| BadDocstring          (* connect_block: option_key without option_val *)
| SyntaxError           (* ast.literal_eval on a malformed literal *)
| ConfigLookupError     (* connect_block: an AttributeError of the lookup of
                           an option, raised again as Exception *)
| Unsupported.          (* a Python literal outside the fragment modelled *)

Definition result (A : Type) : Type := exn + A.

Abbreviation Ok := (@inr exn _).
Abbreviation Raise := (@inl exn _).

Definition rbind {A B} (x : result A) (f : A -> result B) : result B :=
  match x with
  | inl e => inl e
  | inr a => f a
  end.

(** ** Provenance chains (4.1 Provenance Codec)

    A CpacProvenance value is a list whose items are ['name:producer']
    strings or nested lists of the same shape. *)

#[local] Unset Elimination Schemes.
Inductive prov : Type :=
| PStr (s : string)
| PList (l : list prov).
#[local] Set Elimination Schemes.

Definition colon : ascii := ":"%char.

(** Modelled from the spec: [CPAC.utils.utils.get_last_prov_entry] is
    imported by engine.py and is not part of the source at hand.  The spec
    describes it as [last_step]: "the most recent production step; for a
    nested chain, recurses into the last (possibly-list) element".  The
    subscript [prov[-1]] of an empty list raises [IndexError], which is the
    exception [set_data] catches around [generate_prov_string]. *)
Fixpoint last_entry (p : prov) : result string :=
  match p with
  | PStr s => Ok s
  | PList l =>
      (fix go (l : list prov) : result string :=
         match l with
         | [] => Raise IndexError
         | [x] => last_entry x
         | _ :: l' => go l'
         end) l
  end.

Definition get_last_prov_entry (prov : list prov) : result string :=
  last_entry (PList prov).

(** *** [str(prov)]: Python's [repr] of nested lists of strings *)

Module Repr.

Definition squote : ascii := "'"%char.
Definition dquote : ascii := ascii_of_N 34.
Definition backslash : ascii := "\"%char.

Definition hex_digit (n : N) : ascii :=
  if (n <? 10)%N then ascii_of_N (48 + n) else ascii_of_N (87 + n).

(** [str.isprintable] on the code points below 256: the control
    characters, DEL, the C1 controls, the no-break space and the soft
    hyphen are not printable. *)
Definition printable (n : N) : bool :=
  ((32 <=? n) && (n <=? 126) || (161 <=? n) && (n <=? 172) || (174 <=? n))%N.

Definition hex_escape (n : N) : string :=
  String backslash (String "x"%char
    (String (hex_digit (n / 16)) (String (hex_digit (n mod 16)) EmptyString))).

Definition repr_char (q c : ascii) : string :=
  let n := N_of_ascii c in
  if Ascii.eqb c q || Ascii.eqb c backslash then String backslash (String c EmptyString)
  else if (n =? 9)%N then String backslash (String "t"%char EmptyString)
  else if (n =? 10)%N then String backslash (String "n"%char EmptyString)
  else if (n =? 13)%N then String backslash (String "r"%char EmptyString)
  else if printable n then String c EmptyString
  else hex_escape n.

Fixpoint repr_chars (q : ascii) (s : string) : string :=
  match s with
  | EmptyString => EmptyString
  | String c s' => repr_char q c +:+ repr_chars q s'
  end.

(** Double quotes are used when the string has a single quote and no
    double quote; single quotes otherwise. *)
Definition quote_of (s : string) : ascii :=
  if Str.mem_char squote s && negb (Str.mem_char dquote s) then dquote else squote.

Definition repr_str (s : string) : string :=
  let q := quote_of s in
  String q (repr_chars q s +:+ String q EmptyString).

Fixpoint repr (p : prov) : string :=
  match p with
  | PStr s => repr_str s
  | PList l =>
      "[" +:+ (fix items (l : list prov) : string :=
                 match l with
                 | [] => EmptyString
                 | [x] => repr x
                 | x :: l' => repr x +:+ ", " +:+ items l'
                 end) l +:+ "]"
  end.

Fixpoint repr_items (l : list prov) : string :=
  match l with
  | [] => EmptyString
  | [x] => repr x
  | x :: l' => repr x +:+ ", " +:+ repr_items l'
  end.

End Repr.

(** [str(prov)] for a list. *)
Definition py_str (prov : list prov) : string := Repr.repr (PList prov).

(** *** [ast.literal_eval] on the list-and-string fragment

    The literal grammar is read by a machine that consumes the text one
    character at a time.  [frames] holds, innermost first, the items read
    so far (most recent first) of every list that is still open.  Literals
    other than lists and plainly quoted strings (numbers, tuples, dicts,
    prefixed, triple-quoted or juxtaposed strings, octal and unicode
    escapes) are reported as [Unsupported]. *)

Module Literal.

Inductive mode : Type :=
| Start                                   (* before a value *)
| InStr (q : ascii) (acc : string)        (* inside a string; acc reversed *)
| Esc (q : ascii) (acc : string)          (* after a backslash *)
| Hex1 (q : ascii) (acc : string)         (* after \x *)
| Hex2 (q : ascii) (acc : string) (d : N) (* after \x and one digit *)
| After (v : prov).                       (* after a complete value *)

Fixpoint rev_onto (s acc : string) : string :=
  match s with
  | EmptyString => acc
  | String c s' => rev_onto s' (String c acc)
  end.

Definition hex_val (c : ascii) : option N :=
  let n := N_of_ascii c in
  if ((48 <=? n) && (n <=? 57))%N then Some (n - 48)%N
  else if ((97 <=? n) && (n <=? 102))%N then Some (n - 87)%N
  else if ((65 <=? n) && (n <=? 70))%N then Some (n - 55)%N
  else None.

Definition is_blank (c : ascii) : bool :=
  Ascii.eqb c " "%char || (N_of_ascii c =? 9)%N.

Definition escape_of (c : ascii) : option ascii :=
  if Ascii.eqb c Repr.backslash then Some Repr.backslash
  else if Ascii.eqb c Repr.squote then Some Repr.squote
  else if Ascii.eqb c Repr.dquote then Some Repr.dquote
  else if Ascii.eqb c "n"%char then Some (ascii_of_N 10)
  else if Ascii.eqb c "t"%char then Some (ascii_of_N 9)
  else if Ascii.eqb c "r"%char then Some (ascii_of_N 13)
  else if Ascii.eqb c "a"%char then Some (ascii_of_N 7)
  else if Ascii.eqb c "b"%char then Some (ascii_of_N 8)
  else if Ascii.eqb c "f"%char then Some (ascii_of_N 12)
  else if Ascii.eqb c "v"%char then Some (ascii_of_N 11)
  else None.

Fixpoint run (m : mode) (frames : list (list prov)) (s : string) : result prov :=
  match s with
  | EmptyString =>
      match m, frames with
      | After v, [] => Ok v
      | _, _ => Raise SyntaxError
      end
  | String c s' =>
      match m with
      | Start =>
          if is_blank c then run Start frames s'
          else if Ascii.eqb c "["%char then run Start ([] :: frames) s'
          else if Ascii.eqb c "]"%char then
            match frames with
            | f :: frames' => run (After (PList (rev f))) frames' s'
            | [] => Raise SyntaxError
            end
          else if Ascii.eqb c Repr.squote || Ascii.eqb c Repr.dquote
          then run (InStr c EmptyString) frames s'
          else Raise Unsupported
      | InStr q acc =>
          if Ascii.eqb c q then run (After (PStr (rev_onto acc EmptyString))) frames s'
          else if Ascii.eqb c Repr.backslash then run (Esc q acc) frames s'
          else if (N_of_ascii c =? 10)%N || (N_of_ascii c =? 13)%N
          then Raise SyntaxError
          else run (InStr q (String c acc)) frames s'
      | Esc q acc =>
          if Ascii.eqb c "x"%char then run (Hex1 q acc) frames s'
          else match escape_of c with
               | Some d => run (InStr q (String d acc)) frames s'
               | None => Raise Unsupported
               end
      | Hex1 q acc =>
          match hex_val c with
          | Some d => run (Hex2 q acc d) frames s'
          | None => Raise SyntaxError
          end
      | Hex2 q acc d =>
          match hex_val c with
          | Some e => run (InStr q (String (ascii_of_N (16 * d + e)) acc)) frames s'
          | None => Raise SyntaxError
          end
      | After v =>
          if is_blank c then run (After v) frames s'
          else match frames with
               | [] => Raise Unsupported
               | f :: frames' =>
                   if Ascii.eqb c ","%char then run Start ((v :: f) :: frames') s'
                   else if Ascii.eqb c "]"%char
                   then run (After (PList (rev (v :: f)))) frames' s'
                   else if Ascii.eqb c Repr.squote || Ascii.eqb c Repr.dquote
                   then Raise Unsupported
                   else Raise SyntaxError
               end
      end
  end.

Definition literal_eval (s : string) : result prov := run Start [] s.

End Literal.

(** *** The codec of the pool: [generate_prov_string], [generate_prov_list] *)

(** [generate_prov_string(prov)]: the resource named by the last entry and
    the lineage key [str(prov)].  The [isinstance(prov, list)] test holds
    by typing. *)
Definition generate_prov_string (prov : list prov) : result (string * string) :=
  rbind (get_last_prov_entry prov) (fun last_entry =>
  Ok (Str.split_hd colon last_entry, py_str prov)).

(** [generate_prov_list(prov_str)]: [ast.literal_eval(prov_str)]. *)
Definition generate_prov_list (prov_str : string) : result prov :=
  Literal.literal_eval prov_str.

(** ** Python dictionaries *)

Definition pydict (V : Type) : Type := list (string * V).

Section PyDict.
Context {V : Type}.

(** [d.get(k)]: [None] when [k] is not a key. *)
Fixpoint dget (k : string) (d : pydict V) : option V :=
  match d with
  | [] => None
  | (k', v) :: d' => if String.eqb k k' then Some v else dget k d'
  end.

(** [k in d] *)
Definition dmem (k : string) (d : pydict V) : bool :=
  match dget k d with Some _ => true | None => false end.

(** [d[k] = v]: an existing key keeps its place, a new one goes last. *)
Fixpoint dset (k : string) (v : V) (d : pydict V) : pydict V :=
  match d with
  | [] => [(k, v)]
  | (k', v') :: d' =>
      if String.eqb k k' then (k, v) :: d' else (k', v') :: dset k v d'
  end.

(** [del d[k]] for a key that is present. *)
Fixpoint ddel (k : string) (d : pydict V) : pydict V :=
  match d with
  | [] => []
  | (k', v) :: d' =>
      if String.eqb k k' then ddel k d' else (k', v) :: ddel k d'
  end.

(** [list(d.keys())] *)
Definition dkeys (d : pydict V) : list string := map fst d.

(** The representation invariant of a dict: no key occurs twice. *)
Definition dict_wf (d : pydict V) : Prop := NoDup (dkeys d).

End PyDict.

(** [d.update(e)] *)
Definition dupdate {V} (d e : pydict V) : pydict V :=
  fold_left (fun acc kv => dset (fst kv) (snd kv) acc) e d.

(** ** Metadata, pool entries and the state *)

(** A value of a CpacVariant entry: the list of fork tags of a base
    resource ([isinstance(val, list)]) or a single tag. *)
Inductive variant_val : Type :=
| VList (l : list string)
| VTag (s : string).

(** The values of the metadata fields the engine reads or writes. *)
#[local] Unset Elimination Schemes.
Inductive jval : Type :=
| JNone
| JBool (b : bool)
| JStr (s : string)
| JStrs (l : list string)                    (* Sources, RawSources *)
| JProv (p : list prov)                      (* CpacProvenance *)
| JVariant (d : list (string * variant_val)) (* CpacVariant *)
| JDict (d : list (string * jval)).          (* subjson and its items *)
#[local] Set Elimination Schemes.

(** A metadata dictionary ([json_info]). *)
Abbreviation jdict := (pydict jval).

(** A reference to a metadata dictionary of the store. *)
Abbreviation loc := nat.

(** The producer of a resource: [(node, output)]. *)
Definition producer : Type := (string * string)%type.

(** [rpool[resource][pipe_idx]]: a dict with the keys ['data'] and
    ['json'], each of them present or not. *)
Record entry : Type := mk_entry {
  data : option producer;
  json : option loc
}.

Definition empty_entry : entry := {| data := None; json := None |}.

(** [rpool[resource]]: lineage key to entry. *)
Abbreviation strats := (pydict entry).

Record state : Type := mk_state {
  rpool : pydict strats;
  pipe_list : list string;
  rtable : pydict (pydict (pydict (list string)));
  heap : list jdict
}.

Definition with_rpool (f : pydict strats -> pydict strats) (s : state) : state :=
  {| rpool := f (rpool s); pipe_list := pipe_list s;
     rtable := rtable s; heap := heap s |}.

Definition with_pipe_list (f : list string -> list string) (s : state) : state :=
  {| rpool := rpool s; pipe_list := f (pipe_list s);
     rtable := rtable s; heap := heap s |}.

Definition with_rtable
  (f : pydict (pydict (pydict (list string))) -> pydict (pydict (pydict (list string))))
  (s : state) : state :=
  {| rpool := rpool s; pipe_list := pipe_list s;
     rtable := f (rtable s); heap := heap s |}.

Definition with_heap (f : list jdict -> list jdict) (s : state) : state :=
  {| rpool := rpool s; pipe_list := pipe_list s;
     rtable := rtable s; heap := f (heap s) |}.

(** ** The monad of the pool's methods: state and exceptions *)

Definition M (A : Type) : Type := state -> result A * state.

Definition ret {A} (a : A) : M A := fun s => (Ok a, s).

Definition raise {A} (e : exn) : M A := fun s => (Raise e, s).

Definition bind {A B} (m : M A) (f : A -> M B) : M B :=
  fun s => match m s with
           | (inl e, s') => (inl e, s')
           | (inr a, s') => f a s'
           end.

Definition lift {A} (r : result A) : M A := fun s => (r, s).

Definition gets {A} (f : state -> A) : M A := fun s => (Ok (f s), s).

Definition modify (f : state -> state) : M unit := fun s => (Ok tt, f s).

Notation "x <- m ;; k" := (bind m (fun x => k))
  (at level 100, m at next level, right associativity).
Notation "m ;;; k" := (bind m (fun _ => k))
  (at level 100, right associativity).

(** [for x in l: body x], left to right, stopping at the first exception. *)
Fixpoint for_each {A} (l : list A) (body : A -> M unit) : M unit :=
  match l with
  | [] => ret tt
  | x :: l' => body x ;;; for_each l' body
  end.

(** A new object in the store. *)
Definition alloc (d : jdict) : M loc :=
  fun s => (Ok (length (heap s)), with_heap (fun h => h ++ [d]) s).

(** The object a reference points to. *)
Definition deref (l : loc) : M jdict :=
  fun s => match heap s !! l with
           | Some d => (Ok d, s)
           | None => (Raise IllTyped, s)
           end.

(** [obj[k] = v] on the object at [l]. *)
Definition store_item (l : loc) (k : string) (v : jval) : M unit :=
  d <- deref l ;;
  modify (with_heap (fun h => <[l := dset k v d]> h)).

(** ** Resource Pool (4.2) *)

(** [get_resource_from_prov(prov)]: the resource named by the last item.
    The method is also applied to the string items of a chain, where
    [prov[-1]] is the last character of the string. *)
Definition get_resource_from_prov (p : prov) : result (option string) :=
  match p with
  | PList l =>
      match last l with
      | None => Ok None
      | Some (PList l2) =>
          match last l2 with
          | None => Raise IndexError
          | Some (PStr s) => Ok (Some (Str.split_hd colon s))
          | Some (PList _) => Raise AttributeError
          end
      | Some (PStr s) => Ok (Some (Str.split_hd colon s))
      end
  | PStr s =>
      match Str.last_char s with
      | None => Ok None
      | Some c => Ok (Some (Str.split_hd colon (String c EmptyString)))
      end
  end.

(** [x == resource] for the value returned by [get_resource_from_prov]. *)
Definition names (x : option string) (resource : string) : bool :=
  match x with
  | Some r => String.eqb r resource
  | None => false
  end.

(** [parse_bids_tags(resource)] *)
Fixpoint bids_tag_dct (tags : list string) (tag_dct : pydict string)
  : result (pydict string) :=
  match tags with
  | [] => Ok tag_dct
  | tag :: tags' =>
      match Str.split "-"%char tag with
      | k :: v :: _ => bids_tag_dct tags' (dset k v tag_dct)
      | _ => Raise IndexError
      end
  end.

Definition parse_bids_tags (resource : string) : result (string * pydict string) :=
  let resource_tags := Str.split "_"%char resource in
  let resource_type := List.last resource_tags EmptyString in
  rbind (bids_tag_dct (removelast resource_tags) [("None", "None")])
        (fun tag_dct => Ok (resource_type, tag_dct)).

(** The registration of [resource] in [rtable] at the end of [set_data]. *)
Definition register_tag (resource resource_type : string) (tv : string * string)
  : M unit :=
  let '(tag, val) := tv in
  rt <- gets rtable ;;
  let by_tag := default [] (dget resource_type rt) in
  let by_tag' := if dmem tag by_tag then by_tag else dset tag [(val, [])] by_tag in
  modify (with_rtable (dset resource_type by_tag')) ;;;
  match dget tag by_tag' ≫= dget val with
  | None => raise KeyError
  | Some members =>
      if existsb (String.eqb resource) members then ret tt
      else modify (with_rtable
                     (dset resource_type
                        (dset tag (dset val (members ++ [resource])
                                     (default [] (dget tag by_tag'))) by_tag')))
  end.

(** The loop of [set_data] that looks in the chain for an item produced
    under the name [resource]; [Some idx] is the lineage key it assigns to
    [pipe_idx] before [break]. *)
Fixpoint search_prov (resource : string) (current_prov_list : list prov)
  : result (option string) :=
  match current_prov_list with
  | [] => Ok None
  | idx :: rest =>
      rbind (get_resource_from_prov idx) (fun r =>
      if names r resource then
        match idx with
        | PList l => rbind (generate_prov_string l) (fun rk => Ok (Some (snd rk)))
        | PStr s => Ok (Some s)
        end
      else search_prov resource rest)
  end.

(** The lineage key whose entry a non-forking [set_data] deletes. *)
Definition replaced_key (resource : string) (current_prov_list : list prov)
  (pipe_idx : string) (entries : strats) : result string :=
  rbind (get_resource_from_prov (PList current_prov_list)) (fun r =>
  rbind (if names r resource
         then rbind (generate_prov_string current_prov_list) (fun rk =>
              Ok (snd rk, negb (dmem (snd rk) entries)))
         else Ok (pipe_idx, true)) (fun ps =>
  let '(pipe_idx, search) := ps in
  if search
  then rbind (search_prov resource current_prov_list) (fun found =>
       Ok (default pipe_idx found))
  else Ok pipe_idx)).

(** [rpool[resource][pipe_idx][field] = ...] *)
Definition update_entry (resource pipe_idx : string) (f : entry -> entry)
  (rp : pydict strats) : pydict strats :=
  let entries := default [] (dget resource rp) in
  dset resource
    (dset pipe_idx (f (default empty_entry (dget pipe_idx entries))) entries) rp.

(** The provenance a metadata dictionary carries: [[]] when it has no
    CpacProvenance entry. *)
Definition prov_of (info : jdict) : result (list prov) :=
  match dget "CpacProvenance" info with
  | None => Ok []
  | Some (JProv p) => Ok p
  | Some _ => Raise IllTyped
  end.

(** The step [set_data] appends for [resource]: [f'{resource}:{node_name}']. *)
Definition prov_step (resource node_name : string) : prov :=
  PStr (resource +:+ ":" +:+ node_name).

(** The chain [set_data] stores: the supplied one, with the step of
    [resource] appended unless the call is an injection. *)
Definition new_prov (resource node_name : string) (inject : bool)
  (cpac_prov : list prov) : list prov :=
  if inject then cpac_prov else cpac_prov ++ [prov_step resource node_name].

(** [set_data], first part: the copy of the caller's metadata, the new
    chain and its lineage key, and the CpacProvenance entry of the copy.
    Returns the reference to the copy, [current_prov_list] and
    [new_pipe_idx]. *)
Definition copy_info (resource : string) (json_info : loc) (node_name : string)
  (inject : bool) : M (loc * list prov * string) :=
  caller_info <- deref json_info ;;
  json_info <- alloc caller_info ;;                     (* json_info.copy() *)
  cpac_prov <- lift (prov_of caller_info) ;;
  let current_prov_list := cpac_prov in
  let new_prov_list := new_prov resource node_name inject cpac_prov in
  rk <- match generate_prov_string new_prov_list with
        | inl IndexError => raise EmptyProvenance
        | r => lift r
        end ;;
  let new_pipe_idx := snd rk in
  json_info <- match caller_info with
               | [] => alloc [("RawSources", JStrs [resource])]
               | _ => ret json_info
               end ;;
  store_item json_info "CpacProvenance" (JProv new_prov_list) ;;;
  ret (json_info, current_prov_list, new_pipe_idx).

(** [set_data], second part: a new resource gets an empty dict of
    strategies; for a known one a non-forking call deletes the entry it
    replaces. *)
Definition evict (resource : string) (current_prov_list : list prov)
  (pipe_idx : string) (fork : bool) : M unit :=
  rp <- gets rpool ;;
  match dget resource rp with
  | None => modify (with_rpool (dset resource []))
  | Some entries =>
      if fork then ret tt
      else
        pipe_idx <- lift (replaced_key resource current_prov_list pipe_idx entries) ;;
        if dmem pipe_idx entries
        then modify (with_rpool (dset resource (ddel pipe_idx entries)))
        else ret tt
  end.

(** [set_data], third part: the entry and the ordinal of the new key. *)
Definition reserve (resource new_pipe_idx : string) : M unit :=
  rp <- gets rpool ;;
  (if dmem new_pipe_idx (default [] (dget resource rp)) then ret tt
   else modify (with_rpool (update_entry resource new_pipe_idx (fun _ => empty_entry)))) ;;;
  pl <- gets pipe_list ;;
  if existsb (String.eqb new_pipe_idx) pl then ret tt
  else modify (with_pipe_list (fun pl => pl ++ [new_pipe_idx])).

(** [set_data], fourth part: the BIDS tags of the name go to [rtable]. *)
Definition register (resource : string) : M unit :=
  tt_dct <- lift (parse_bids_tags resource) ;;
  let '(resource_type, tag_dct) := tt_dct in
  rt <- gets rtable ;;
  (if dmem resource_type rt then ret tt
   else modify (with_rtable (dset resource_type []))) ;;;
  for_each tag_dct (register_tag resource resource_type).

(** [set_data], last part: the producer and the metadata of the entry. *)
Definition store (resource new_pipe_idx node output : string) (json_info : loc)
  : M unit :=
  modify (with_rpool (update_entry resource new_pipe_idx
            (fun e => {| data := Some (node, output); json := json e |}))) ;;;
  modify (with_rpool (update_entry resource new_pipe_idx
            (fun e => {| data := data e; json := Some json_info |}))).

(** [set_data] from the test [resource not in self.rpool.keys()] to its
    end. *)
Definition insert_entry (resource node output : string) (json_info : loc)
  (pipe_idx : string) (fork : bool) (current_prov_list : list prov)
  (new_pipe_idx : string) : M unit :=
  evict resource current_prov_list pipe_idx fork ;;;
  reserve resource new_pipe_idx ;;;
  register resource ;;;
  store resource new_pipe_idx node output json_info.

(** [set_data(resource, node, output, json_info, pipe_idx, node_name,
              fork=False, inject=False)] *)
Definition set_data (resource node output : string) (json_info : loc)
  (pipe_idx node_name : string) (fork inject : bool) : M unit :=
  c <- copy_info resource json_info node_name inject ;;
  let '(json_info, current_prov_list, new_pipe_idx) := c in
  insert_entry resource node output json_info pipe_idx fork
    current_prov_list new_pipe_idx.

(** [rpool[resource]], or the empty dict for an unknown resource. *)
Definition entries_of (resource : string) (s : state) : strats :=
  default [] (dget resource (rpool s)).

(** A resource argument of [get]: one name or a list of alternatives. *)
Inductive rspec : Type :=
| Name (s : string)
| Alts (l : list string).

(** What [get] hands back: the dict of strategies of a resource, one
    entry, or [None]. *)
Inductive fetched : Type :=
| FStrats (d : strats)
| FEntry (e : entry)
| FNone.

(** The return value of [get]: the fetched value, or with
    [report_fetched] the pair of it and the name it was found under. *)
Inductive got : Type :=
| Plain (f : fetched)
| Reported (f : fetched) (label : option string).

Definition reply (report_fetched : bool) (f : fetched) (label : option string) : got :=
  if report_fetched then Reported f label else Plain f.

(** The truth value of a [pipe_idx] argument. *)
Definition truthy (pipe_idx : option string) : option string :=
  match pipe_idx with
  | Some (String c k) => Some (String c k)
  | _ => None
  end.

(** [get(resource, pipe_idx=None, report_fetched=False, optional=False)]
    on the main pool. *)
Fixpoint get_first (rp : pydict strats) (resource : list string)
  (report_fetched optional : bool) : result got :=
  match resource with
  | [] => if optional then Ok (reply report_fetched FNone None)
          else Raise ResourceNotFound
  | label :: rest =>
      match dget label rp with
      | Some d => Ok (reply report_fetched (FStrats d) (Some label))
      | None => get_first rp rest report_fetched optional
      end
  end.

Definition get (rp : pydict strats) (resource : rspec) (pipe_idx : option string)
  (report_fetched optional : bool) : result got :=
  match resource with
  | Alts l => get_first rp l report_fetched optional
  | Name r =>
      match dget r rp with
      | None => if optional then Ok (reply report_fetched FNone None)
                else Raise ResourceLookupError
      | Some d =>
          match truthy pipe_idx with
          | Some k =>
              match dget k d with
              | Some e => Ok (reply report_fetched (FEntry e) (Some r))
              | None => Raise KeyError
              end
          | None => Ok (reply report_fetched (FStrats d) (Some r))
          end
      end
  end.

(** ** Strategy Combination Engine (4.3): [get_strats] *)

(** A declared input: a name or a list of alternatives, or a tuple of
    linked labels. *)
Inductive input : Type :=
| Single (r : rspec)
| Linked (labels : list rspec).

(** [rp_dct, fetched_resource = self.get(label, report_fetched=True,
    optional=True)] followed by the test [if not rp_dct]: [None] for a
    resource that is absent or has an empty dict of strategies. *)
Definition fetch (rp : pydict strats) (resource : rspec)
  : result (option (strats * string)) :=
  rbind (get rp resource None true true) (fun g =>
  match g with
  | Reported (FStrats (kv :: d)) (Some label) => Ok (Some (kv :: d, label))
  | _ => Ok None
  end).

(** The labels of a linked tuple that are present, under the names they
    were fetched by. *)
Fixpoint fetch_linked (rp : pydict strats) (labels : list rspec)
  : result (list string) :=
  match labels with
  | [] => Ok []
  | label :: rest =>
      rbind (fetch rp label) (fun f =>
      rbind (fetch_linked rp rest) (fun linked =>
      Ok (match f with
          | Some (_, fetched_resource) => fetched_resource :: linked
          | None => linked
          end)))
  end.

(** The first loop of [get_strats]: [resource_list] and
    [linked_resources]. *)
Fixpoint collect_inputs (rp : pydict strats) (resources : list input)
  : result (list rspec * list (list string)) :=
  match resources with
  | [] => Ok ([], [])
  | Single r :: rest =>
      rbind (collect_inputs rp rest) (fun rl =>
      Ok (r :: fst rl, snd rl))
  | Linked labels :: rest =>
      rbind (fetch_linked rp labels) (fun linked =>
      rbind (collect_inputs rp rest) (fun rl =>
      Ok (map Name linked ++ fst rl,
          if Nat.ltb (length linked) 2 then snd rl else linked :: snd rl)))
  end.

(** What [get_json] returns on the main pool: the metadata of an entry,
    or, for a false [strat], the value under the key ['json'] of the dict
    of strategies, which is an entry. *)
Inductive json_ref : Type :=
| JsonAt (l : loc)
| EntryDict (e : entry).

(** [get_json(resource, strat)] *)
Definition get_json (rp : pydict strats) (resource strat : string) : result json_ref :=
  match dget resource rp with
  | None => Raise KeyError
  | Some d =>
      match strat with
      | EmptyString =>
          match dget "json" d with
          | Some e => Ok (EntryDict e)
          | None => Raise IncompleteJson
          end
      | _ =>
          match dget strat d with
          | None => Raise KeyError
          | Some e =>
              match json e with
              | Some l => Ok (JsonAt l)
              | None => Raise IncompleteJson
              end
          end
      end
  end.

(** The dict a [json_ref] stands for; an entry has the keys ['data'] and
    ['json'] only, so none of the metadata keys read below. *)
Definition json_items (h : list jdict) (j : json_ref) : result jdict :=
  match j with
  | EntryDict _ => Ok []
  | JsonAt l =>
      match h !! l with
      | Some info => Ok info
      | None => Raise IllTyped
      end
  end.

(** [json_info['CpacProvenance']] *)
Definition cpac_provenance (info : jdict) : result (list prov) :=
  match dget "CpacProvenance" info with
  | None => Raise KeyError
  | Some (JProv p) => Ok p
  | Some _ => Raise IllTyped
  end.

(** [json_info['CpacVariant']] when ['CpacVariant' in json_info]. *)
Definition cpac_variant (info : jdict) : result (option (pydict variant_val)) :=
  match dget "CpacVariant" info with
  | None => Ok None
  | Some (JVariant d) => Ok (Some d)
  | Some _ => Raise IllTyped
  end.

(** [val[0]] *)
Definition first_of (val : variant_val) : result string :=
  match val with
  | VList [] => Raise IndexError
  | VList (x :: _) => Ok x
  | VTag EmptyString => Raise IndexError
  | VTag (String c _) => Ok (String c EmptyString)
  end.

(** The items [known += val] adds: those of a list, the characters of a
    string. *)
Fixpoint chars (s : string) : list string :=
  match s with
  | EmptyString => []
  | String c s' => String c EmptyString :: chars s'
  end.

Definition items_of (val : variant_val) : list string :=
  match val with
  | VList l => l
  | VTag s => chars s
  end.

(** [val not in known]: a list is never an item of a list of strings. *)
Definition is_known (val : variant_val) (known : list string) : bool :=
  match val with
  | VList _ => false
  | VTag s => existsb (String.eqb s) known
  end.

(** The update of [variant_pool[fetched_resource]] for one strategy. *)
Fixpoint add_variants (vals : pydict variant_val) (known : list string)
  : result (list string) :=
  match vals with
  | [] => Ok known
  | (_, val) :: rest =>
      if is_known val known then add_variants rest known
      else rbind (first_of val) (fun v0 =>
           add_variants rest (known ++ items_of val ++ ["NO-" +:+ v0]))
  end.

(** The loop over [rp_dct.keys()]: the chains of the strategies of one
    input and the fork labels seen on them. *)
Fixpoint sub_pool_of (h : list jdict) (rp : pydict strats) (fetched_resource : string)
  (keys : list string) (known : list string)
  : result (list (list prov) * list string) :=
  match keys with
  | [] => Ok ([], known)
  | strat :: rest =>
      rbind (get_json rp fetched_resource strat) (fun j =>
      rbind (json_items h j) (fun json_info =>
      rbind (cpac_provenance json_info) (fun cpac_prov =>
      rbind (cpac_variant json_info) (fun variant =>
      rbind (add_variants (default [] variant) known) (fun known' =>
      rbind (sub_pool_of h rp fetched_resource rest known') (fun r =>
      Ok (cpac_prov :: fst r, snd r)))))))
  end.

(** The second loop of [get_strats]: [total_pool] and [variant_pool]. *)
Fixpoint gather (h : list jdict) (rp : pydict strats) (resource_list : list rspec)
  (variant_pool : pydict (list string))
  : result (list (list (list prov)) * pydict (list string)) :=
  match resource_list with
  | [] => Ok ([], variant_pool)
  | resource :: rest =>
      rbind (fetch rp resource) (fun f =>
      match f with
      | None => gather h rp rest variant_pool
      | Some (rp_dct, fetched_resource) =>
          rbind (sub_pool_of h rp fetched_resource (dkeys rp_dct)
                   (default [] (dget fetched_resource variant_pool))) (fun sk =>
          rbind (gather h rp rest (dset fetched_resource (snd sk) variant_pool))
                (fun r =>
          Ok (fst sk :: fst r, snd r)))
      end)
  end.

(** [itertools.product] of the pools of [total_pool]: the last pool
    varies fastest. *)
Fixpoint product {A} (pools : list (list A)) : list (list A) :=
  match pools with
  | [] => [[]]
  | pool :: rest => flat_map (fun x => map (cons x) (product rest)) pool
  end.

(** [str(strat_list)] for a list of chains. *)
Definition strat_str (strat_list : list (list prov)) : string :=
  py_str (map PList strat_list).

(** The combinations with a string form not seen before
    ([strat_list_list]). *)
Fixpoint dedup_strats (strats : list (list (list prov))) (strat_str_list : list string)
  : list (list (list prov)) :=
  match strats with
  | [] => []
  | strat_list :: rest =>
      if existsb (String.eqb (strat_str strat_list)) strat_str_list
      then dedup_strats rest strat_str_list
      else strat_list :: dedup_strats rest (strat_str_list ++ [strat_str strat_list])
  end.

(** [json_dct]: for every chain of the combination, the metadata of the
    entry its last step names. *)
Fixpoint json_dct_of (rp : pydict strats) (strat_list : list (list prov))
  (json_dct : pydict json_ref) : result (pydict json_ref) :=
  match strat_list with
  | [] => Ok json_dct
  | strat :: rest =>
      rbind (generate_prov_string strat) (fun rk =>
      rbind (get_json rp (fst rk) (snd rk)) (fun strat_json =>
      json_dct_of rp rest (dset (fst rk) strat_json json_dct)))
  end.

(** [list(set(l))]: the items of [l] without repetition.  The order of a
    Python set is unspecified; the pruning below only tests membership and
    existence, so the order of first occurrence is as good as any. *)
Fixpoint distinct (l : list string) (seen : list string) : list string :=
  match l with
  | [] => []
  | x :: l' =>
      if existsb (String.eqb x) seen then distinct l' seen
      else x :: distinct l' (seen ++ [x])
  end.

(** [current_strat] before the spread is added: the first fork tag of
    every item of CpacVariant. *)
Fixpoint applied_tags (vals : pydict variant_val) : result (list string) :=
  match vals with
  | [] => Ok []
  | (_, VList []) :: _ => Raise IndexError
  | (_, VList (x :: _)) :: rest => rbind (applied_tags rest) (fun l => Ok (x :: l))
  | (_, VTag s) :: rest => rbind (applied_tags rest) (fun l => Ok (s :: l))
  end.

(** The labels of the spread that the strategy did not apply are added as
    ['NO-label']. *)
Fixpoint add_negatives (spread : list string) (strat : list string) : list string :=
  match spread with
  | [] => strat
  | spread_label :: rest =>
      if Str.contains "NO-" spread_label then add_negatives rest strat
      else if existsb (String.eqb spread_label) strat then add_negatives rest strat
      else add_negatives rest (strat ++ ["NO-" +:+ spread_label])
  end.

Definition mem (x : string) (l : list string) : bool := existsb (String.eqb x) l.

(** The test on one [variant] of [current_spread]. *)
Definition conflicts (current_strat other_strat other_spread : list string)
  (variant : string) : bool :=
  let in_current_strat := mem variant current_strat in
  let in_other_strat := mem variant other_strat in
  let in_other_spread := mem variant other_spread in
  (negb in_other_strat && in_other_spread && in_current_strat)
  || (in_other_strat && in_other_spread && negb in_current_strat).

(** The strategy of a linked label: its applied tags and the negatives of
    its spread.  ['CpacVariant'] defaults to the empty dict. *)
Definition strat_of (info : jdict) (spread : list string) : result (list string) :=
  rbind (cpac_variant info) (fun variant =>
  rbind (applied_tags (default [] variant)) (fun tags =>
  Ok (add_negatives spread tags))).

(** [variant_pool[label]] *)
Definition spread_of (variant_pool : pydict (list string)) (label : string)
  : result (list string) :=
  match dget label variant_pool with
  | Some l => Ok (distinct l [])
  | None => Raise KeyError
  end.

(** [json_dct[label]] as a dict. *)
Definition linked_json (h : list jdict) (json_dct : pydict json_ref) (label : string)
  : result jdict :=
  match dget label json_dct with
  | Some j => json_items h j
  | None => Raise KeyError
  end.

(** [for x in l], leaving at the first [x] that sets [drop]. *)
Fixpoint any_of {A} (l : list A) (f : A -> result bool) : result bool :=
  match l with
  | [] => Ok false
  | x :: l' => rbind (f x) (fun b => if b then Ok true else any_of l' f)
  end.

(** The body of [for ylabel in linked] for one pair of labels. *)
Definition pair_drops (h : list jdict) (json_dct : pydict json_ref)
  (variant_pool : pydict (list string)) (xjson : jdict) (xlabel ylabel : string)
  : result bool :=
  if String.eqb xlabel ylabel then Ok false
  else
    rbind (linked_json h json_dct ylabel) (fun yjson =>
    rbind (cpac_variant xjson) (fun xvariant =>
    rbind (applied_tags (default [] xvariant)) (fun xtags =>
    rbind (spread_of variant_pool xlabel) (fun current_spread =>
    let current_strat := add_negatives current_spread xtags in
    rbind (cpac_variant yjson) (fun yvariant =>
    rbind (applied_tags (default [] yvariant)) (fun ytags =>
    rbind (spread_of variant_pool ylabel) (fun other_spread =>
    let other_strat := add_negatives other_spread ytags in
    Ok (existsb (conflicts current_strat other_strat other_spread)
          current_spread)))))))).

(** [drop] for one combination. *)
Definition drops (h : list jdict) (json_dct : pydict json_ref)
  (variant_pool : pydict (list string)) (linked_resources : list (list string))
  : result bool :=
  any_of linked_resources (fun linked =>
  any_of linked (fun xlabel =>
  rbind (linked_json h json_dct xlabel) (fun xjson =>
  any_of linked (pair_drops h json_dct variant_pool xjson xlabel)))).

(** An item of the [rpool] of a strategy pool: the merged metadata under
    ['json'], or the entry of a resource. *)
Inductive spval : Type :=
| SPJson (l : loc)
| SPEntry (e : entry).

Abbreviation strat_pool := (pydict spval).

(** [resource.split('_')[-1]] *)
Definition data_type_of (resource : string) : string :=
  List.last (Str.split "_"%char resource) EmptyString.

(** The fork tags of an input that the merged metadata does not have yet. *)
Fixpoint merge_variants (d : pydict variant_val) (acc : pydict variant_val)
  : pydict variant_val :=
  match d with
  | [] => acc
  | (younger_resource, variant_list) :: rest =>
      merge_variants rest
        (if dmem younger_resource acc then acc
         else dset younger_resource variant_list acc)
  end.

(** [m['subjson'][data_type].update(copy.deepcopy(info))], with
    [m['subjson'][data_type]] created empty when missing. *)
Definition add_subjson (data_type : string) (info : jdict) (m : jdict) : result jdict :=
  match dget "subjson" m with
  | Some (JDict sub) =>
      match default (JDict []) (dget data_type sub) with
      | JDict old => Ok (dset "subjson"
                           (JDict (dset data_type (JDict (dupdate old info)) sub)) m)
      | _ => Raise IllTyped
      end
  | Some _ => Raise IllTyped
  | None => Raise KeyError
  end.

(** One chain of a surviving combination: its entry goes to the strategy
    pool, the key to [pipe_list], its fork tags and its metadata to the
    merged metadata [m]. *)
Definition merge_one (pipe_idx : string) (cpac_prov : list prov)
  (acc : strat_pool * jdict) : M (strat_pool * jdict) :=
  let '(sp, m) := acc in
  rk <- lift (generate_prov_string cpac_prov) ;;
  let '(resource, strat) := rk in
  rp <- gets rpool ;;
  resource_strat_dct <- lift (match dget resource rp ≫= dget strat with
                              | Some e => Ok e
                              | None => Raise KeyError
                              end) ;;
  modify (with_pipe_list (fun pl => pl ++ [pipe_idx])) ;;;
  l <- lift (match json resource_strat_dct with
             | Some l => Ok l
             | None => Raise KeyError
             end) ;;
  info <- deref l ;;
  variant <- lift (cpac_variant info) ;;
  m <- match variant with
       | None => ret m
       | Some d =>
           match default (JVariant []) (dget "CpacVariant" m) with
           | JVariant acc => ret (dset "CpacVariant" (JVariant (merge_variants d acc)) m)
           | _ => raise IllTyped
           end
       end ;;
  m <- lift (add_subjson (data_type_of resource) info m) ;;
  ret (dset resource (SPEntry resource_strat_dct) sp, m).

Fixpoint merge_all (pipe_idx : string) (strat_list : list (list prov))
  (acc : strat_pool * jdict) : M (strat_pool * jdict) :=
  match strat_list with
  | [] => ret acc
  | cpac_prov :: rest =>
      acc' <- merge_one pipe_idx cpac_prov acc ;;
      merge_all pipe_idx rest acc'
  end.

(** [obj] at [l] becomes [d]: the net effect of the item assignments made
    on the merged metadata of a combination. *)
Definition store_all (l : loc) (d : jdict) : M unit :=
  modify (with_heap (fun h => <[l := d]> h)).

(** The body of [for strat_list in strat_list_list]. *)
Definition combine (variant_pool : pydict (list string))
  (linked_resources : list (list string)) (strat_list : list (list prov))
  (new_strats : pydict strat_pool) : M (pydict strat_pool) :=
  rp <- gets rpool ;;
  h <- gets heap ;;
  json_dct <- lift (json_dct_of rp strat_list []) ;;
  drop <- lift (drops h json_dct variant_pool linked_resources) ;;
  if drop then ret new_strats
  else
    let pipe_idx := strat_str strat_list in
    let m := [("subjson", JDict []);
              ("CpacProvenance", JProv (map PList strat_list))] in
    l <- alloc m ;;
    r <- merge_all pipe_idx strat_list ([("json", SPJson l)], m) ;;
    store_all l (snd r) ;;;
    ret (dset pipe_idx (fst r) new_strats).

Fixpoint combine_all (variant_pool : pydict (list string))
  (linked_resources : list (list string)) (strat_list_list : list (list (list prov)))
  (new_strats : pydict strat_pool) : M (pydict strat_pool) :=
  match strat_list_list with
  | [] => ret new_strats
  | strat_list :: rest =>
      new_strats' <- combine variant_pool linked_resources strat_list new_strats ;;
      combine_all variant_pool linked_resources rest new_strats'
  end.

(** The body of the loop over the chains of the sole input. *)
Definition single (cpac_prov : list prov) (new_strats : pydict strat_pool)
  : M (pydict strat_pool) :=
  rk <- lift (generate_prov_string cpac_prov) ;;
  let '(resource, pipe_idx) := rk in
  rp <- gets rpool ;;
  resource_strat_dct <- lift (match dget resource rp ≫= dget pipe_idx with
                              | Some e => Ok e
                              | None => Raise KeyError
                              end) ;;
  l <- lift (match json resource_strat_dct with
             | Some l => Ok l
             | None => Raise KeyError
             end) ;;
  let sp := dset "json" (SPJson l) [(resource, SPEntry resource_strat_dct)] in
  store_item l "subjson" (JDict []) ;;;
  store_item l "CpacProvenance" (JProv cpac_prov) ;;;
  let data_type := data_type_of resource in
  store_item l "subjson" (JDict [(data_type, JDict [])]) ;;;
  info <- deref l ;;                                   (* copy.deepcopy *)
  store_item l "subjson" (JDict [(data_type, JDict (dupdate [] info))]) ;;;
  ret (dset pipe_idx sp new_strats).

Fixpoint single_all (pool : list (list prov)) (new_strats : pydict strat_pool)
  : M (pydict strat_pool) :=
  match pool with
  | [] => ret new_strats
  | cpac_prov :: rest =>
      new_strats' <- single cpac_prov new_strats ;;
      single_all rest new_strats'
  end.

Fixpoint single_pools (total_pool : list (list (list prov)))
  (new_strats : pydict strat_pool) : M (pydict strat_pool) :=
  match total_pool with
  | [] => ret new_strats
  | pool :: rest =>
      new_strats' <- single_all pool new_strats ;;
      single_pools rest new_strats'
  end.

(** [get_strats(resources)]: the strategy pools, keyed by the string form
    of the merged chain. *)
Definition get_strats (resources : list input) : M (pydict strat_pool) :=
  rp <- gets rpool ;;
  h <- gets heap ;;
  rl <- lift (collect_inputs rp resources) ;;
  let '(resource_list, linked_resources) := rl in
  tv <- lift (gather h rp resource_list []) ;;
  let '(total_pool, variant_pool) := tv in
  match total_pool with
  | [] => raise NoStrategiesFound
  | _ =>
      (* [len_inputs]: every input either lowers it or adds a pool *)
      let len_inputs := length total_pool in
      if Nat.ltb 1 len_inputs
      then combine_all variant_pool linked_resources
             (dedup_strats (product total_pool) []) []
      else single_pools total_pool []
  end.

(** ** Node Block Resolver (4.4): [NodeBlock.connect_block] *)

(** A value of the pipeline configuration. *)
#[local] Unset Elimination Schemes.
Inductive cval : Type :=
| CNone
| CBool (b : bool)
| CStr (s : string)
| CList (l : list cval)
| CDict (d : list (string * cval)).
#[local] Set Elimination Schemes.

(** [grab_tiered_dct(cfg, key_list)]: [cfg_dct.__getitem__(key)] key by
    key.  [None] and the booleans have no [__getitem__]; that of a string
    or a list refuses a string. *)
Fixpoint grab_tiered_dct (cfg : cval) (key_list : list string) : result cval :=
  match key_list with
  | [] => Ok cfg
  | key :: rest =>
      match cfg with
      | CDict d =>
          match dget key d with
          | Some v => grab_tiered_dct v rest
          | None => Raise KeyError
          end
      | CNone | CBool _ => Raise AttributeError
      | CStr _ | CList _ => Raise TypeError
      end
  end.

(** [v.__getitem__(key)] for a key that is itself a list, as when a list of
    paths stands where one path is expected. *)
Definition subscript_list (v : cval) : result cval :=
  match v with
  | CNone | CBool _ => Raise AttributeError
  | _ => Raise TypeError
  end.

(** [try: ... except AttributeError as err: raise Exception(...)] *)
Definition guard_lookup {A} (r : result A) : result A :=
  match r with
  | inl AttributeError => Raise ConfigLookupError
  | _ => r
  end.

Definition is_str (s : string) (v : cval) : bool :=
  match v with
  | CStr s' => String.eqb s s'
  | _ => false
  end.


(** [option in v] for a string [option]. *)
Definition opt_in (option : string) (v : cval) : result bool :=
  match v with
  | CList l => Ok (existsb (is_str option) l)
  | CStr s => Ok (Str.contains option s)
  | CDict d => Ok (dmem option d)
  | CNone | CBool _ => Raise TypeError
  end.

(** The paths of a docstring field that holds one list of keys or a list
    of such lists. *)
Inductive paths : Type :=
| Path (keys : list string)
| Paths (lists : list (list string)).

(** The declared outputs: a list of names, or a dict from names to fixed
    metadata. *)
Inductive outputs_decl : Type :=
| OutNames (names : list string)
| OutDict (d : pydict jdict).

(** The docstring of a node block after [check_null]; [option_key] and
    [option_val] are held as lists. *)
Record block : Type := mk_block {
  name : string;
  config : option (list string);
  switch : option paths;
  option_key : option paths;
  option_val : option (list string);
  inputs : list input;
  outputs : outputs_decl
}.

(** [config + keys]; no [config] leaves [keys]. *)
Definition under_config (b : block) (keys : list string) : list string :=
  match config b with
  | Some (c :: cs) => (c :: cs) ++ keys
  | _ => keys
  end.

Definition truthy_paths (p : option paths) : option paths :=
  match p with
  | Some (Path (k :: ks)) => Some (Path (k :: ks))
  | Some (Paths (l :: ls)) => Some (Paths (l :: ls))
  | _ => None
  end.

Definition truthy_list {A} (l : option (list A)) : option (list A) :=
  match l with
  | Some (x :: xs) => Some (x :: xs)
  | _ => None
  end.

(** The options of [option_val] that the configuration selects.  The
    first loop of [connect_block] looks them up under [try] ([guarded]),
    the second does not. *)
Fixpoint selected (guarded : bool) (cfg : cval) (key_list : list string)
  (option_val : list string) : result (list cval) :=
  match option_val with
  | [] => Ok []
  | option :: rest =>
      let found := rbind (grab_tiered_dct cfg key_list) (opt_in option) in
      rbind (if guarded then guard_lookup found else found) (fun b =>
      rbind (selected guarded cfg key_list rest) (fun opts =>
      Ok (if b then CStr option :: opts else opts)))
  end.

(** [opts] for [option_key] with [option_val]; [user] is what a
    'USER-DEFINED' option gives when the configuration holds [None]. *)
Definition listed_opts (guarded : bool) (cfg : cval) (b : block)
  (keys : list string) (option_val : list string) (user : list cval)
  : result (list cval) :=
  let key_list := under_config b keys in
  if existsb (String.eqb "USER-DEFINED") option_val
  then rbind (grab_tiered_dct cfg key_list) (fun v =>
       match v with
       | CList l => Ok l
       | CNone => Ok user
       | _ => Raise IllTyped
       end)
  else selected guarded cfg key_list option_val.

(** [opts] for [option_val] with an [option_key] that is a list of paths:
    the lookup goes down [config] and then fails on the first path, which
    is no key. *)
Definition listed_paths (guarded : bool) (cfg : cval) (b : block)
  (option_val : list string) : result (list cval) :=
  let failed := rbind (grab_tiered_dct cfg (under_config b [])) (fun v =>
                rbind (subscript_list v) (fun _ => Ok [])) in
  if existsb (String.eqb "USER-DEFINED") option_val then failed
  else if guarded then guard_lookup failed else failed.

(** [opts] for several option keys without [option_val]: the last key of
    every path is an option, active when the configuration lists it. *)
Fixpoint keyed_opts (cfg : cval) (b : block) (option_key : list (list string))
  : result (list cval) :=
  match option_key with
  | [] => Ok []
  | option_config :: rest =>
      let key_list := under_config b option_config in
      match last option_config with
      | None => Raise IndexError
      | Some option_val =>
          rbind (grab_tiered_dct cfg (removelast key_list)) (fun v =>
          rbind (opt_in option_val v) (fun yes =>
          rbind (keyed_opts cfg b rest) (fun opts =>
          Ok (if yes then CStr option_val :: opts else opts))))
      end
  end.

(** [opts] as the first loop of [connect_block] computes it, for
    [all_opts]. *)
Definition opts_for_all (cfg : cval) (b : block) : result (list cval) :=
  match truthy_paths (option_key b), truthy_list (option_val b) with
  | Some (Path keys), Some option_val =>
      listed_opts true cfg b keys option_val [CNone]
  | Some (Paths _), Some option_val => listed_paths true cfg b option_val
  | Some (Path _), None => Raise BadDocstring
  | Some (Paths lists), None => keyed_opts cfg b lists
  | None, _ => Ok [CNone]
  end.

Fixpoint all_opts_of (cfg : cval) (node_blocks : list block) : result (list cval) :=
  match node_blocks with
  | [] => Ok []
  | b :: rest =>
      rbind (opts_for_all cfg b) (fun opts =>
      rbind (all_opts_of cfg rest) (fun all_opts =>
      Ok (opts ++ all_opts)))
  end.

(** [opts] as the second loop computes it, for the block itself. *)
Definition opts_of (cfg : cval) (b : block) : result (list cval) :=
  match truthy_paths (option_key b), truthy_list (option_val b) with
  | Some (Path keys), Some option_val =>
      listed_opts false cfg b keys option_val []
  | Some (Paths _), Some option_val => listed_paths false cfg b option_val
  | _, _ => Ok [CNone]
  end.




(** [get_raw_label(resource)]: the name without its first 'desc-' tag. *)
Definition get_raw_label (resource : string) : string :=
  match List.find (Str.contains "desc-") (Str.split "_"%char resource) with
  | Some tag => Str.remove (tag +:+ "_") resource
  | None => resource
  end.

(** [check_output(outputs, label, name)] *)
Definition check_output (outs : outputs_decl) (label : string) : result unit :=
  let declared := match outs with
                  | OutNames names => existsb (String.eqb label) names
                  | OutDict d => dmem label d
                  end in
  if declared then Ok tt else Raise BadOutputName.

(** [' '.join(s.split())]: runs of white space become one blank, those at
    the ends go. *)
Definition is_space (c : ascii) : bool :=
  let n := N_of_ascii c in
  ((9 <=? n) && (n <=? 13) || (28 <=? n) && (n <=? 32) || (n =? 133) || (n =? 160))%N.

Fixpoint words_go (cur : string) (s : string) : list string :=
  match s with
  | EmptyString => match cur with EmptyString => [] | _ => [Literal.rev_onto cur EmptyString] end
  | String c s' =>
      if is_space c
      then match cur with
           | EmptyString => words_go EmptyString s'
           | _ => Literal.rev_onto cur EmptyString :: words_go EmptyString s'
           end
      else words_go (String c cur) s'
  end.

Definition squeeze (s : string) : string := Str.join " " (words_go EmptyString s).

(** [del d[k]] inside [try ... except KeyError: pass]. *)
Definition discard {V} (k : string) (d : pydict V) : pydict V := ddel k d.

(** [info['subjson'][k]] as a dict. *)
Definition subjson_item (info : jdict) (k : string) : result (option jdict) :=
  match dget "subjson" info with
  | Some (JDict sub) =>
      match dget k sub with
      | Some (JDict d) => Ok (Some d)
      | Some _ => Raise IllTyped
      | None => Ok None
      end
  | Some _ => Raise IllTyped
  | None => Raise KeyError
  end.

(** The fixed metadata of an output of a dict of outputs is merged in. *)
Definition merge_fixed (fixed : jdict) (info : jdict) : result jdict :=
  let info := dupdate info fixed in
  let info := if dmem "Description" fixed then info else discard "Description" info in
  match dget "Template" fixed with
  | None => Ok info
  | Some (JStr template_key) =>
      rbind (match dget "Sources" info with
             | Some (JStrs l) => Ok (existsb (String.eqb template_key) l)
             | Some _ => Raise IllTyped
             | None => Raise KeyError
             end) (fun is_source =>
      rbind (match dget "subjson" info with
             | Some (JDict sub) =>
                 match dget template_key sub with
                 | Some (JDict d) => Ok d
                 | Some _ => Raise IllTyped
                 | None => Ok []
                 end
             | Some _ => Raise IllTyped
             | None => Ok []
             end) (fun tpl =>
      let info := if is_source
                  then match dget "Description" tpl with
                       | Some v => dset "Template" v info
                       | None => info
                       end
                  else info in
      Ok (match dget "Resolution" tpl with
          | Some v => dset "Resolution" v info
          | None => info
          end)))
  | Some _ => Raise IllTyped
  end.

(** The metadata of an output before the fork tag: the merged metadata of
    the inputs, the sources, the fixed metadata of the output. *)
Definition describe (outs : outputs_decl) (label : string) (sources : list string)
  (strat_json : jdict) : result jdict :=
  let new_json_info := strat_json in                     (* copy.deepcopy *)
  let data_type := data_type_of label in
  rbind (subjson_item new_json_info data_type) (fun typed =>
  let new_json_info :=
    match typed ≫= dget "SkullStripped" with
    | Some v => dset "SkullStripped" v new_json_info
    | None => new_json_info
    end in
  let new_json_info := dset "Sources" (JStrs sources) new_json_info in
  rbind (match outs with
         | OutDict d =>
             match dget label d with
             | Some fixed => merge_fixed fixed new_json_info
             | None => Raise KeyError
             end
         | OutNames _ => Ok (discard "Description" new_json_info)
         end) (fun new_json_info =>
  rbind (match dget "Description" new_json_info with
         | Some (JStr d) => Ok (dset "Description" (JStr (squeeze d)) new_json_info)
         | Some _ => Raise IllTyped
         | None => Ok new_json_info
         end) (fun new_json_info =>
  Ok (discard "subjson" new_json_info)))).

(** [fork or len(opts) > 1 or len(all_opts) > 1] *)
Definition is_fork (fork : bool) (opts all_opts : list cval) : bool :=
  fork || Nat.ltb 1 (length opts) || Nat.ltb 1 (length all_opts).

(** The fork tag of the stage: under the condition above, [node_name] is
    appended to [new_json_info['CpacVariant'][raw_label]], both created
    when missing. *)
Definition tag_fork (fork : bool) (opts all_opts : list cval)
  (label node_name : string) (new_json_info : jdict) : result jdict :=
  if is_fork fork opts all_opts then
    let new_json_info :=
      if dmem "CpacVariant" new_json_info then new_json_info
      else dset "CpacVariant" (JVariant []) new_json_info in
    let raw_label := get_raw_label label in
    match dget "CpacVariant" new_json_info with
    | Some (JVariant d) =>
        let d := if dmem raw_label d then d else dset raw_label (VList []) d in
        match dget raw_label d with
        | Some (VList tags) =>
            Ok (dset "CpacVariant"
                  (JVariant (dset raw_label (VList (tags ++ [node_name])) d))
                  new_json_info)
        | Some (VTag _) => Raise AttributeError
        | None => Raise KeyError
        end
    | _ => Raise IllTyped
    end
  else Ok new_json_info.

(** [strat_pool.get('json')] *)
Definition strat_json (sp : strat_pool) : M jdict :=
  match dget "json" sp with
  | Some (SPJson l) => deref l
  | Some (SPEntry _) => raise IllTyped
  | None => raise ResourceLookupError
  end.

(** The sources of an output: the resources of the strategy pool that are
    not inputs renamed by the interface of the node block. *)
Definition sources_of (sp : strat_pool) (replaced_inputs : list string) : list string :=
  List.filter (fun x => negb (String.eqb x "json") && negb (mem x replaced_inputs))
    (dkeys sp).

(** The commit of one output: the body of [for label, connection in
    outs.items()] up to [set_data]. *)
Definition commit_output (outs : outputs_decl) (fork : bool) (opts all_opts : list cval)
  (sp : strat_pool) (replaced_inputs : list string) (pipe_idx node_name : string)
  (label : string) (connection : producer) : M loc :=
  lift (check_output outs label) ;;;
  info <- strat_json sp ;;
  info <- lift (describe outs label (sources_of sp replaced_inputs) info) ;;
  info <- lift (tag_fork fork opts all_opts label node_name info) ;;
  new_json_info <- alloc info ;;
  set_data label (fst connection) (snd connection) new_json_info pipe_idx node_name
    fork false ;;;
  ret new_json_info.

(** [rpool.get_pipe_number(pipe_idx)]: [pipe_list.index(pipe_idx)] *)
Fixpoint index_of (x : string) (l : list string) : option nat :=
  match l with
  | [] => None
  | y :: l' => if String.eqb x y then Some 0 else option_map S (index_of x l')
  end.

Definition get_pipe_number (pipe_idx : string) : M nat :=
  pl <- gets pipe_list ;;
  match index_of pipe_idx pl with
  | Some n => ret n
  | None => raise ValueError
  end.



Section ConnectBlock.

(** The body of a node block, by the name of the block: the outputs it
    connects for a strategy pool and an option, [IOError] for a node that
    exists already.  The workflow it extends is not modelled. *)
Variable block_function :
  string -> strat_pool -> nat -> cval -> result (pydict producer).

(** [derivative_xfm] and [post_process] (4.5), called after every
    commit. *)
Variable enrich : string -> producer -> loc -> string -> nat -> M unit.

(** The pipeline configuration. *)
Variable cfg : cval.





End ConnectBlock.


(** ** Well-formed inputs of [get_strats]

    The invariant of the data model on the strategies of an input: the
    lineage keys are distinct, every entry has its metadata in the store,
    the CpacProvenance of the metadata names the resource as its last step
    and has the key of the entry as its string form, and no fork-tag list
    is empty. *)

Definition chain_names (p : list prov) (name key : string) : bool :=
  match generate_prov_string p with
  | inr rk => String.eqb (fst rk) name && String.eqb (snd rk) key
  | inl _ => false
  end.

Definition has_first (kv : string * variant_val) : bool :=
  match first_of (snd kv) with
  | inr _ => true
  | inl _ => false
  end.

Definition variants_ok (info : jdict) : bool :=
  match cpac_variant info with
  | inr None => true
  | inr (Some d) => forallb has_first d
  | inl _ => false
  end.

Definition entry_ok (h : list jdict) (name : string) (ke : string * entry) : bool :=
  match json (snd ke) with
  | Some l =>
      match h !! l with
      | Some info =>
          match cpac_provenance info with
          | inr p => chain_names p name (fst ke) && variants_ok info
          | inl _ => false
          end
      | None => false
      end
  | None => false
  end.

Fixpoint nodup_keys (keys : list string) : bool :=
  match keys with
  | [] => true
  | k :: rest => negb (mem k rest) && nodup_keys rest
  end.

(** The input is present and its strategies are well formed. *)
Definition input_ok (s : state) (r : rspec) : bool :=
  match fetch (rpool s) r with
  | inr (Some (L, name)) =>
      nodup_keys (dkeys L) && forallb (entry_ok (heap s) name) L
  | _ => false
  end.

(** The chain of an entry, read from its metadata. *)
Definition chain_of (h : list jdict) (ke : string * entry) : list prov :=
  match json (snd ke) ≫= (fun l => h !! l) with
  | Some info =>
      match cpac_provenance info with
      | inr p => p
      | inl _ => []
      end
  | None => []
  end.

(** The lineage set of an input: the strategies of the resource it is
    fetched by. *)
Definition lineages (s : state) (r : rspec) : strats :=
  match fetch (rpool s) r with
  | inr (Some (L, _)) => L
  | _ => []
  end.

(** ** Fork tags of a metadata dictionary *)

(** [T] is the first fork tag of an item of the CpacVariant of [info]. *)
Definition first_tag (info : jdict) (T : string) : Prop :=
  exists d label rest,
    cpac_variant info = Ok (Some d) /\ In (label, VList (T :: rest)) d.

(** [info] carries the fork tag [T] in its CpacVariant. *)
Definition carries (info : jdict) (T : string) : Prop :=
  exists d label val,
    cpac_variant info = Ok (Some d) /\ In (label, val) d /\
    match val with
    | VList tags => In T tags
    | VTag t => t = T
    end.

(** ** What [get_strats] works with, as functions of its arguments *)

(** [linked_resources]: the linked groups with two present labels or more. *)
Definition linked_groups (s : state) (resources : list input) : list (list string) :=
  match collect_inputs (rpool s) resources with
  | inr rl => snd rl
  | inl _ => []
  end.

(** [total_pool] and [variant_pool]. *)
Definition gathered (s : state) (resources : list input)
  : list (list (list prov)) * pydict (list string) :=
  match collect_inputs (rpool s) resources with
  | inr rl =>
      match gather (heap s) (rpool s) (fst rl) [] with
      | inr tv => tv
      | inl _ => ([], [])
      end
  | inl _ => ([], [])
  end.

(** The candidate combinations: one chain per present input. *)
Definition candidates (s : state) (resources : list input) : list (list (list prov)) :=
  product (fst (gathered s resources)).

(** The variant registry of a label. *)
Definition registry (s : state) (resources : list input) (label : string)
  : list string :=
  default [] (dget label (snd (gathered s resources))).

(** The metadata [get_strats] examines for [label] in a combination:
    [json_dct[label]]. *)
Definition chosen_metadata (s : state) (strat_list : list (list prov))
  (label : string) : option jdict :=
  match json_dct_of (rpool s) strat_list [] with
  | inr json_dct =>
      match linked_json (heap s) json_dct label with
      | inr info => Some info
      | inl _ => None
      end
  | inl _ => None
  end.

(** The entries of a resource once [reserve] has run for [key], and once
    [store] has. *)
Definition reserved (key : string) (entries : strats) : strats :=
  if dmem key entries then entries else dset key empty_entry entries.

Definition stored (key node output : string) (json_info : loc) (entries : strats)
  : strats :=
  dset key {| data := Some (node, output); json := Some json_info |} entries.

(** The entries of a resource once [store] has run on [entries]. *)
Definition committed (key node output : string) (json_info : loc) (entries : strats)
  : strats :=
  stored key node output json_info
    (dset key {| data := Some (node, output);
                 json := json (default empty_entry (dget key entries)) |} entries).

(** ** Notions used in the proofs *)

(** The quote characters of a string literal. *)
Definition is_quote (q : ascii) : Prop := q = Repr.squote \/ q = Repr.dquote.

(** [m] leaves the component [proj] of the state as it was, whether it
    returns or raises. *)
Definition preserves {X A} (proj : state -> X) (m : M A) : Prop :=
  forall s, proj (snd (m s)) = proj s.

(** A computation that never raises [e]. *)
Definition never {A} (e : exn) (m : M A) : Prop :=
  forall s, fst (m s) <> Raise e.

(** The pools [gather] builds for inputs that are absent or well formed. *)
Definition pools_of (s : state) (specs : list rspec) : list (list (list prov)) :=
  flat_map (fun r => match fetch (rpool s) r with
                     | inr (Some (L, _)) => [map (chain_of (heap s)) L]
                     | _ => []
                     end) specs.

Definition absent (s : state) (r : rspec) : bool :=
  match fetch (rpool s) r with
  | inr None => true
  | _ => false
  end.



(** [h'] has the objects of [h], unchanged. *)
Definition extends (h h' : list jdict) : Prop :=
  forall l d, h !! l = Some d -> h' !! l = Some d.

(** ** Further methods of the pool *)

(** [check_rpool(resource)]: one of the names is a key of the pool. *)
Definition check_rpool (rp : pydict strats) (resource : rspec) : bool :=
  let resource := match resource with
                  | Name r => [r]
                  | Alts l => l
                  end in
  existsb (fun name => dmem name rp) resource.

(** What [get_data] reads under ['data']: the producer of an entry, or,
    when [get] handed back the dict of strategies, the value under the
    lineage key ['data'], which is an entry. *)
Inductive datum : Type :=
| DProducer (p : producer)
| DEntry (e : entry).

(** [connect['data']] *)
Definition data_item (connect : fetched) : result datum :=
  match connect with
  | FEntry e =>
      match data e with
      | Some p => Ok (DProducer p)
      | None => Raise KeyError
      end
  | FStrats d =>
      match dget "data" d with
      | Some e => Ok (DEntry e)
      | None => Raise KeyError
      end
  | FNone => Raise TypeError
  end.

(** The return value of [get_data]: the datum, or with [report_fetched]
    the pair of it and the name it was found under. *)
Inductive data_reply : Type :=
| DPlain (d : datum)
| DReported (d : datum) (label : option string).

(** [connect, fetched = self.get(..., report_fetched=True)] *)
Definition unpack (g : got) : result (fetched * option string) :=
  match g with
  | Reported connect label => Ok (connect, label)
  | Plain _ => Raise TypeError
  end.

(** The value of a call of [get] without [report_fetched]. *)
Definition plain (g : got) : result fetched :=
  match g with
  | Plain f => Ok f
  | Reported _ _ => Raise TypeError
  end.

(** [len(x)] for what [get] hands back. *)
Definition fetched_len (f : fetched) : result nat :=
  match f with
  | FStrats d => Ok (length d)
  | FEntry e => Ok (match data e with Some _ => 1 | None => 0 end
                    + match json e with Some _ => 1 | None => 0 end)
  | FNone => Raise TypeError
  end.

(** [for key, val in x.items(): return val['data']]: the datum of the
    first item; [None] when there is no item and the loop is left. *)
Definition first_data (f : fetched) : result (option datum) :=
  match f with
  | FStrats [] => Ok None
  | FStrats ((_, val) :: _) => rbind (data_item (FEntry val)) (fun d => Ok (Some d))
  | FEntry _ => Raise TypeError
  | FNone => Raise AttributeError
  end.

(** [get_data(resource, pipe_idx=None, report_fetched=False,
    quick_single=False)] on the main pool. *)
Definition get_data (rp : pydict strats) (resource : rspec) (pipe_idx : option string)
  (report_fetched quick_single : bool) : result data_reply :=
  let last_resort :=
    rbind (get rp resource None false false) (fun g =>
    rbind (plain g) (fun f =>
    rbind (data_item f) (fun d => Ok (DPlain d)))) in
  if report_fetched then
    match truthy pipe_idx with
    | Some k =>
        rbind (get rp resource (Some k) true false) (fun g =>
        rbind (unpack g) (fun cf =>
        rbind (data_item (fst cf)) (fun d => Ok (DReported d (snd cf)))))
    | None =>
        rbind (get rp resource None true false) (fun g =>
        rbind (unpack g) (fun cf =>
        rbind (data_item (fst cf)) (fun d => Ok (DReported d (snd cf)))))
    end
  else
    match truthy pipe_idx with
    | Some k =>
        rbind (get rp resource (Some k) false false) (fun g =>
        rbind (plain g) (fun f =>
        rbind (data_item f) (fun d => Ok (DPlain d))))
    | None =>
        rbind (if quick_single then Ok true
               else rbind (get rp resource None false false) (fun g =>
                    rbind (plain g) (fun f =>
                    rbind (fetched_len f) (fun n => Ok (Nat.eqb n 1))))) (fun single =>
        if single : bool then
          rbind (get rp resource None false false) (fun g =>
          rbind (plain g) (fun f =>
          rbind (first_data f) (fun d =>
          match d with
          | Some d => Ok (DPlain d)
          | None => last_resort
          end)))
        else last_resort)
    end.

(** [get_pipe_idxs(resource)] *)
Definition get_pipe_idxs (rp : pydict strats) (resource : string) : result (list string) :=
  match dget resource rp with
  | Some d => Ok (dkeys d)
  | None => Raise KeyError
  end.

(** [get_cpac_provenance(resource, strat)] *)
Definition get_cpac_provenance (h : list jdict) (rp : pydict strats)
  (resource strat : string) : result (list prov) :=
  rbind (get_json rp resource strat) (fun j =>
  rbind (json_items h j) (fun json_data =>
  cpac_provenance json_data)).

(** [entry[-1].split(':')[0]] for a nested chain [entry]. *)
Definition last_resource (entry : list prov) : result string :=
  match last entry with
  | None => Raise IndexError
  | Some (PStr s) => Ok (Str.split_hd colon s)
  | Some (PList _) => Raise AttributeError
  end.

(** The loop of [get_resource_strats_from_prov] over the items of a
    chain. *)
Fixpoint strats_from_entries (l : list prov) (resource_strat_dct : pydict prov)
  : result (pydict prov) :=
  match l with
  | [] => Ok resource_strat_dct
  | PList entry :: rest =>
      rbind (last_resource entry) (fun resource =>
      strats_from_entries rest (dset resource (PList entry) resource_strat_dct))
  | PStr entry :: rest =>
      strats_from_entries rest
        (dset (Str.split_hd colon entry) (PStr entry) resource_strat_dct)
  end.

(** [get_resource_strats_from_prov(prov)]: the resources that led to an
    output, each with its step or its nested chain. *)
Definition get_resource_strats_from_prov (p : prov) : result (pydict prov) :=
  match p with
  | PStr s => Ok [(Str.split_hd colon s, PStr s)]
  | PList l => strats_from_entries l []
  end.

(** [flatten_prov(prov)] *)
Fixpoint flatten_prov (p : prov) : list string :=
  match p with
  | PStr s => [s]
  | PList l =>
      (fix entries (l : list prov) : list string :=
         match l with
         | [] => []
         | (PList _ as entry) :: rest => flatten_prov entry ++ entries rest
         | PStr entry :: rest => entry :: entries rest
         end) l
  end.

(** The loop of [flatten_prov] over the items of a list. *)
Fixpoint flatten_entries (l : list prov) : list string :=
  match l with
  | [] => []
  | (PList _ as entry) :: rest => flatten_prov entry ++ flatten_entries rest
  | PStr entry :: rest => entry :: flatten_entries rest
  end.

(** A nested item of a chain that [get_resource_strats_from_prov] can
    name: its last item is a string. *)
Definition nameable (entry : prov) : bool :=
  match entry with
  | PStr _ => true
  | PList l => match last l with
               | Some (PStr _) => true
               | _ => false
               end
  end.

(** The pool is keyed by lineage: the key of every entry that has
    metadata is the string form of the CpacProvenance held there. *)
Definition keyed_by_lineage (s : state) : Prop :=
  forall r L k e l,
    dget r (rpool s) = Some L -> dget k L = Some e -> json e = Some l ->
    exists info p,
      heap s !! l = Some info /\ cpac_provenance info = Ok p /\ k = py_str p.

(** An input of [get_strats] none of whose labels is in the pool with a
    strategy. *)
Definition input_absent (s : state) (i : input) : bool :=
  match i with
  | Single r => absent s r
  | Linked labels => forallb (absent s) labels
  end.

(** [m] takes every state to one related to it by [R], whether it returns
    or raises. *)
Definition keeps {A} (R : state -> state -> Prop) (m : M A) : Prop :=
  forall s, R s (snd (m s)).

(** [pipe_list] has grown at its end. *)
Definition grown (s s' : state) : Prop :=
  exists added, pipe_list s' = pipe_list s ++ added.

(** [rtable] holds the tag of [tv] for the type [ty], and not with the
    value of [tv]. *)
Definition tag_clash (rt : pydict (pydict (pydict (list string)))) (ty : string)
  (tv : string * string) : bool :=
  match dget ty rt ≫= dget (fst tv) with
  | Some vals => negb (dmem (snd tv) vals)
  | None => false
  end.

(** What a strategy pool [sp] holds for the combination [t] of chains:
    for every chain an item under the resource it names; every item that
    is an entry is the entry of the pool that a chain of [t] names; and
    the only reference to metadata is the one under 'json', to the merged
    metadata, whose CpacProvenance is the combination. *)
Definition holds (rp : pydict strats) (h : list jdict) (t : list (list prov))
  (sp : strat_pool) : Prop :=
  (forall p, In p t ->
             exists name k, generate_prov_string p = Ok (name, k) /\
                            dmem name sp = true) /\
  (forall x v, dget x sp = Some v ->
     match v with
     | SPJson l =>
         x = "json" /\
         exists m, h !! l = Some m /\ cpac_provenance m = Ok (map PList t)
     | SPEntry e =>
         exists p k, In p t /\ generate_prov_string p = Ok (x, k) /\
                     dget x rp ≫= dget k = Some e
     end) /\
  dmem "json" sp = true.

(** The metadata object at [l] has a 'subjson' field. *)
Definition has_subjson (h : list jdict) (l : loc) : Prop :=
  exists info, h !! l = Some info /\ dmem "subjson" info = true.

(** ** Node blocks with an input interface: [NodeBlock.__init__]

    A node block function given as a pair comes with an input interface:
    pairs [(old, new)] that make the block read the resource [new] (a
    name or a list of alternatives) where its docstring declares the
    input [old].  [__init__] rewrites the declared inputs for it. *)

(** [x == y] for lists, given [==] on the items. *)
Fixpoint list_eqb {A} (eqb : A -> A -> bool) (l1 l2 : list A) : bool :=
  match l1, l2 with
  | [], [] => true
  | x :: l1', y :: l2' => eqb x y && list_eqb eqb l1' l2'
  | _, _ => false
  end.

(** [x == y] for labels: a string is never equal to a list. *)
Definition rspec_eqb (a b : rspec) : bool :=
  match a, b with
  | Name x, Name y => String.eqb x y
  | Alts x, Alts y => list_eqb String.eqb x y
  | _, _ => false
  end.

(** [x == y] for declared inputs: a tuple is equal to a tuple only. *)
Definition input_eqb (a b : input) : bool :=
  match a, b with
  | Single x, Single y => rspec_eqb x y
  | Linked x, Linked y => list_eqb rspec_eqb x y
  | _, _ => false
  end.

(** [l.remove(x)]: the first item equal to [x] goes.  Where [__init__]
    calls it, [x] is an item of [l]. *)
Fixpoint remove_first {A} (eqb : A -> A -> bool) (x : A) (l : list A) : list A :=
  match l with
  | [] => []
  | y :: l' => if eqb y x then l' else y :: remove_first eqb x l'
  end.

(** The body of [for orig_input in init_dct['inputs']] for one pair of
    the interface. *)
Definition rewire_input (interface : string * rspec) (orig_input : input)
  (inputs : list input) : list input :=
  let '(old, new) := interface in
  match orig_input with
  | Linked list_tup =>
      if existsb (rspec_eqb (Name old)) list_tup
      then remove_first input_eqb orig_input inputs
             ++ [Linked (remove_first rspec_eqb (Name old) list_tup ++ [new])]
      else inputs
  | Single r =>
      if rspec_eqb r (Name old)
      then remove_first input_eqb (Single (Name old)) inputs ++ [Single new]
      else inputs
  end.

(** [for orig_input in init_dct['inputs']: ...], whose body changes the
    list it runs over.  The iterator of a list is an index into it: it
    hands out the item at the index and moves on, and stops when the index
    is no longer in the list.  The body keeps the length of the list, so
    at index [i] there are [n] steps left when [n + i] is that length. *)
Fixpoint rewire_from (n i : nat) (interface : string * rspec) (inputs : list input)
  : list input :=
  match n with
  | 0 => inputs
  | S n' =>
      match inputs !! i with
      | Some orig_input =>
          rewire_from n' (S i) interface (rewire_input interface orig_input inputs)
      | None => inputs
      end
  end.

Definition rewire (interface : string * rspec) (inputs : list input) : list input :=
  rewire_from (length inputs) 0 interface inputs.

(** [for interface in self.input_interface: ...] *)
Definition apply_interface (input_interface : list (string * rspec))
  (inputs : list input) : list input :=
  fold_left (fun inputs interface => rewire interface inputs) input_interface inputs.

(** The declared input [x] is one the pair [(old, new)] rewrites. *)
Definition rewired (old : string) (x : input) : bool :=
  match x with
  | Linked list_tup => existsb (rspec_eqb (Name old)) list_tup
  | Single r => rspec_eqb r (Name old)
  end.

(** The number of strings and lists in a provenance value, the measure by
    which a chain is larger than the chains it has as items. *)
Fixpoint prov_size (p : prov) : nat :=
  match p with
  | PStr _ => 1
  | PList l => S (list_sum (map prov_size l))
  end.

(* ================================================================== *)
(** * Properties *)

Example repr_example :
  py_str [PStr "T1w:anat_ingress"; PList [PStr "a:b"; PStr "c:d"]; PList []]
  = "['T1w:anat_ingress', ['a:b', 'c:d'], []]".
Proof. reflexivity. Qed.

(** ** Strings: append *)

Lemma sapp_assoc (a b c : string) : (a +:+ b) +:+ c = a +:+ (b +:+ c).
Proof. induction a as [|x a IH]; simpl; [reflexivity | now rewrite IH]. Qed.

Lemma sapp_nil_r (a : string) : a +:+ EmptyString = a.
Proof. induction a as [|x a IH]; simpl; [reflexivity | now rewrite IH]. Qed.

(** ** Induction on nested provenance chains *)

Lemma prov_ind (P : prov -> Prop)
  (HS : forall s, P (PStr s))
  (HL : forall l, Forall P l -> P (PList l)) :
  forall p, P p.
Proof.
  fix IH 1. intros [s|l].
  - apply HS.
  - apply HL. induction l as [|x l IHl]; constructor; [apply IH | exact IHl].
Qed.

Lemma repr_PList l : Repr.repr (PList l) = "[" +:+ Repr.repr_items l +:+ "]".
Proof.
  reflexivity.
Qed.

(** ** The codec round trip *)

Section RoundTrip.
Import Literal.

Lemma quote_of_is_quote s : is_quote (Repr.quote_of s).
Proof. unfold Repr.quote_of, is_quote. destruct (_ && _); auto. Qed.

(** One character of a string literal is read back as itself. *)
Lemma run_repr_char q c acc frames rest :
  is_quote q ->
  run (InStr q acc) frames (Repr.repr_char q c +:+ rest)
  = run (InStr q (String c acc)) frames rest.
Proof.
  intros [-> | ->];
    destruct c as [[] [] [] [] [] [] [] []]; reflexivity.
Qed.

Lemma rev_onto_app s a b : rev_onto (rev_onto s a) b = rev_onto a (s +:+ b).
Proof.
  revert a b. induction s as [|c s IH]; intros a b; simpl; [reflexivity|].
  now rewrite IH.
Qed.

Lemma run_repr_chars q s acc frames rest :
  is_quote q ->
  run (InStr q acc) frames (Repr.repr_chars q s +:+ String q rest)
  = run (After (PStr (rev_onto (rev_onto s acc) EmptyString))) frames rest.
Proof.
  intros Hq. revert acc. induction s as [|c s IH]; intros acc.
  - simpl. now rewrite Ascii.eqb_refl.
  - change (Repr.repr_chars q (String c s))
      with (Repr.repr_char q c +:+ Repr.repr_chars q s).
    rewrite sapp_assoc, run_repr_char by assumption. apply IH.
Qed.

Lemma run_repr_str s frames rest :
  run Start frames (Repr.repr_str s +:+ rest) = run (After (PStr s)) frames rest.
Proof.
  unfold Repr.repr_str.
  pose proof (quote_of_is_quote s) as Hq.
  set (q := Repr.quote_of s) in *.
  transitivity (run (InStr q EmptyString) frames
                  (Repr.repr_chars q s +:+ String q rest)).
  - change (String q (Repr.repr_chars q s +:+ String q EmptyString) +:+ rest)
      with (String q ((Repr.repr_chars q s +:+ String q EmptyString) +:+ rest)).
    rewrite sapp_assoc. simpl (String q EmptyString +:+ rest).
    destruct Hq as [-> | ->]; reflexivity.
  - rewrite run_repr_chars by assumption.
    now rewrite rev_onto_app; simpl; rewrite sapp_nil_r.
Qed.

(** The items of an open list, up to its closing bracket. *)
Lemma run_repr_items l :
  Forall (fun v => forall frames rest,
              run Start frames (Repr.repr v +:+ rest) = run (After v) frames rest) l ->
  forall f frames rest,
    run Start (f :: frames) (Repr.repr_items l +:+ String "]" rest)
    = run (After (PList (rev f ++ l))) frames rest.
Proof.
  induction 1 as [|x l Hx Hl IH]; intros f frames rest.
  - simpl. now rewrite app_nil_r.
  - destruct l as [|y l].
    + simpl. rewrite Hx. reflexivity.
    + change (Repr.repr_items (x :: y :: l))
        with (Repr.repr x +:+ ", " +:+ Repr.repr_items (y :: l)).
      rewrite !sapp_assoc, Hx.
      change (run (After x) (f :: frames)
                (", " +:+ Repr.repr_items (y :: l) +:+ String "]" rest))
        with (run Start ((x :: f) :: frames)
                (Repr.repr_items (y :: l) +:+ String "]" rest)).
      rewrite IH. simpl rev. now rewrite <- app_assoc.
Qed.

Lemma run_repr v : forall frames rest,
  run Start frames (Repr.repr v +:+ rest) = run (After v) frames rest.
Proof.
  induction v as [s|l IH] using prov_ind; intros frames rest.
  - apply run_repr_str.
  - rewrite repr_PList, !sapp_assoc.
    change (run Start frames ("[" +:+ Repr.repr_items l +:+ "]" +:+ rest))
      with (run Start ([] :: frames) (Repr.repr_items l +:+ String "]" rest)).
    now rewrite run_repr_items.
Qed.

Lemma literal_eval_repr v : literal_eval (Repr.repr v) = Ok v.
Proof.
  unfold literal_eval. rewrite <- (sapp_nil_r (Repr.repr v)).
  now rewrite run_repr.
Qed.

End RoundTrip.

(** C5. Lineage round trip: for every lineage chain [c] that has a last
    step (so that [generate_prov_string] encodes it), decoding the encoded
    key gives the chain back:
    [generate_prov_list(generate_prov_string(c)[1]) == c]. *)
Theorem C5_lineage_round_trip (c : list prov) :
  (exists e, get_last_prov_entry c = Ok e) ->
  exists res key,
    generate_prov_string c = Ok (res, key) /\
    generate_prov_list key = Ok (PList c).
Proof.
  intros [e He]. unfold generate_prov_string. rewrite He. simpl.
  eexists _, _. split; [reflexivity|].
  apply literal_eval_repr.
Qed.

Lemma C5_lineage_round_trip_witness :
  exists res key,
    generate_prov_string
      [PStr "T1w:anat_ingress"; PList [PStr "mask:afni"; PStr "a:b"];
       PStr "desc-preproc_T1w:anatomical_init"] = Ok (res, key) /\
    generate_prov_list key
    = Ok (PList [PStr "T1w:anat_ingress"; PList [PStr "mask:afni"; PStr "a:b"];
                 PStr "desc-preproc_T1w:anatomical_init"]).
Proof.
  apply C5_lineage_round_trip.
  exists "desc-preproc_T1w:anatomical_init". reflexivity.
Defined.

(** ** Dictionaries *)

Section PyDictFacts.
Context {V : Type}.
Implicit Types (d : pydict V) (k : string) (v : V).

Lemma dget_dset_eq k v d : dget k (dset k v d) = Some v.
Proof.
  induction d as [|[k' v'] d IH]; simpl.
  - now rewrite String.eqb_refl.
  - destruct (String.eqb k k') eqn:E; simpl; rewrite ?String.eqb_refl, ?E; auto.
Qed.

Lemma dget_dset_ne k k' v d : k <> k' -> dget k' (dset k v d) = dget k' d.
Proof.
  intros Hne. induction d as [|[k2 v2] d IH]; simpl.
  - destruct (String.eqb k' k) eqn:E; [|reflexivity].
    apply String.eqb_eq in E. congruence.
  - destruct (String.eqb k k2) eqn:E; simpl.
    + apply String.eqb_eq in E. subst k2.
      destruct (String.eqb k' k) eqn:E'; [|reflexivity].
      apply String.eqb_eq in E'. congruence.
    + now rewrite IH.
Qed.

Lemma dget_ddel_ne k k' d : k <> k' -> dget k' (ddel k d) = dget k' d.
Proof.
  intros Hne. induction d as [|[k2 v2] d IH]; [reflexivity|]. simpl.
  destruct (String.eqb k k2) eqn:E; simpl.
  - apply String.eqb_eq in E. subst k2.
    destruct (String.eqb k' k) eqn:E'; [|exact IH].
    apply String.eqb_eq in E'. congruence.
  - now rewrite IH.
Qed.

Lemma dget_ddel_eq k d : dget k (ddel k d) = None.
Proof.
  induction d as [|[k2 v2] d IH]; [reflexivity|]. simpl.
  destruct (String.eqb k k2) eqn:E; simpl; [exact IH|].
  now rewrite E.
Qed.

Lemma dmem_true k d : dmem k d = true <-> k ∈ dkeys d.
Proof.
  unfold dmem, dkeys. induction d as [|[k2 v2] d IH]; simpl.
  - split; [discriminate | intros H; inversion H].
  - destruct (String.eqb k k2) eqn:E.
    + apply String.eqb_eq in E. subst. split; [constructor | reflexivity].
    + rewrite IH. apply String.eqb_neq in E. split.
      * now constructor.
      * intros H. inversion H; subst; [congruence | assumption].
Qed.

Lemma dmem_false k d : dmem k d = false <-> k ∉ dkeys d.
Proof.
  rewrite <- dmem_true. destruct (dmem k d); split; congruence.
Qed.

Lemma dget_None k d : dget k d = None <-> k ∉ dkeys d.
Proof.
  rewrite <- dmem_false. unfold dmem. destruct (dget k d); split; congruence.
Qed.

Lemma dkeys_dset_mem k v d : dmem k d = true -> dkeys (dset k v d) = dkeys d.
Proof.
  unfold dmem, dkeys. induction d as [|[k2 v2] d IH]; simpl; [discriminate|].
  destruct (String.eqb k k2) eqn:E; simpl.
  - apply String.eqb_eq in E. now subst.
  - intros H. now rewrite IH.
Qed.

Lemma dkeys_dset_new k v d : dmem k d = false -> dkeys (dset k v d) = dkeys d ++ [k].
Proof.
  unfold dmem, dkeys. induction d as [|[k2 v2] d IH]; simpl; [reflexivity|].
  destruct (String.eqb k k2) eqn:E; simpl; [discriminate|].
  intros H. now rewrite IH.
Qed.

Lemma dkeys_ddel_sub k x d : x ∈ dkeys (ddel k d) -> x ∈ dkeys d.
Proof.
  unfold dkeys. induction d as [|[k2 v2] d IH]; simpl; [auto|].
  destruct (String.eqb k k2); simpl; intros H.
  - right. auto.
  - inversion H; subst; [left | right; auto].
Qed.

Lemma length_dset_mem k v d : dmem k d = true -> length (dset k v d) = length d.
Proof.
  intros H. rewrite <- !(length_map fst). fold (dkeys (dset k v d)) (dkeys d).
  now rewrite dkeys_dset_mem.
Qed.

Lemma length_ddel k d : length (ddel k d) <= length d.
Proof.
  induction d as [|[k2 v2] d IH]; simpl; [lia|].
  destruct (String.eqb k k2); simpl; lia.
Qed.

Lemma dict_wf_dset k v d : dict_wf d -> dict_wf (dset k v d).
Proof.
  unfold dict_wf. intros H. destruct (dmem k d) eqn:E.
  - now rewrite dkeys_dset_mem.
  - rewrite dkeys_dset_new by assumption.
    apply NoDup_app. split_and!; [assumption | | apply NoDup_singleton].
    intros x Hx Hk. apply list_elem_of_singleton in Hk. subst.
    now apply dmem_false in E.
Qed.

Lemma dict_wf_ddel k d : dict_wf d -> dict_wf (ddel k d).
Proof.
  unfold dict_wf, dkeys. induction d as [|[k2 v2] d IH]; simpl; [auto|].
  intros H. apply NoDup_cons in H as [Hk Hd].
  destruct (String.eqb k k2); [auto|]. simpl.
  apply NoDup_cons. split; [|auto].
  intros Hin. apply Hk. now apply dkeys_ddel_sub in Hin.
Qed.

End PyDictFacts.

(** ** Frame rules of the monad *)

Section Frames.
Context {X : Type} (proj : state -> X).

Lemma preserves_ret {A} (a : A) : preserves proj (ret a).
Proof. intros s. reflexivity. Qed.

Lemma preserves_raise {A} e : preserves proj (@raise A e).
Proof. intros s. reflexivity. Qed.

Lemma preserves_lift {A} (r : result A) : preserves proj (lift r).
Proof. intros s. reflexivity. Qed.

Lemma preserves_gets {A} (f : state -> A) : preserves proj (gets f).
Proof. intros s. reflexivity. Qed.

Lemma preserves_modify f : (forall s, proj (f s) = proj s) -> preserves proj (modify f).
Proof. intros H s. apply H. Qed.

Lemma preserves_bind {A B} (m : M A) (f : A -> M B) :
  preserves proj m -> (forall a, preserves proj (f a)) ->
  preserves proj (bind m f).
Proof.
  intros Hm Hf s. unfold bind. specialize (Hm s).
  destruct (m s) as [[e|a] s']; simpl in *; [assumption|].
  now rewrite Hf.
Qed.

Lemma preserves_for_each {A} (l : list A) body :
  (forall a, preserves proj (body a)) -> preserves proj (for_each l body).
Proof.
  intros H. induction l as [|x l IH]; simpl.
  - apply preserves_ret.
  - apply preserves_bind; auto.
Qed.

End Frames.

Create HintDb frame discriminated.
#[local] Hint Resolve preserves_ret preserves_raise preserves_lift preserves_gets
  preserves_bind preserves_for_each preserves_modify : frame.

Lemma never_bind {A B} e (m : M A) (f : A -> M B) :
  never e m -> (forall a, never e (f a)) -> never e (bind m f).
Proof.
  intros Hm Hf s. unfold bind. specialize (Hm s).
  destruct (m s) as [[e'|a] s']; [|apply Hf].
  simpl in *. congruence.
Qed.

Lemma never_ret {A} e (a : A) : never e (ret a).
Proof. intros s. discriminate. Qed.

Lemma never_gets {A} e (f : state -> A) : never e (gets f).
Proof. intros s. discriminate. Qed.

Lemma never_modify e f : never e (modify f).
Proof. intros s. discriminate. Qed.

Lemma never_lift {A} e (r : result A) : r <> Raise e -> never e (lift r).
Proof. intros H s. exact H. Qed.

Lemma never_raise {A} e e' : e' <> e -> never e (@raise A e').
Proof. intros H s. simpl. congruence. Qed.

Lemma never_for_each {A} e (l : list A) body :
  (forall a, never e (body a)) -> never e (for_each l body).
Proof.
  intros H. induction l as [|x l IH]; simpl.
  - apply never_ret.
  - apply never_bind; auto.
Qed.

Lemma rbind_never {A B} e (r : result A) (f : A -> result B) :
  r <> Raise e -> (forall a, f a <> Raise e) -> rbind r f <> Raise e.
Proof.
  intros Hr Hf. destruct r as [e'|a]; simpl; [|apply Hf].
  congruence.
Qed.

(** ** The last step of a chain *)

Lemma last_entry_error p e : last_entry p = Raise e -> e = IndexError.
Proof.
  induction p as [s|l IH] using prov_ind; simpl; [discriminate|].
  induction IH as [|x l Hx Hl IHl]; [congruence|].
  destruct l as [|y l]; [exact Hx | exact IHl].
Qed.

Lemma get_last_prov_entry_app l s :
  get_last_prov_entry (l ++ [PStr s]) = Ok s.
Proof.
  unfold get_last_prov_entry. simpl.
  induction l as [|x l IH]; [reflexivity|].
  simpl. destruct (l ++ [PStr s]) eqn:E; [|exact IH].
  now destruct l.
Qed.

Lemma generate_prov_string_error p e :
  generate_prov_string p = Raise e -> e = IndexError.
Proof.
  unfold generate_prov_string. intros H.
  destruct (get_last_prov_entry p) as [e'|x] eqn:E; simpl in H; [|discriminate].
  apply last_entry_error in E. inversion H. congruence.
Qed.

Lemma generate_prov_string_key p r k :
  generate_prov_string p = Ok (r, k) -> k = py_str p.
Proof.
  unfold generate_prov_string.
  destruct (get_last_prov_entry p); simpl; [discriminate|].
  intros H. now inversion H.
Qed.

(** ** [set_data], part by part *)

Lemma evict_heap r c k f : preserves heap (evict r c k f).
Proof.
  unfold evict. apply preserves_bind; [auto with frame|]. intros rp.
  destruct (dget r rp) as [entries|]; [destruct f|]; auto with frame.
  apply preserves_bind; [auto with frame|]. intros k'.
  destruct (dmem k' entries); auto with frame.
Qed.

Lemma reserve_heap r k : preserves heap (reserve r k).
Proof.
  unfold reserve. apply preserves_bind; [auto with frame|]. intros rp.
  apply preserves_bind.
  - destruct (dmem _ _); auto with frame.
  - intros _. apply preserves_bind; [auto with frame|]. intros pl.
    destruct (existsb _ _); auto with frame.
Qed.

Lemma register_tag_preserves {X} (proj : state -> X) r ty tv :
  (forall f s, proj (with_rtable f s) = proj s) ->
  preserves proj (register_tag r ty tv).
Proof.
  intros H. unfold register_tag. destruct tv as [tag val].
  apply preserves_bind; [auto with frame|]. intros rt.
  apply preserves_bind; [auto with frame|]. intros _.
  destruct (_ ≫= _); [|auto with frame].
  destruct (existsb _ _); auto with frame.
Qed.

Lemma register_preserves {X} (proj : state -> X) r :
  (forall f s, proj (with_rtable f s) = proj s) ->
  preserves proj (register r).
Proof.
  intros H. unfold register.
  apply preserves_bind; [auto with frame|]. intros [ty dct].
  apply preserves_bind; [auto with frame|]. intros rt.
  apply preserves_bind; [destruct (dmem _ _); auto with frame|]. intros _.
  apply preserves_for_each. intros a. now apply register_tag_preserves.
Qed.

Lemma store_heap r k n o j : preserves heap (store r k n o j).
Proof. unfold store. auto with frame. Qed.

(** The first part of [set_data], in closed form. *)
Lemma copy_info_eq r j nn inject s info p :
  heap s !! j = Some info ->
  prov_of info = Ok p ->
  copy_info r j nn inject s =
    let newp := new_prov r nn inject p in
    match get_last_prov_entry newp with
    | inl _ => (Raise EmptyProvenance, with_heap (fun h => h ++ [info]) s)
    | inr _ =>
        match info with
        | [] => (Ok (S (length (heap s)), p, py_str newp),
                 with_heap (fun h => h ++ [info;
                      [("RawSources", JStrs [r]); ("CpacProvenance", JProv newp)]]) s)
        | _ => (Ok (length (heap s), p, py_str newp),
                with_heap (fun h => h ++ [dset "CpacProvenance" (JProv newp) info]) s)
        end
    end.
Proof.
  intros Hj Hp. unfold copy_info, bind, deref, lift. rewrite Hj.
  cbn beta iota. unfold alloc at 1. cbn beta iota.
  rewrite Hp. cbn beta iota zeta.
  unfold generate_prov_string.
  destruct (get_last_prov_entry (new_prov r nn inject p)) as [e|x] eqn:E.
  - apply last_entry_error in E. subst e. reflexivity.
  - unfold rbind. cbn beta iota. destruct info as [|kv info].
    + unfold alloc, store_item, bind, deref, modify, ret.
      cbn [heap with_heap fst snd].
      rewrite !length_app. cbn [length].
      replace (length (heap s) + 1) with (S (length (heap s))) by lia.
      rewrite <- (app_assoc (heap s) [_] [_]). cbn [app].
      rewrite (lookup_app_r (heap s) [_; _]) by lia.
      replace (S (length (heap s)) - length (heap s)) with 1 by lia.
      cbn [lookup list_lookup]. cbn beta iota.
      unfold with_heap. cbn [heap rpool pipe_list rtable]. do 2 f_equal.
      rewrite <- (app_assoc (heap s) [_] [_]). cbn [app].
      rewrite insert_app_r_alt by lia.
      replace (S (length (heap s)) - length (heap s)) with 1 by lia.
      reflexivity.
    + unfold ret, store_item, bind, deref, modify.
      cbn [heap with_heap fst snd].
      rewrite (lookup_app_r (heap s) [_]) by lia.
      rewrite Nat.sub_diag. cbn [lookup list_lookup]. cbn beta iota.
      unfold with_heap. cbn [heap rpool pipe_list rtable]. do 2 f_equal.
      rewrite insert_app_r_alt by lia.
      rewrite Nat.sub_diag. reflexivity.
Qed.

Lemma insert_entry_heap r n o j k f c key :
  preserves heap (insert_entry r n o j k f c key).
Proof.
  unfold insert_entry.
  apply preserves_bind; [apply evict_heap|]. intros _.
  apply preserves_bind; [apply reserve_heap|]. intros _.
  apply preserves_bind; [now apply register_preserves|]. intros _.
  apply store_heap.
Qed.

(** *** No part but the first raises [EmptyProvenance] *)

Lemma get_resource_from_prov_ok p : get_resource_from_prov p <> Raise EmptyProvenance.
Proof.
  destruct p as [s|l]; simpl.
  - destruct (Str.last_char s); discriminate.
  - destruct (last l) as [[s|l2]|]; try discriminate.
    destruct (last l2) as [[s|l3]|]; discriminate.
Qed.

Lemma generate_prov_string_ok {B} p (f : string * string -> result B) :
  (forall a, f a <> Raise EmptyProvenance) ->
  rbind (generate_prov_string p) f <> Raise EmptyProvenance.
Proof.
  intros Hf. apply rbind_never; [|exact Hf].
  intros H. apply generate_prov_string_error in H. discriminate.
Qed.

Lemma search_prov_ok r c : search_prov r c <> Raise EmptyProvenance.
Proof.
  induction c as [|idx c IH]; simpl; [discriminate|].
  apply rbind_never; [apply get_resource_from_prov_ok|]. intros x.
  destruct (names x r); [|exact IH].
  destruct idx as [s|l]; [discriminate|].
  apply generate_prov_string_ok. discriminate.
Qed.

Lemma replaced_key_ok r c k entries :
  replaced_key r c k entries <> Raise EmptyProvenance.
Proof.
  unfold replaced_key.
  apply rbind_never; [apply get_resource_from_prov_ok|]. intros x.
  apply rbind_never.
  - destruct (names x r); [|discriminate].
    apply generate_prov_string_ok. discriminate.
  - intros [k' [|]]; [|discriminate].
    apply rbind_never; [apply search_prov_ok | discriminate].
Qed.

Lemma bids_tag_dct_ok tags d : bids_tag_dct tags d <> Raise EmptyProvenance.
Proof.
  revert d. induction tags as [|t tags IH]; intros d; simpl; [discriminate|].
  destruct (Str.split "-" t) as [|k [|v ws]]; try discriminate. apply IH.
Qed.

Lemma insert_entry_ok r n o j k f c key :
  never EmptyProvenance (insert_entry r n o j k f c key).
Proof.
  unfold insert_entry. apply never_bind.
  { unfold evict. apply never_bind; [apply never_gets|]. intros rp.
    destruct (dget r rp) as [entries|]; [|apply never_modify].
    destruct f; [apply never_ret|].
    apply never_bind; [apply never_lift, replaced_key_ok|]. intros k'.
    destruct (dmem k' entries); [apply never_modify | apply never_ret]. }
  intros _. apply never_bind.
  { unfold reserve. apply never_bind; [apply never_gets|]. intros rp.
    apply never_bind.
    - destruct (dmem _ _); [apply never_ret | apply never_modify].
    - intros _. apply never_bind; [apply never_gets|]. intros pl.
      destruct (existsb _ _); [apply never_ret | apply never_modify]. }
  intros _. apply never_bind.
  { unfold register. apply never_bind.
    - apply never_lift. unfold parse_bids_tags.
      apply rbind_never; [apply bids_tag_dct_ok | discriminate].
    - intros [ty dct]. apply never_bind; [apply never_gets|]. intros rt.
      apply never_bind.
      + destruct (dmem _ _); [apply never_ret | apply never_modify].
      + intros _. apply never_for_each. intros [tag val]. unfold register_tag.
        apply never_bind; [apply never_gets|]. intros rt'.
        apply never_bind; [apply never_modify|]. intros _.
        destruct (_ ≫= _); [|apply never_raise; discriminate].
        destruct (existsb _ _); [apply never_ret | apply never_modify]. }
  intros _. unfold store. apply never_bind; [apply never_modify|].
  intros _. apply never_modify.
Qed.

(** [set_data] is its first part followed by [insert_entry]. *)
Lemma set_data_eq r n o j k nn f i s :
  set_data r n o j k nn f i s =
    match copy_info r j nn i s with
    | (inl e, s1) => (inl e, s1)
    | (inr (j', c, key), s1) => insert_entry r n o j' k f c key s1
    end.
Proof.
  unfold set_data, bind.
  destruct (copy_info r j nn i s) as [[e|[[j' c] key]] s1]; reflexivity.
Qed.

(** C6 (amended). [set_data] raises [EmptyProvenance] if and only if the
    call is an injection ([inject] true) and the supplied chain has no last
    step: the metadata carries no CpacProvenance entry, or an empty one, or
    one that ends in an empty nested list.  A call that is not an injection
    never raises it, since the step it appends is the last step. *)
Theorem C6_empty_provenance_iff
  (resource node output : string) (json_info : loc) (pipe_idx node_name : string)
  (fork inject : bool) (s : state) (info : jdict) (p : list prov) :
  heap s !! json_info = Some info ->
  prov_of info = Ok p ->
  fst (set_data resource node output json_info pipe_idx node_name fork inject s)
  = Raise EmptyProvenance
  <-> inject = true /\ get_last_prov_entry p = Raise IndexError.
Proof.
  intros Hj Hp. rewrite set_data_eq, (copy_info_eq _ _ _ _ _ _ _ Hj Hp).
  cbv zeta. unfold new_prov. destruct inject.
  - destruct (get_last_prov_entry p) as [e|x] eqn:E.
    + apply last_entry_error in E. subst e. simpl. tauto.
    + split; [|intros [_ H]; discriminate].
      intros H. exfalso. revert H.
      destruct info; apply insert_entry_ok.
  - unfold prov_step. rewrite get_last_prov_entry_app.
    split; [|intros [H _]; discriminate].
    intros H. exfalso. revert H.
    destruct info; apply insert_entry_ok.
Qed.

Lemma C6_empty_provenance_iff_witness :
  fst (set_data "T1w" "anat_ingress_node" "outputspec.data" 0
         EmptyString "anat_ingress" false true
         {| rpool := []; pipe_list := []; rtable := []; heap := [[]] |})
  = Raise EmptyProvenance.
Proof.
  apply (C6_empty_provenance_iff "T1w" "anat_ingress_node" "outputspec.data" 0
           EmptyString "anat_ingress" false true
           {| rpool := []; pipe_list := []; rtable := []; heap := [[]] |} [] []);
    [reflexivity | reflexivity | split; reflexivity].
Defined.

(** C6, as stated, fails: an injection with empty ancestry raises
    [EmptyProvenance], and a call that is not an injection returns although
    the metadata has no CpacProvenance entry. *)
Lemma C6_counterexample :
  fst (set_data "T1w" "anat_ingress_node" "outputspec.data" 0
         EmptyString "anat_ingress" false true
         {| rpool := []; pipe_list := []; rtable := []; heap := [[]] |})
  = Raise EmptyProvenance /\
  fst (set_data "T1w" "anat_ingress_node" "outputspec.data" 0
         EmptyString "anat_ingress" false false
         {| rpool := []; pipe_list := []; rtable := []; heap := [[]] |})
  = Ok tt.
Proof. split; reflexivity. Qed.

(** *** The entries of the resource through [insert_entry] *)

Lemma bind_ok_inv {A B} (m : M A) (f : A -> M B) s b s' :
  bind m f s = (Ok b, s') ->
  exists a s1, m s = (Ok a, s1) /\ f a s1 = (Ok b, s').
Proof.
  unfold bind. destruct (m s) as [[e|a] s1]; [discriminate|]. eauto.
Qed.

Lemma bind_ok {A B} (m : M A) (f : A -> M B) s a s' :
  m s = (Ok a, s') -> bind m f s = f a s'.
Proof. intros H. unfold bind. now rewrite H. Qed.

Lemma entries_of_dset r e s : entries_of r (with_rpool (dset r e) s) = e.
Proof. unfold entries_of. simpl. now rewrite dget_dset_eq. Qed.

Lemma entries_of_update r k f s :
  entries_of r (with_rpool (update_entry r k f) s)
  = dset k (f (default empty_entry (dget k (entries_of r s)))) (entries_of r s).
Proof. unfold entries_of, update_entry. simpl. now rewrite dget_dset_eq. Qed.

Lemma evict_eq r c k f s :
  evict r c k f s =
    match dget r (rpool s) with
    | None => (Ok tt, with_rpool (dset r []) s)
    | Some entries =>
        if f then (Ok tt, s)
        else match replaced_key r c k entries with
             | inl e => (inl e, s)
             | inr k' =>
                 if dmem k' entries
                 then (Ok tt, with_rpool (dset r (ddel k' entries)) s)
                 else (Ok tt, s)
             end
    end.
Proof.
  unfold evict, bind, gets. simpl.
  destruct (dget r (rpool s)) as [entries|]; [|reflexivity].
  destruct f; [reflexivity|]. unfold lift.
  destruct (replaced_key r c k entries) as [e|k']; [reflexivity|].
  destruct (dmem k' entries); reflexivity.
Qed.

Lemma reserve_spec r key s :
  fst (reserve r key s) = Ok tt /\
  entries_of r (snd (reserve r key s)) = reserved key (entries_of r s).
Proof.
  unfold reserve, bind, gets, reserved. simpl.
  fold (entries_of r s).
  destruct (dmem key (entries_of r s)) eqn:E; simpl.
  - destruct (existsb _ _); simpl; auto.
  - destruct (existsb _ _); simpl; split; auto;
      unfold modify; simpl;
      try (change (entries_of r (with_pipe_list ?f ?s)) with (entries_of r s));
      rewrite ?entries_of_update; reflexivity.
Qed.

Lemma register_rpool r : preserves rpool (register r).
Proof. now apply register_preserves. Qed.

Lemma store_spec r key n o j s :
  fst (store r key n o j s) = Ok tt /\
  entries_of r (snd (store r key n o j s))
  = committed key n o j (entries_of r s).
Proof.
  unfold store, bind, modify, committed, stored. simpl. split; [reflexivity|].
  rewrite !entries_of_update, dget_dset_eq. reflexivity.
Qed.

Lemma after_evict r n o j key s :
  let out := (reserve r key ;;; register r ;;; store r key n o j) s in
  (fst out <> Ok tt /\ entries_of r (snd out) = reserved key (entries_of r s)) \/
  (fst out = Ok tt /\
   entries_of r (snd out) = committed key n o j (reserved key (entries_of r s))).
Proof.
  cbv zeta. unfold bind.
  destruct (reserve_spec r key s) as [Hr He].
  destruct (reserve r key s) as [[e|[]] s2]; simpl in Hr, He; [discriminate|].
  pose proof (register_rpool r s2) as Hg.
  destruct (register r s2) as [[e|[]] s3]; simpl in Hg.
  - left. split; [discriminate|]. simpl. unfold entries_of in *. now rewrite Hg.
  - right. destruct (store_spec r key n o j s3) as [Hs1 Hs2].
    split; [assumption|]. rewrite Hs2. unfold entries_of in *. now rewrite Hg, He.
Qed.

(** The outcome of [insert_entry] on the entries of the resource: [E1] is
    what [evict] leaves. *)
Lemma insert_entry_entries r n o j k f c key s :
  let out := insert_entry r n o j k f c key s in
  (f = false /\ fst out <> Ok tt /\ entries_of r (snd out) = entries_of r s) \/
  exists E1,
    (E1 = entries_of r s \/
     f = false /\ exists k', dmem k' (entries_of r s) = true /\
                             E1 = ddel k' (entries_of r s)) /\
    ((fst out <> Ok tt /\ entries_of r (snd out) = reserved key E1) \/
     (fst out = Ok tt /\
      entries_of r (snd out) = committed key n o j (reserved key E1))).
Proof.
  cbv zeta. unfold insert_entry.
  set (tail := (reserve r key ;;; register r ;;; store r key n o j)).
  unfold bind. rewrite evict_eq.
  assert (Hentries : entries_of r s = default [] (dget r (rpool s))) by reflexivity.
  destruct (dget r (rpool s)) as [entries|] eqn:Er; simpl in Hentries;
    rewrite Hentries; clear Hentries.
  - destruct f.
    + right. exists entries. split; [now left|].
      pose proof (after_evict r n o j key s) as H. cbv zeta in H.
      unfold entries_of at 2 4 in H. rewrite Er in H. exact H.
    + destruct (replaced_key r c k entries) as [e|k'].
      * left. simpl. split_and!; [reflexivity | discriminate |].
        unfold entries_of. now rewrite Er.
      * destruct (dmem k' entries) eqn:Ek.
        -- right. exists (ddel k' entries). split; [right; eauto|].
           pose proof (after_evict r n o j key
                         (with_rpool (dset r (ddel k' entries)) s)) as H.
           cbv zeta in H. rewrite entries_of_dset in H. exact H.
        -- right. exists entries. split; [now left|].
           pose proof (after_evict r n o j key s) as H. cbv zeta in H.
           unfold entries_of at 2 4 in H. rewrite Er in H. exact H.
  - right. exists []. split; [now left|].
    pose proof (after_evict r n o j key (with_rpool (dset r []) s)) as H.
    cbv zeta in H. rewrite entries_of_dset in H. exact H.
Qed.

Lemma dget_committed key n o j E :
  dget key (committed key n o j E) = Some {| data := Some (n, o); json := Some j |}.
Proof. unfold committed, stored. apply dget_dset_eq. Qed.

Lemma dget_committed_ne key k0 n o j E :
  key <> k0 -> dget k0 (committed key n o j E) = dget k0 E.
Proof. intros H. unfold committed, stored. now rewrite !dget_dset_ne. Qed.

Lemma dget_reserved_ne key k0 E : key <> k0 -> dget k0 (reserved key E) = dget k0 E.
Proof.
  intros H. unfold reserved. destruct (dmem key E); [reflexivity|].
  now rewrite dget_dset_ne.
Qed.

Lemma copy_info_ill_typed r j nn inject s info e :
  heap s !! j = Some info ->
  prov_of info = Raise e ->
  copy_info r j nn inject s = (Raise e, with_heap (fun h => h ++ [info]) s).
Proof.
  intros Hj Hp. unfold copy_info, bind, deref, lift. rewrite Hj.
  cbn beta iota. unfold alloc at 1. cbn beta iota. now rewrite Hp.
Qed.

(** What [set_data] does to the store and to the entry it fills. *)
Lemma set_data_effect
  (resource node output : string) (json_info : loc) (pipe_idx node_name : string)
  (fork inject : bool) (s : state) (info : jdict) :
  heap s !! json_info = Some info ->
  heap (snd (set_data resource node output json_info pipe_idx node_name
               fork inject s)) !! json_info = Some info /\
  (forall p,
      prov_of info = Ok p ->
      fst (set_data resource node output json_info pipe_idx node_name
             fork inject s) = Ok tt ->
      exists l info',
        l <> json_info /\
        dget (py_str (new_prov resource node_name inject p))
          (entries_of resource
             (snd (set_data resource node output json_info pipe_idx node_name
                     fork inject s)))
        = Some {| data := Some (node, output); json := Some l |} /\
        heap (snd (set_data resource node output json_info pipe_idx node_name
                     fork inject s)) !! l = Some info' /\
        dget "CpacProvenance" info'
        = Some (JProv (new_prov resource node_name inject p)) /\
        (info <> [] ->
         forall k, k <> "CpacProvenance" -> dget k info' = dget k info) /\
        (forall k, k <> "CpacProvenance" -> k <> "RawSources" ->
                   dget k info' = dget k info)).
Proof.
  intros Hj. rewrite set_data_eq.
  pose proof (lookup_lt_Some _ _ _ Hj) as Hlt.
  destruct (prov_of info) as [e|p] eqn:Hp.
  { rewrite (copy_info_ill_typed _ _ _ _ _ _ _ Hj Hp). simpl. split.
    - now apply lookup_app_l_Some.
    - intros p Hp'. discriminate. }
  rewrite (copy_info_eq _ _ _ _ _ _ _ Hj Hp). cbv zeta.
  destruct (get_last_prov_entry (new_prov resource node_name inject p)) as [e|x].
  { simpl. split; [now apply lookup_app_l_Some | discriminate]. }
  set (newp := new_prov resource node_name inject p).
  destruct info as [|kv info].
  - set (s1 := with_heap _ s).
    pose proof (insert_entry_heap resource node output (S (length (heap s)))
                  pipe_idx fork p (py_str newp) s1) as Hh.
    pose proof (insert_entry_entries resource node output (S (length (heap s)))
                  pipe_idx fork p (py_str newp) s1) as He.
    cbv zeta in He.
    destruct (insert_entry _ _ _ _ _ _ _ _ s1) as [res s'].
    cbn [fst snd] in *. rewrite Hh. subst s1. cbn [heap with_heap].
    split; [now apply lookup_app_l_Some|].
    intros p' Hp' Hres. inversion Hp'; subst p'.
    exists (S (length (heap s))), [("RawSources", JStrs [resource]);
                                    ("CpacProvenance", JProv newp)].
    split_and!; [lia | | | reflexivity | congruence | ].
    + destruct He as [(_ & Hne & _) | (E1 & _ & [[Hne _] | [_ ->]])];
        [congruence | congruence | apply dget_committed].
    + rewrite (lookup_app_r (heap s) [_; _]) by lia.
      replace (S (length (heap s)) - length (heap s)) with 1 by lia.
      reflexivity.
    + intros k Hk1 Hk2. cbn [dget].
      apply String.eqb_neq in Hk1, Hk2. now rewrite Hk1, Hk2.
  - set (s1 := with_heap _ s).
    pose proof (insert_entry_heap resource node output (length (heap s))
                  pipe_idx fork p (py_str newp) s1) as Hh.
    pose proof (insert_entry_entries resource node output (length (heap s))
                  pipe_idx fork p (py_str newp) s1) as He.
    cbv zeta in He.
    destruct (insert_entry _ _ _ _ _ _ _ _ s1) as [res s'].
    cbn [fst snd] in *. rewrite Hh. subst s1. cbn [heap with_heap].
    split; [now apply lookup_app_l_Some|].
    intros p' Hp' Hres. inversion Hp'; subst p'.
    exists (length (heap s)), (dset "CpacProvenance" (JProv newp) (kv :: info)).
    split_and!; [lia | | | apply dget_dset_eq | | ].
    + destruct He as [(_ & Hne & _) | (E1 & _ & [[Hne _] | [_ ->]])];
        [congruence | congruence | apply dget_committed].
    + rewrite (lookup_app_r (heap s) [_]) by lia.
      now rewrite Nat.sub_diag.
    + intros _ k Hk. apply dget_dset_ne. congruence.
    + intros k Hk _. apply dget_dset_ne. congruence.
Qed.

(** C10. [set_data] leaves the caller's metadata mapping as it was: the
    object [json_info] refers to has the same items after the call,
    whether the call returns or raises.  When the call returns, the entry
    it stored refers to another object, which holds the new chain under
    'CpacProvenance' and otherwise the items of a non-empty mapping of the
    caller. *)
Theorem C10_caller_metadata_unchanged
  (resource node output : string) (json_info : loc) (pipe_idx node_name : string)
  (fork inject : bool) (s : state) (info : jdict) :
  heap s !! json_info = Some info ->
  heap (snd (set_data resource node output json_info pipe_idx node_name
               fork inject s)) !! json_info = Some info /\
  (forall p,
      prov_of info = Ok p ->
      fst (set_data resource node output json_info pipe_idx node_name
             fork inject s) = Ok tt ->
      exists l info',
        l <> json_info /\
        dget (py_str (new_prov resource node_name inject p))
          (entries_of resource
             (snd (set_data resource node output json_info pipe_idx node_name
                     fork inject s)))
        = Some {| data := Some (node, output); json := Some l |} /\
        heap (snd (set_data resource node output json_info pipe_idx node_name
                     fork inject s)) !! l = Some info' /\
        dget "CpacProvenance" info'
        = Some (JProv (new_prov resource node_name inject p)) /\
        (info <> [] ->
         forall k, k <> "CpacProvenance" -> dget k info' = dget k info)).
Proof.
  intros Hj.
  destruct (set_data_effect resource node output json_info pipe_idx node_name
              fork inject s info Hj) as [Hkeep Hstored].
  split; [exact Hkeep|]. intros p Hp Hok.
  destruct (Hstored p Hp Hok) as (l & info' & H1 & H2 & H3 & H4 & H5 & _).
  exists l, info'. auto.
Qed.

Lemma C10_caller_metadata_unchanged_witness :
  heap (snd (set_data "desc-preproc_T1w" "anat_init" "outputspec.out" 0
               EmptyString "anatomical_init" false false
               {| rpool := []; pipe_list := []; rtable := [];
                  heap := [[("CpacProvenance", JProv [PStr "T1w:anat_ingress"])]] |}))
    !! 0
  = Some [("CpacProvenance", JProv [PStr "T1w:anat_ingress"])].
Proof.
  exact (proj1 (C10_caller_metadata_unchanged
                  "desc-preproc_T1w" "anat_init" "outputspec.out" 0
                  EmptyString "anatomical_init" false false
                  {| rpool := []; pipe_list := []; rtable := [];
                     heap := [[("CpacProvenance", JProv [PStr "T1w:anat_ingress"])]] |}
                  [("CpacProvenance", JProv [PStr "T1w:anat_ingress"])]
                  eq_refl)).
Defined.

(** *** The entries of the resource after a call that returns *)

Lemma dmem_reserved key E : dmem key (reserved key E) = true.
Proof.
  unfold reserved. destruct (dmem key E) eqn:H; [exact H|].
  unfold dmem. now rewrite dget_dset_eq.
Qed.

Lemma dmem_committed key k0 n o j E :
  dmem k0 E = true -> dmem k0 (committed key n o j E) = true.
Proof.
  unfold dmem. destruct (String.eqb_spec key k0) as [->|Hne].
  - now rewrite dget_committed.
  - now rewrite dget_committed_ne.
Qed.

Lemma dmem_reserved_mono key k0 E :
  dmem k0 E = true -> dmem k0 (reserved key E) = true.
Proof.
  unfold dmem. destruct (String.eqb_spec key k0) as [->|Hne].
  - intros _. apply dmem_reserved.
  - now rewrite dget_reserved_ne.
Qed.

Lemma length_reserved key E : length (reserved key E) <= S (length E).
Proof.
  unfold reserved. destruct (dmem key E) eqn:H; [lia|].
  rewrite <- !(length_map fst). fold (dkeys (dset key empty_entry E)) (dkeys E).
  rewrite dkeys_dset_new by assumption. rewrite length_app. simpl. lia.
Qed.

Lemma length_reserved_mem key E : dmem key E = true -> reserved key E = E.
Proof. unfold reserved. now intros ->. Qed.

Lemma length_committed key n o j E :
  dmem key E = true -> length (committed key n o j E) = length E.
Proof.
  intros H. unfold committed, stored.
  rewrite length_dset_mem; [now apply length_dset_mem|].
  unfold dmem. now rewrite dget_dset_eq.
Qed.

Lemma length_ddel_mem {V} k (d : pydict V) :
  dmem k d = true -> length (ddel k d) < length d.
Proof.
  unfold dmem. induction d as [|[k2 v2] d IH]; simpl; [discriminate|].
  destruct (String.eqb k k2); simpl.
  - intros _. pose proof (length_ddel k d). lia.
  - intros H. apply IH in H. lia.
Qed.

Lemma dict_wf_reserved key E : dict_wf E -> dict_wf (reserved key E).
Proof.
  unfold reserved. destruct (dmem key E); [auto|]. apply dict_wf_dset.
Qed.

Lemma dict_wf_committed key n o j E : dict_wf E -> dict_wf (committed key n o j E).
Proof. intros H. unfold committed, stored. now do 2 apply dict_wf_dset. Qed.

(** A call of [set_data] that returns leaves, for the resource, the
    entries [evict] kept, with the new key reserved and filled. *)
Lemma set_data_ok_entries r n o j k nn f i s s' info p :
  heap s !! j = Some info ->
  prov_of info = Ok p ->
  set_data r n o j k nn f i s = (Ok tt, s') ->
  exists E1 l,
    (E1 = entries_of r s \/
     f = false /\ exists k', dmem k' (entries_of r s) = true /\
                             E1 = ddel k' (entries_of r s)) /\
    entries_of r s'
    = committed (py_str (new_prov r nn i p)) n o l
        (reserved (py_str (new_prov r nn i p)) E1).
Proof.
  intros Hj Hp. rewrite set_data_eq, (copy_info_eq _ _ _ _ _ _ _ Hj Hp).
  cbv zeta.
  destruct (get_last_prov_entry (new_prov r nn i p)) as [e|x]; [discriminate|].
  set (key := py_str (new_prov r nn i p)).
  assert (Hgen : forall l s1,
             entries_of r s1 = entries_of r s ->
             insert_entry r n o l k f p key s1 = (Ok tt, s') ->
             exists E1 l0,
               (E1 = entries_of r s \/
                f = false /\ exists k', dmem k' (entries_of r s) = true /\
                                        E1 = ddel k' (entries_of r s)) /\
               entries_of r s' = committed key n o l0 (reserved key E1)).
  { intros l s1 Hs1 Hrun.
    pose proof (insert_entry_entries r n o l k f p key s1) as He.
    cbv zeta in He. rewrite Hrun, Hs1 in He. cbn [fst snd] in He.
    destruct He as [(_ & Hne & _) | (E1 & HE1 & [[Hne _] | [_ Hc]])];
      [congruence | congruence |].
    exists E1, l. split; assumption. }
  destruct info; apply Hgen; reflexivity.
Qed.

Lemma dict_wf_evicted (E0 E1 : strats) :
  dict_wf E0 ->
  (E1 = E0 \/ false = false /\ exists k', dmem k' E0 = true /\ E1 = ddel k' E0) ->
  dict_wf E1.
Proof.
  intros Hwf [-> | (_ & k' & _ & ->)]; [assumption | now apply dict_wf_ddel].
Qed.

Lemma repr_inj a b : Repr.repr a = Repr.repr b -> a = b.
Proof.
  intros H. pose proof (literal_eval_repr a) as Ha.
  rewrite H, literal_eval_repr in Ha. now inversion Ha.
Qed.

Lemma py_str_inj a b : py_str a = py_str b -> a = b.
Proof. intros H. apply repr_inj in H. now inversion H. Qed.

Lemma dget_ddel_None {V} k k' (d : pydict V) :
  dget k d = None -> dget k (ddel k' d) = None.
Proof.
  intros H. destruct (String.eqb_spec k' k) as [->|Hne].
  - apply dget_ddel_eq.
  - now rewrite dget_ddel_ne.
Qed.

(** A non-forking [evict] along a chain whose last step is a step of the
    resource leaves no entry under the key of that chain. *)
Lemma evict_old_key r c k s s' :
  get_resource_from_prov (PList c) = Ok (Some r) ->
  evict r c k false s = (Ok tt, s') ->
  dget (py_str c) (entries_of r s') = None.
Proof.
  intros Hnames. rewrite evict_eq.
  destruct (dget r (rpool s)) as [entries|] eqn:Er.
  2:{ intros H. inversion H; subst. now rewrite entries_of_dset. }
  unfold replaced_key. rewrite Hnames. cbn [rbind names].
  rewrite String.eqb_refl. unfold generate_prov_string.
  destruct (get_last_prov_entry c) as [e|x]; [discriminate|]. cbn [rbind fst snd].
  destruct (dmem (py_str c) entries) eqn:Em; cbn [negb].
  - rewrite Em. intros H. inversion H; subst.
    rewrite entries_of_dset. apply dget_ddel_eq.
  - assert (Hnone : dget (py_str c) entries = None).
    { unfold dmem in Em. now destruct (dget (py_str c) entries). }
    destruct (search_prov r c) as [e|found]; [discriminate|]. cbn [rbind].
    destruct (dmem (default (py_str c) found) entries); intros H;
      inversion H; subst.
    + rewrite entries_of_dset. now apply dget_ddel_None.
    + unfold entries_of. now rewrite Er.
Qed.

Lemma insert_entry_old_key r n o j k c key s s' :
  get_resource_from_prov (PList c) = Ok (Some r) ->
  key <> py_str c ->
  insert_entry r n o j k false c key s = (Ok tt, s') ->
  dget (py_str c) (entries_of r s') = None.
Proof.
  intros Hnames Hkey Hrun. unfold insert_entry in Hrun.
  apply bind_ok_inv in Hrun as ([] & s1 & Hevict & Hrun).
  pose proof (evict_old_key _ _ _ _ _ Hnames Hevict) as Hold.
  pose proof (after_evict r n o j key s1) as H. cbv zeta in H.
  rewrite Hrun in H. cbn [fst snd] in H.
  destruct H as [[Hne _] | [_ ->]]; [congruence|].
  now rewrite dget_committed_ne, dget_reserved_ne.
Qed.

Lemma set_data_old_key r n o j k nn s s' info p :
  heap s !! j = Some info ->
  prov_of info = Ok p ->
  get_resource_from_prov (PList p) = Ok (Some r) ->
  set_data r n o j k nn false false s = (Ok tt, s') ->
  dget (py_str p) (entries_of r s') = None.
Proof.
  intros Hj Hp Hnames. rewrite set_data_eq, (copy_info_eq _ _ _ _ _ _ _ Hj Hp).
  cbv zeta.
  destruct (get_last_prov_entry (new_prov r nn false p)) as [e|x]; [discriminate|].
  assert (Hkey : py_str (new_prov r nn false p) <> py_str p).
  { intros H. apply py_str_inj in H. unfold new_prov in H.
    apply (f_equal (@length prov)) in H. rewrite length_app in H. simpl in H. lia. }
  destruct info; intros Hrun; eapply insert_entry_old_key; eauto.
Qed.

(** C3. Idempotent non-forking insert: when a value for [R] is inserted
    twice in succession with [fork] false, with metadata carrying the same
    provenance [p] and under the same producing node name, the pool has
    exactly one entry for [R] under the resulting lineage key, that entry
    holds the producer of the second insert, and the number of entries of
    [R] has not grown on the second insert.  When the last step of [p] is
    a step of [R] itself, no entry is left under the pre-append lineage
    key [str(p)]. *)
Theorem C3_non_forking_insert_twice
  (R node output node' output' : string) (j j' : loc) (hint hint' node_name : string)
  (s s1 s2 : state) (info info' : jdict) (p : list prov) :
  dict_wf (entries_of R s) ->
  heap s !! j = Some info -> prov_of info = Ok p ->
  set_data R node output j hint node_name false false s = (Ok tt, s1) ->
  heap s1 !! j' = Some info' -> prov_of info' = Ok p ->
  set_data R node' output' j' hint' node_name false false s1 = (Ok tt, s2) ->
  let key := py_str (p ++ [prov_step R node_name]) in
  count_occ String.string_dec (dkeys (entries_of R s2)) key = 1 /\
  length (entries_of R s2) <= length (entries_of R s1) /\
  (exists l, dget key (entries_of R s2)
             = Some {| data := Some (node', output'); json := Some l |}) /\
  (get_resource_from_prov (PList p) = Ok (Some R) ->
   dget (py_str p) (entries_of R s1) = None /\
   dget (py_str p) (entries_of R s2) = None).
Proof.
  intros Hwf Hj Hp Hrun1 Hj' Hp' Hrun2 key.
  destruct (set_data_ok_entries _ _ _ _ _ _ _ _ _ _ _ _ Hj Hp Hrun1)
    as (E1 & l1 & HE1 & Hs1).
  destruct (set_data_ok_entries _ _ _ _ _ _ _ _ _ _ _ _ Hj' Hp' Hrun2)
    as (F1 & l2 & HF1 & Hs2).
  change (py_str (new_prov R node_name false p)) with key in Hs1, Hs2.
  assert (Hwf1 : dict_wf (entries_of R s1)).
  { rewrite Hs1. apply dict_wf_committed, dict_wf_reserved.
    eapply dict_wf_evicted; eassumption. }
  assert (Hkey1 : dmem key (entries_of R s1) = true).
  { rewrite Hs1. unfold dmem. now rewrite dget_committed. }
  assert (Hwf2 : dict_wf (entries_of R s2)).
  { rewrite Hs2. apply dict_wf_committed, dict_wf_reserved.
    eapply dict_wf_evicted; eassumption. }
  split_and!.
  - unfold dict_wf in Hwf2. apply NoDup_ListNoDup in Hwf2.
    apply (proj1 (NoDup_count_occ' String.string_dec _) Hwf2).
    apply list_elem_of_In, dmem_true. rewrite Hs2. unfold dmem.
    now rewrite dget_committed.
  - rewrite Hs2, length_committed by apply dmem_reserved.
    destruct HF1 as [-> | (_ & k' & Hk' & ->)].
    + now rewrite length_reserved_mem.
    + pose proof (length_reserved key (ddel k' (entries_of R s1))).
      pose proof (length_ddel_mem k' (entries_of R s1) Hk'). lia.
  - exists l2. rewrite Hs2. apply dget_committed.
  - intros Hnames. split.
    + eapply set_data_old_key; [exact Hj | exact Hp | exact Hnames | exact Hrun1].
    + eapply set_data_old_key; [exact Hj' | exact Hp' | exact Hnames | exact Hrun2].
Qed.

Lemma C3_non_forking_insert_twice_witness :
  let s := {| rpool := []; pipe_list := []; rtable := [];
              heap := [[("CpacProvenance", JProv [PStr "T1w:anat_ingress"])]] |} in
  let s1 := snd (set_data "desc-preproc_T1w" "anat_init" "outputspec.out" 0
                   EmptyString "anatomical_init" false false s) in
  let s2 := snd (set_data "desc-preproc_T1w" "anat_init_again" "outputspec.out" 0
                   EmptyString "anatomical_init" false false s1) in
  let key := py_str ([PStr "T1w:anat_ingress"]
                       ++ [prov_step "desc-preproc_T1w" "anatomical_init"]) in
  count_occ String.string_dec (dkeys (entries_of "desc-preproc_T1w" s2)) key = 1 /\
  length (entries_of "desc-preproc_T1w" s2)
  <= length (entries_of "desc-preproc_T1w" s1) /\
  (exists l, dget key (entries_of "desc-preproc_T1w" s2)
             = Some {| data := Some ("anat_init_again", "outputspec.out");
                       json := Some l |}) /\
  (get_resource_from_prov (PList [PStr "T1w:anat_ingress"])
   = Ok (Some "desc-preproc_T1w") ->
   dget (py_str [PStr "T1w:anat_ingress"]) (entries_of "desc-preproc_T1w" s1) = None /\
   dget (py_str [PStr "T1w:anat_ingress"]) (entries_of "desc-preproc_T1w" s2) = None).
Proof.
  intros s s1 s2.
  apply (C3_non_forking_insert_twice
           "desc-preproc_T1w" "anat_init" "outputspec.out"
           "anat_init_again" "outputspec.out" 0 0
           EmptyString EmptyString "anatomical_init" s s1 s2
           [("CpacProvenance", JProv [PStr "T1w:anat_ingress"])]
           [("CpacProvenance", JProv [PStr "T1w:anat_ingress"])]
           [PStr "T1w:anat_ingress"]);
    try reflexivity.
  apply NoDup_nil_2.
Defined.

(** C4 (amended). Forking insert preserves prior entries: when [R] has
    entries in the pool, an insert for [R] with [fork] true deletes none of
    them, leaves unchanged every entry whose key differs from the newly
    derived lineage key and, when it returns, holds the new producer under
    the newly derived key. *)
Theorem C4_forking_insert_keeps_entries
  (R node output : string) (j : loc) (hint node_name : string) (inject : bool)
  (s : state) (entries : strats) (info : jdict) (p : list prov) :
  dget R (rpool s) = Some entries ->
  heap s !! j = Some info -> prov_of info = Ok p ->
  let out := set_data R node output j hint node_name true inject s in
  let key := py_str (new_prov R node_name inject p) in
  (forall k0, dmem k0 entries = true -> dmem k0 (entries_of R (snd out)) = true) /\
  (forall k0 e0, dget k0 entries = Some e0 -> k0 <> key ->
                 dget k0 (entries_of R (snd out)) = Some e0) /\
  (fst out = Ok tt ->
   exists l, dget key (entries_of R (snd out))
             = Some {| data := Some (node, output); json := Some l |}).
Proof.
  intros HR Hj Hp out key. subst out.
  rewrite set_data_eq, (copy_info_eq _ _ _ _ _ _ _ Hj Hp). cbv zeta.
  fold key.
  assert (H0 : forall f, entries_of R (with_heap f s) = entries) 
    by (intros f; unfold entries_of; simpl; now rewrite HR).
  destruct (get_last_prov_entry (new_prov R node_name inject p)) as [e|x].
  { cbn [fst snd]. rewrite H0. split_and!; [auto | auto | discriminate]. }
  assert (Hgen : forall l f,
    let out := insert_entry R node output l hint true p key (with_heap f s) in
    (forall k0, dmem k0 entries = true -> dmem k0 (entries_of R (snd out)) = true) /\
    (forall k0 e0, dget k0 entries = Some e0 -> k0 <> key ->
                   dget k0 (entries_of R (snd out)) = Some e0) /\
    (fst out = Ok tt ->
     exists l, dget key (entries_of R (snd out))
               = Some {| data := Some (node, output); json := Some l |})).
  { intros l f.
    pose proof (insert_entry_entries R node output l hint true p key
                  (with_heap f s)) as He.
    cbv zeta in *. rewrite H0 in He.
    destruct He as [(Hf & _) | (E1 & HE1 & He)]; [discriminate|].
    destruct HE1 as [-> | (Hf & _)]; [|discriminate].
    destruct He as [[Hne ->] | [Hok ->]].
    - split_and!.
      + intros k0. apply dmem_reserved_mono.
      + intros k0 e0 Hk Hne'. rewrite dget_reserved_ne; auto.
      + intros Hok. congruence.
    - split_and!.
      + intros k0 Hk. now apply dmem_committed, dmem_reserved_mono.
      + intros k0 e0 Hk Hne'.
        rewrite dget_committed_ne, dget_reserved_ne; auto.
      + intros _. exists l. apply dget_committed. }
  destruct info; apply Hgen.
Qed.

Lemma C4_forking_insert_keeps_entries_witness :
  let s := {| rpool := [("desc-preproc_T1w",
                         [("['T1w:anat_ingress', 'desc-preproc_T1w:anatomical_init']",
                           {| data := Some ("anat_init", "outputspec.out");
                              json := Some 1 |})])];
              pipe_list := ["['T1w:anat_ingress', 'desc-preproc_T1w:anatomical_init']"];
              rtable := [];
              heap := [[("CpacProvenance", JProv [PStr "T1w:anat_ingress"])];
                       [("CpacProvenance",
                         JProv [PStr "T1w:anat_ingress";
                                PStr "desc-preproc_T1w:anatomical_init"])]] |} in
  let out := set_data "desc-preproc_T1w" "acpc" "outputspec.out" 1
               EmptyString "acpc_alignment" true false s in
  dget "['T1w:anat_ingress', 'desc-preproc_T1w:anatomical_init']"
    (entries_of "desc-preproc_T1w" (snd out))
  = Some {| data := Some ("anat_init", "outputspec.out"); json := Some 1 |}.
Proof.
  intros s out.
  apply (proj1 (proj2 (C4_forking_insert_keeps_entries
            "desc-preproc_T1w" "acpc" "outputspec.out" 1
            EmptyString "acpc_alignment" false s _ _ _ eq_refl eq_refl eq_refl)));
    [reflexivity | discriminate].
Defined.

(** C4, as stated, fails when the newly derived lineage key is the key
    [k0] of the existing entry: a second forking insert of [R] along the
    same lineage replaces the producer held under [k0], and [R] still has
    one entry. *)
Lemma C4_counterexample :
  let s := {| rpool := []; pipe_list := []; rtable := [];
              heap := [[("CpacProvenance", JProv [PStr "T1w:anat_ingress"])]] |} in
  let k0 := "['T1w:anat_ingress', 'desc-preproc_T1w:anatomical_init']" in
  let s1 := snd (set_data "desc-preproc_T1w" "anat_init" "outputspec.out" 0
                   EmptyString "anatomical_init" true false s) in
  let s2 := snd (set_data "desc-preproc_T1w" "anat_init_b" "outputspec.out" 0
                   EmptyString "anatomical_init" true false s1) in
  dget k0 (entries_of "desc-preproc_T1w" s1)
  = Some {| data := Some ("anat_init", "outputspec.out"); json := Some 1 |} /\
  dget k0 (entries_of "desc-preproc_T1w" s2)
  = Some {| data := Some ("anat_init_b", "outputspec.out"); json := Some 2 |} /\
  length (entries_of "desc-preproc_T1w" s2) = 1.
Proof. repeat split; reflexivity. Qed.

(** ** Lookup *)

(** C9. [get] with a list of alternative names returns the record of the
    first name, in list order, that is present in the pool; when none of
    them is present it raises [ResourceNotFound] unless [optional] is set,
    in which case it returns [None] (the pair [(None, None)] with
    [report_fetched]). *)
Theorem C9_get_alternatives
  (rp : pydict strats) (resource : list string) (pipe_idx : option string)
  (report_fetched optional : bool) :
  (forall before label after d,
      resource = before ++ label :: after ->
      (forall x, x ∈ before -> dget x rp = None) ->
      dget label rp = Some d ->
      get rp (Alts resource) pipe_idx report_fetched optional
      = Ok (reply report_fetched (FStrats d) (Some label))) /\
  ((forall x, x ∈ resource -> dget x rp = None) ->
   get rp (Alts resource) pipe_idx report_fetched optional
   = if optional then Ok (reply report_fetched FNone None)
     else Raise ResourceNotFound).
Proof.
  simpl. split.
  - intros before label after d -> Hbefore Hlabel.
    induction before as [|x before IH]; simpl.
    + now rewrite Hlabel.
    + rewrite (Hbefore x) by constructor.
      apply IH. intros y Hy. apply Hbefore. now constructor.
  - induction resource as [|x resource IH]; intros Habsent; simpl.
    + reflexivity.
    + rewrite (Habsent x) by constructor.
      apply IH. intros y Hy. apply Habsent. now constructor.
Qed.

Lemma C9_get_alternatives_witness :
  let rp := [("desc-preproc_T1w",
              [("['T1w:anat_ingress', 'desc-preproc_T1w:anatomical_init']",
                {| data := Some ("anat_init", "outputspec.out"); json := Some 1 |})]);
             ("T1w",
              [("['T1w:anat_ingress']",
                {| data := Some ("anat_ingress", "outputspec.data");
                   json := Some 0 |})])] in
  get rp (Alts ["desc-brain_T1w"; "T1w"; "desc-preproc_T1w"]) None false false
  = Ok (Plain (FStrats [("['T1w:anat_ingress']",
                         {| data := Some ("anat_ingress", "outputspec.data");
                            json := Some 0 |})])) /\
  get rp (Alts ["desc-brain_T1w"; "bold"]) None false true = Ok (Plain FNone) /\
  get rp (Alts ["desc-brain_T1w"; "bold"]) None false false = Raise ResourceNotFound.
Proof.
  intros rp. split_and!.
  - apply (proj1 (C9_get_alternatives rp ["desc-brain_T1w"; "T1w"; "desc-preproc_T1w"]
                    None false false)
             ["desc-brain_T1w"] "T1w" ["desc-preproc_T1w"]);
      [reflexivity | | reflexivity].
    intros x Hx. apply list_elem_of_singleton in Hx. now subst.
  - apply (proj2 (C9_get_alternatives rp ["desc-brain_T1w"; "bold"] None false true)).
    intros x Hx. apply elem_of_cons in Hx as [->|Hx]; [reflexivity|].
    apply list_elem_of_singleton in Hx. now subst.
  - apply (proj2 (C9_get_alternatives rp ["desc-brain_T1w"; "bold"] None false false)).
    intros x Hx. apply elem_of_cons in Hx as [->|Hx]; [reflexivity|].
    apply list_elem_of_singleton in Hx. now subst.
Defined.

(** ** [get_strats]: reading the inputs *)

Lemma mem_true x l : mem x l = true <-> In x l.
Proof.
  unfold mem. rewrite existsb_exists. split.
  - intros (y & Hy & E). apply String.eqb_eq in E. now subst.
  - intros H. exists x. split; [assumption | apply String.eqb_refl].
Qed.

Lemma nodup_keys_NoDup keys : nodup_keys keys = true -> List.NoDup keys.
Proof.
  induction keys as [|k keys IH]; simpl; [constructor|].
  intros H. apply andb_prop in H as [Hk Hr]. constructor; [|auto].
  intros Hin. apply mem_true in Hin. rewrite Hin in Hk. discriminate.
Qed.

Lemma dget_of_in {V} k (v : V) d :
  List.NoDup (dkeys d) -> In (k, v) d -> dget k d = Some v.
Proof.
  unfold dkeys. induction d as [|[k2 v2] d IH]; simpl; [tauto|].
  intros Hnd [Heq | Hin].
  - inversion Heq; subst. now rewrite String.eqb_refl.
  - inversion Hnd as [|? ? Hk Hd]; subst.
    destruct (String.eqb_spec k k2) as [->|Hne]; [|auto].
    exfalso. apply Hk. apply in_map_iff. now exists (k2, v).
Qed.

Lemma chain_names_spec p name key :
  chain_names p name key = true -> generate_prov_string p = Ok (name, key).
Proof.
  unfold chain_names. destruct (generate_prov_string p) as [e|[r k]]; [discriminate|].
  simpl. intros H. apply andb_prop in H as [H1 H2].
  apply String.eqb_eq in H1, H2. now subst.
Qed.

Lemma py_str_not_empty p : py_str p <> EmptyString.
Proof. unfold py_str. rewrite repr_PList. discriminate. Qed.

Lemma entry_ok_spec h name k e :
  entry_ok h name (k, e) = true ->
  exists l info,
    json e = Some l /\ h !! l = Some info /\
    cpac_provenance info = Ok (chain_of h (k, e)) /\
    generate_prov_string (chain_of h (k, e)) = Ok (name, k) /\
    variants_ok info = true.
Proof.
  unfold entry_ok, chain_of. simpl.
  destruct (json e) as [l|]; [|discriminate]. simpl.
  destruct (h !! l) as [info|] eqn:Hh; [|discriminate].
  destruct (cpac_provenance info) as [err|p] eqn:Hp; [discriminate|].
  intros H. apply andb_prop in H as [H1 H2].
  exists l, info. split_and!; auto. now apply chain_names_spec.
Qed.

Lemma get_json_entry rp name k L e l :
  dget name rp = Some L -> dget k L = Some e -> json e = Some l ->
  k <> EmptyString ->
  get_json rp name k = Ok (JsonAt l).
Proof.
  intros HL Hk Hl Hne. unfold get_json. rewrite HL.
  destruct k as [|c k]; [congruence|]. now rewrite Hk, Hl.
Qed.

Lemma add_variants_ok d known :
  forallb has_first d = true -> exists known', add_variants d known = Ok known'.
Proof.
  revert known. induction d as [|[label val] d IH]; intros known; simpl.
  - eauto.
  - intros H. apply andb_prop in H as [H1 H2].
    destruct (is_known val known); [auto|].
    unfold has_first in H1. simpl in H1.
    destruct (first_of val) as [e|v0]; [discriminate|]. simpl. auto.
Qed.

Lemma sub_pool_of_ok h rp name L es known :
  dget name rp = Some L ->
  (forall ke, In ke es -> dget (fst ke) L = Some (snd ke) /\
                          entry_ok h name ke = true) ->
  exists known',
    sub_pool_of h rp name (map fst es) known = Ok (map (chain_of h) es, known').
Proof.
  intros HL. revert known. induction es as [|[k e] es IH]; intros known Hes; simpl.
  - eauto.
  - destruct (Hes (k, e) (or_introl eq_refl)) as [Hk Hok]. simpl in Hk.
    destruct (entry_ok_spec _ _ _ _ Hok) as (l & info & Hl & Hh & Hp & Hg & Hv).
    assert (Hne : k <> EmptyString).
    { apply generate_prov_string_key in Hg. rewrite Hg. apply py_str_not_empty. }
    rewrite (get_json_entry _ _ _ _ _ _ HL Hk Hl Hne). simpl.
    rewrite Hh. simpl. rewrite Hp. simpl.
    unfold variants_ok in Hv.
    destruct (cpac_variant info) as [err|[d|]]; [discriminate| |]; simpl.
    + destruct (add_variants_ok d known Hv) as [known1 ->]. simpl.
      destruct (IH known1) as [known' ->]; [intros; apply Hes; now right|].
      simpl. eauto.
    + destruct (IH known) as [known' ->]; [intros; apply Hes; now right|].
      simpl. eauto.
Qed.

Lemma input_ok_spec s r :
  input_ok s r = true ->
  exists L name,
    fetch (rpool s) r = Ok (Some (L, name)) /\
    dget name (rpool s) = Some L /\
    List.NoDup (dkeys L) /\
    forall ke, In ke L -> dget (fst ke) L = Some (snd ke) /\
                          entry_ok (heap s) name ke = true.
Proof.
  unfold input_ok. destruct (fetch (rpool s) r) as [e|[[L name]|]] eqn:Hf;
    try discriminate.
  intros H. apply andb_prop in H as [Hnd Hall].
  apply nodup_keys_NoDup in Hnd. rewrite forallb_forall in Hall.
  exists L, name. split_and!; auto.
  - revert Hf. unfold fetch.
    destruct r as [r|alts]; simpl.
    + destruct (dget r (rpool s)) as [d|] eqn:Hd; simpl; [|discriminate].
      destruct d; [discriminate|]. intros H. now inversion H; subst.
    + induction alts as [|a alts IH]; simpl; [discriminate|].
      destruct (dget a (rpool s)) as [d|] eqn:Hd; simpl; [|exact IH].
      destruct d; [discriminate|]. intros H. now inversion H; subst.
  - intros [k e] Hin. split; [|auto]. now apply dget_of_in.
Qed.

Lemma fetch_Single_collect rp specs :
  collect_inputs rp (map Single specs) = Ok (specs, []).
Proof.
  induction specs as [|r specs IH]; simpl; [reflexivity|]. now rewrite IH.
Qed.

Lemma gather_ok s specs vp :
  forallb (fun r => absent s r || input_ok s r) specs = true ->
  exists vp', gather (heap s) (rpool s) specs vp = Ok (pools_of s specs, vp').
Proof.
  revert vp. induction specs as [|r specs IH]; intros vp H; simpl.
  - eauto.
  - apply andb_prop in H as [Hr Hrest]. apply orb_prop in Hr as [Hr | Hr].
    + unfold absent in Hr.
      destruct (fetch (rpool s) r) as [e|[?|]]; try discriminate. simpl.
      apply IH, Hrest.
    + destruct (input_ok_spec _ _ Hr) as (L & name & Hf & HL & Hnd & Hes).
      rewrite Hf. simpl.
      destruct (sub_pool_of_ok (heap s) (rpool s) name L L
                  (default [] (dget name vp)) HL Hes) as [known' Hsp].
      unfold dkeys. rewrite Hsp. simpl.
      destruct (IH (dset name known' vp) Hrest) as [vp' ->]. simpl. eauto.
Qed.

(** ** [get_strats]: the sole input *)

Lemma store_item_ok l k v s :
  l < length (heap s) ->
  exists s', store_item l k v s = (Ok tt, s') /\
             rpool s' = rpool s /\ length (heap s') = length (heap s).
Proof.
  intros Hl.
  destruct (lookup_lt_is_Some_2 (heap s) l Hl) as [d Hd].
  exists (with_heap (fun h => <[l := dset k v d]> h) s).
  split; [|split; [reflexivity | apply length_insert]].
  unfold store_item, bind, deref. now rewrite Hd.
Qed.

Lemma deref_ok l s :
  l < length (heap s) -> exists d, deref l s = (Ok d, s).
Proof.
  intros Hl.
  destruct (lookup_lt_is_Some_2 (heap s) l Hl) as [d Hd].
  exists d. unfold deref. now rewrite Hd.
Qed.

Lemma single_ok p name k e l ns s :
  generate_prov_string p = Ok (name, k) ->
  dget name (rpool s) ≫= dget k = Some e ->
  json e = Some l ->
  l < length (heap s) ->
  exists sp s',
    single p ns s = (Ok (dset k sp ns), s') /\
    rpool s' = rpool s /\ length (heap s') = length (heap s).
Proof.
  intros Hg He Hj Hl. unfold single.
  unfold bind at 1. unfold lift at 1. rewrite Hg. cbn beta iota.
  unfold bind at 1. unfold gets at 1. cbn beta iota.
  unfold bind at 1. unfold lift at 1. rewrite He. cbn beta iota.
  unfold bind at 1. unfold lift at 1. rewrite Hj. cbn beta iota.
  unfold bind at 1.
  destruct (store_item_ok l "subjson" (JDict []) s Hl) as (s1 & -> & Hr1 & Hh1).
  cbn beta iota. unfold bind at 1.
  destruct (store_item_ok l "CpacProvenance" (JProv p) s1) as (s2 & -> & Hr2 & Hh2);
    [lia|].
  cbn beta iota. unfold bind at 1.
  destruct (store_item_ok l "subjson" (JDict [(data_type_of name, JDict [])]) s2)
    as (s3 & -> & Hr3 & Hh3); [lia|].
  cbn beta iota. unfold bind at 1.
  destruct (deref_ok l s3) as [d ->]; [lia|].
  cbn beta iota. unfold bind at 1.
  destruct (store_item_ok l "subjson"
              (JDict [(data_type_of name, JDict (dupdate [] d))]) s3)
    as (s4 & -> & Hr4 & Hh4); [lia|].
  cbn beta iota. unfold ret.
  eexists _, s4. split; [reflexivity|]. split; [congruence | lia].
Qed.

Lemma single_all_ok name L s : forall es ns,
  dget name (rpool s) = Some L ->
  (forall ke, In ke es -> dget (fst ke) L = Some (snd ke) /\
                          entry_ok (heap s) name ke = true) ->
  exists result s',
    single_all (map (chain_of (heap s)) es) ns s = (Ok result, s') /\
    rpool s' = rpool s /\ length (heap s') = length (heap s) /\
    dkeys result = dkeys (fold_left (fun acc ke => dset (fst ke) tt acc) es
                            (map (fun kv => (fst kv, tt)) ns)).
Proof.
  intros es ns HL Hes.
  assert (Hgen : forall s0, rpool s0 = rpool s -> length (heap s0) = length (heap s) ->
            forall ns,
            exists result s',
              single_all (map (chain_of (heap s)) es) ns s0 = (Ok result, s') /\
              rpool s' = rpool s /\ length (heap s') = length (heap s) /\
              dkeys result = dkeys (fold_left (fun acc ke => dset (fst ke) tt acc) es
                                      (map (fun kv => (fst kv, tt)) ns))).
  { clear ns. induction es as [|[k e] es IH]; intros s0 Hr0 Hh0 ns; simpl.
    - exists ns, s0. split_and!; auto. unfold dkeys. rewrite map_map. reflexivity.
    - destruct (Hes (k, e) (or_introl eq_refl)) as [Hk Hok]. simpl in Hk.
      destruct (entry_ok_spec _ _ _ _ Hok) as (l & info & Hl & Hh & Hp & Hg & Hv).
      destruct (single_ok (chain_of (heap s) (k, e)) name k e l ns s0)
        as (sp & s1 & Hrun & Hr1 & Hh1); auto.
      { rewrite Hr0, HL. exact Hk. }
      { rewrite Hh0. eapply lookup_lt_Some; eauto. }
      unfold bind. rewrite Hrun.
      destruct (IH (fun ke Hin => Hes ke (or_intror Hin)) s1) with (ns := dset k sp ns)
        as (result & s' & Hrun' & Hr' & Hh' & Hkeys); [congruence | lia |].
      exists result, s'. split_and!; auto. rewrite Hkeys. do 2 f_equal.
      clear. induction ns as [|[k2 v2] ns IHns]; simpl; [reflexivity|].
      destruct (String.eqb k k2); simpl; [reflexivity|]. now rewrite IHns. }
  apply Hgen; reflexivity.
Qed.

Lemma fold_dset_keys {V} (es : pydict V) : forall (acc : pydict unit),
  List.NoDup (dkeys acc ++ dkeys es) ->
  dkeys (fold_left (fun acc ke => dset (fst ke) tt acc) es acc) = dkeys acc ++ dkeys es.
Proof.
  induction es as [|[k e] es IH]; intros acc Hnd; simpl.
  - now rewrite app_nil_r.
  - rewrite IH.
    + rewrite dkeys_dset_new.
      * now rewrite <- app_assoc.
      * apply dmem_false. intros Hin. apply list_elem_of_In in Hin.
        apply List.NoDup_remove_2 in Hnd. apply Hnd. apply in_or_app. now left.
    + rewrite dkeys_dset_new.
      * now rewrite <- app_assoc.
      * apply dmem_false. intros Hin. apply list_elem_of_In in Hin.
        apply List.NoDup_remove_2 in Hnd. apply Hnd. apply in_or_app. now left.
Qed.

Lemma single_input_strats s specs present :
  forallb (fun r => absent s r || input_ok s r) specs = true ->
  input_ok s present = true ->
  pools_of s specs = [map (chain_of (heap s)) (lineages s present)] ->
  exists result s',
    get_strats (map Single specs) s = (Ok result, s') /\
    dkeys result = dkeys (lineages s present).
Proof.
  intros Hall Hok Hpools. unfold get_strats.
  unfold bind at 1. unfold gets at 1. cbn beta iota.
  unfold bind at 1. unfold gets at 1. cbn beta iota.
  unfold bind at 1. unfold lift at 1. rewrite fetch_Single_collect. cbn beta iota.
  unfold bind at 1. unfold lift at 1.
  destruct (gather_ok s specs [] Hall) as [vp ->]. cbn beta iota.
  rewrite Hpools. cbn [length Nat.ltb Nat.leb].
  destruct (input_ok_spec _ _ Hok) as (L & name & Hf & HL & Hnd & Hes).
  unfold lineages. rewrite Hf.
  destruct (single_all_ok name L s L [] HL Hes) as (result & s' & Hrun & _ & _ & Hk).
  exists result, s'. split.
  - unfold single_pools, bind. now rewrite Hrun.
  - rewrite Hk. simpl. now rewrite (fold_dset_keys L []).
Qed.

(** C8. Optional-absent input: [get_strats] on two declared inputs, one
    absent from the pool and one present with well-formed lineage set [L],
    returns without error exactly one sub-pool per lineage of [L], keyed by
    the lineage keys of the present input and in their order: the absent
    input adds no dimension. *)
Theorem C8_optional_absent_input
  (s : state) (missing present : rspec) (resources : list input) :
  absent s missing = true ->
  input_ok s present = true ->
  resources = [Single missing; Single present] \/
  resources = [Single present; Single missing] ->
  exists result s',
    get_strats resources s = (Ok result, s') /\
    dkeys result = dkeys (lineages s present) /\
    length result = length (lineages s present).
Proof.
  intros Hmiss Hok Hres.
  assert (Hpresent : exists L name, fetch (rpool s) present = Ok (Some (L, name))).
  { destruct (input_ok_spec _ _ Hok) as (L & name & Hf & _). eauto. }
  destruct Hpresent as (L & name & Hf).
  assert (Hm : fetch (rpool s) missing = Ok None).
  { unfold absent in Hmiss.
    destruct (fetch (rpool s) missing) as [e|[?|]]; congruence. }
  assert (H : exists result s',
             get_strats resources s = (Ok result, s') /\
             dkeys result = dkeys (lineages s present)).
  { destruct Hres as [-> | ->].
    - apply (single_input_strats s [missing; present] present); auto.
      + simpl. now rewrite Hmiss, Hok, orb_true_r.
      + unfold pools_of, lineages. simpl. now rewrite Hm, Hf.
    - apply (single_input_strats s [present; missing] present); auto.
      + simpl. now rewrite Hmiss, Hok, orb_true_r.
      + unfold pools_of, lineages. simpl. now rewrite Hm, Hf. }
  destruct H as (result & s' & Hrun & Hk).
  exists result, s'. split_and!; auto.
  rewrite <- (length_map fst result), <- (length_map fst (lineages s present)).
  unfold dkeys in Hk. now rewrite Hk.
Qed.

Lemma C8_optional_absent_input_witness :
  let s := {| rpool := [("T1w",
                         [("['T1w:anat_ingress']",
                           {| data := Some ("anat_ingress", "outputspec.data");
                              json := Some 0 |});
                          ("['T1w:source_ingress']",
                           {| data := Some ("source_ingress", "outputspec.data");
                              json := Some 1 |})])];
              pipe_list := []; rtable := [];
              heap := [[("CpacProvenance", JProv [PStr "T1w:anat_ingress"])];
                       [("CpacProvenance", JProv [PStr "T1w:source_ingress"])]] |} in
  exists result s',
    get_strats [Single (Name "T1w"); Single (Alts ["lesion_mask"; "label-lesion_mask"])] s
    = (Ok result, s') /\
    dkeys result = ["['T1w:anat_ingress']"; "['T1w:source_ingress']"] /\
    length result = 2.
Proof.
  intros s.
  apply (C8_optional_absent_input s (Alts ["lesion_mask"; "label-lesion_mask"])
           (Name "T1w"));
    [reflexivity | reflexivity | right; reflexivity].
Defined.

(** ** [get_strats]: the cross product *)

Lemma map_PList_inj a b : map PList a = map PList b -> a = b.
Proof.
  revert b. induction a as [|x a IH]; intros [|y b] H; simpl in H;
    try discriminate; [reflexivity|].
  inversion H; subst. f_equal. now apply IH.
Qed.

Lemma strat_str_inj a b : strat_str a = strat_str b -> a = b.
Proof. intros H. apply py_str_inj in H. now apply map_PList_inj. Qed.





Lemma NoDup_map_strat_str ts : List.NoDup ts -> List.NoDup (map strat_str ts).
Proof.
  apply Finite.Injective_map_NoDup. intros a b. apply strat_str_inj.
Qed.
















(** ** [get_strats]: pruning of linked inputs *)

Lemma any_of_true {A} (l : list A) (f : A -> result bool) a b :
  any_of l f = Ok b -> In a l ->
  (forall b', f a = Ok b' -> b' = true) -> b = true.
Proof.
  intros Hrun Hin Ha. induction l as [|x l IH]; [destruct Hin|].
  simpl in Hrun. destruct (f x) as [e|bx] eqn:Ex; [discriminate|]. simpl in Hrun.
  destruct bx; [now inversion Hrun|].
  destruct Hin as [-> | Hin]; [|auto].
  specialize (Ha _ Ex). discriminate.
Qed.

Lemma distinct_in x l : forall seen,
  In x l -> ~ In x seen -> In x (distinct l seen).
Proof.
  induction l as [|y l IH]; intros seen Hin Hseen; [destruct Hin|]. simpl.
  destruct (existsb (String.eqb y) seen) eqn:E.
  - destruct Hin as [-> | Hin]; [|auto].
    exfalso. apply Hseen. now apply mem_true.
  - destruct (String.eqb_spec x y) as [->|Hne]; [now left|].
    right. destruct Hin as [-> | Hin]; [congruence|].
    apply IH; [assumption|]. intros H. apply in_app_or in H as [H | [-> | []]]; auto.
Qed.

Lemma applied_tags_first d : forall tags label T rest,
  applied_tags d = Ok tags -> In (label, VList (T :: rest)) d -> In T tags.
Proof.
  induction d as [|[k val] d IH]; intros tags label T rest Hrun Hin; [destruct Hin|].
  simpl in Hrun. destruct val as [[|x l]|t]; [discriminate| |];
    destruct (applied_tags d) as [e|tags'] eqn:E; try discriminate;
    simpl in Hrun; inversion Hrun; subst; clear Hrun.
  - destruct Hin as [Heq | Hin]; [inversion Heq; subst; now left|].
    right. eapply IH; eauto.
  - destruct Hin as [Heq | Hin]; [discriminate|].
    right. eapply IH; eauto.
Qed.

Lemma applied_tags_carried d : forall tags T,
  applied_tags d = Ok tags -> In T tags ->
  exists label val, In (label, val) d /\
                    match val with
                    | VList l => In T l
                    | VTag t => t = T
                    end.
Proof.
  induction d as [|[k val] d IH]; intros tags T Hrun Hin.
  - simpl in Hrun. inversion Hrun; subst. destruct Hin.
  - simpl in Hrun. destruct val as [[|x l]|t]; [discriminate| |];
      destruct (applied_tags d) as [e|tags'] eqn:E; try discriminate;
      simpl in Hrun; inversion Hrun; subst; clear Hrun.
    + destruct Hin as [<- | Hin].
      * exists k, (VList (x :: l)). split; [now left | now left].
      * destruct (IH _ _ eq_refl Hin) as (label & val & Hv & Hm).
        exists label, val. split; [now right | assumption].
    + destruct Hin as [<- | Hin].
      * exists k, (VTag t). split; [now left | reflexivity].
      * destruct (IH _ _ eq_refl Hin) as (label & val & Hv & Hm).
        exists label, val. split; [now right | assumption].
Qed.

Lemma add_negatives_keeps spread : forall strat T,
  In T strat -> In T (add_negatives spread strat).
Proof.
  induction spread as [|x spread IH]; intros strat T Hin; simpl; [assumption|].
  destruct (Str.contains "NO-" x); [auto|].
  destruct (existsb (String.eqb x) strat); [auto|].
  apply IH. apply in_or_app. now left.
Qed.

Lemma add_negatives_only spread : forall strat T,
  In T (add_negatives spread strat) -> In T strat \/ Str.prefix "NO-" T = true.
Proof.
  induction spread as [|x spread IH]; intros strat T Hin; simpl in Hin; [now left|].
  destruct (Str.contains "NO-" x); [auto|].
  destruct (existsb (String.eqb x) strat); [auto|].
  apply IH in Hin as [Hin | Hp]; [|now right].
  apply in_app_or in Hin as [Hin | [<- | []]]; [now left | now right].
Qed.

Lemma linked_json_extends h h' jd x info :
  extends h h' -> linked_json h jd x = Ok info -> linked_json h' jd x = Ok info.
Proof.
  intros Hext. unfold linked_json. destruct (dget x jd) as [[l|e]|]; simpl; auto.
  destruct (h !! l) as [d|] eqn:E; [|discriminate].
  intros H. inversion H; subst. now rewrite (Hext _ _ E).
Qed.

(** A pair of linked labels that disagree on [T] sets [drop]. *)
Lemma pair_drops_conflict h jd vp xjson yjson x y T xreg yreg b :
  x <> y ->
  linked_json h jd y = Ok yjson ->
  first_tag xjson T -> ~ carries yjson T ->
  dget x vp = Some xreg -> In T xreg ->
  dget y vp = Some yreg -> In T yreg ->
  Str.prefix "NO-" T = false ->
  pair_drops h jd vp xjson x y = Ok b -> b = true.
Proof.
  intros Hne Hy (xv & label & rest & Hxv & Hfirst) Hcarry Hxr HTx Hyr HTy Hno.
  unfold pair_drops. apply String.eqb_neq in Hne. rewrite Hne, Hy. simpl.
  rewrite Hxv. simpl.
  destruct (applied_tags xv) as [e|xtags] eqn:Ext; [discriminate|]. simpl.
  unfold spread_of. rewrite Hxr. simpl.
  destruct (cpac_variant yjson) as [e|yv] eqn:Eyv; [discriminate|]. simpl.
  destruct (applied_tags (default [] yv)) as [e|ytags] eqn:Eyt; [discriminate|].
  simpl. rewrite Hyr. simpl.
  intros H. inversion H; subst; clear H.
  apply existsb_exists. exists T. split.
  - apply distinct_in; [assumption | intros []].
  - unfold conflicts.
    assert (Hcur : mem T (add_negatives (distinct xreg []) xtags) = true).
    { apply mem_true, add_negatives_keeps. eapply applied_tags_first; eauto. }
    assert (Hspread : mem T (distinct yreg []) = true).
    { apply mem_true, distinct_in; [assumption | intros []]. }
    assert (Hother : mem T (add_negatives (distinct yreg []) ytags) = false).
    { destruct (mem T (add_negatives (distinct yreg []) ytags)) eqn:E; [|reflexivity].
      exfalso. apply mem_true, add_negatives_only in E as [E | E]; [|congruence].
      destruct yv as [yv|]; simpl in Eyt; [|inversion Eyt; subst; destruct E].
      destruct (applied_tags_carried _ _ _ Eyt E) as (lab & val & Hin & Hm).
      apply Hcarry. exists yv, lab, val. auto. }
    rewrite Hcur, Hspread, Hother. reflexivity.
Qed.

Lemma drops_conflict h jd vp lk linked x y xjson yjson T xreg yreg b :
  In linked lk -> In x linked -> In y linked -> x <> y ->
  linked_json h jd x = Ok xjson ->
  linked_json h jd y = Ok yjson ->
  first_tag xjson T -> ~ carries yjson T ->
  dget x vp = Some xreg -> In T xreg ->
  dget y vp = Some yreg -> In T yreg ->
  Str.prefix "NO-" T = false ->
  drops h jd vp lk = Ok b -> b = true.
Proof.
  intros Hl Hx Hy Hne Hxj Hyj Hfirst Hcarry Hxr HTx Hyr HTy Hno Hrun.
  unfold drops in Hrun.
  eapply any_of_true; [exact Hrun | exact Hl |]. intros b1 H1. cbv beta in H1.
  eapply any_of_true; [exact H1 | exact Hx |]. intros b2 H2. cbv beta in H2.
  rewrite Hxj in H2. simpl in H2.
  eapply any_of_true; [exact H2 | exact Hy |]. intros b3 H3.
  eapply pair_drops_conflict; eauto.
Qed.

(** *** The registry of a linked label has the fork tags of its strategies *)

Lemma add_variants_incl vals : forall known known',
  add_variants vals known = Ok known' ->
  incl known known' /\
  forall label tags, In (label, VList tags) vals -> incl tags known'.
Proof.
  induction vals as [|[k val] vals IH]; intros known known' Hrun; simpl in Hrun.
  - inversion Hrun; subst. split; [apply incl_refl | intros ? ? []].
  - destruct (is_known val known) eqn:Ek.
    + destruct (IH _ _ Hrun) as [Hi Hv]. split; [assumption|].
      intros label tags [Heq | Hin]; [|eauto].
      inversion Heq; subst. discriminate.
    + destruct (first_of val) as [e|v0]; [discriminate|]. simpl in Hrun.
      destruct (IH _ _ Hrun) as [Hi Hv]. split.
      * intros t Ht. apply Hi. apply in_or_app. now left.
      * intros label tags [Heq | Hin]; [|eauto].
        inversion Heq; subst. intros t Ht. apply Hi.
        apply in_or_app. right. apply in_or_app. now left.
Qed.

Lemma sub_pool_of_registry h rp x L keys : forall known pool known',
  dget x rp = Some L ->
  sub_pool_of h rp x keys known = Ok (pool, known') ->
  incl known known' /\
  forall k e l info dv label tags,
    In k keys -> k <> EmptyString -> dget k L = Some e -> json e = Some l ->
    h !! l = Some info -> cpac_variant info = Ok (Some dv) ->
    In (label, VList tags) dv -> incl tags known'.
Proof.
  intros known pool known' HL. revert known pool known'.
  induction keys as [|k0 keys IH]; intros known pool known' Hrun; simpl in Hrun.
  - inversion Hrun; subst. split; [apply incl_refl|]. intros ? ? ? ? ? ? ? [].
  - destruct (get_json rp x k0) as [e|j] eqn:Ej; [discriminate|]. simpl in Hrun.
    destruct (json_items h j) as [e|info0] eqn:Ei; [discriminate|]. simpl in Hrun.
    destruct (cpac_provenance info0) as [e|p0]; [discriminate|]. simpl in Hrun.
    destruct (cpac_variant info0) as [e|v0] eqn:Ev; [discriminate|]. simpl in Hrun.
    destruct (add_variants (default [] v0) known) as [e|known1] eqn:Ea;
      [discriminate|]. simpl in Hrun.
    destruct (sub_pool_of h rp x keys known1) as [e|[pool1 known2]] eqn:Es;
      [discriminate|]. simpl in Hrun. inversion Hrun; subst; clear Hrun.
    destruct (add_variants_incl _ _ _ Ea) as [Hi1 Hv1].
    destruct (IH _ _ _ Es) as [Hi2 Hv2]. split.
    + intros t Ht. auto.
    + intros k e l info dv label tags [<- | Hin] Hne Hk Hl Hh Hcv Htags.
      * rewrite (get_json_entry _ _ _ _ _ _ HL Hk Hl Hne) in Ej.
        inversion Ej; subst. simpl in Ei. rewrite Hh in Ei.
        inversion Ei; subst. rewrite Hcv in Ev. inversion Ev; subst.
        intros t Ht. apply Hi2. eapply Hv1; eauto.
      * eapply Hv2; eauto.
Qed.

Lemma gather_keeps h rp x rl : forall vp0 tp vp reg0,
  gather h rp rl vp0 = Ok (tp, vp) ->
  dget x vp0 = Some reg0 ->
  exists reg, dget x vp = Some reg /\ incl reg0 reg.
Proof.
  induction rl as [|r rl IH]; intros vp0 tp vp reg0 Hrun Hreg; simpl in Hrun.
  - inversion Hrun; subst. exists reg0. split; [assumption | apply incl_refl].
  - destruct (fetch rp r) as [e|[[L name]|]] eqn:Ef; [discriminate| |];
      simpl in Hrun; [|eauto].
    destruct (sub_pool_of h rp name (dkeys L) (default [] (dget name vp0)))
      as [e|[pool known']] eqn:Es; [discriminate|]. simpl in Hrun.
    destruct (gather h rp rl (dset name known' vp0)) as [e|[tp1 vp1]] eqn:Eg;
      [discriminate|]. simpl in Hrun. inversion Hrun; subst; clear Hrun.
    destruct (String.eqb_spec name x) as [->|Hne].
    + destruct (IH _ _ _ known' Eg) as (reg & Hr & Hi); [apply dget_dset_eq|].
      exists reg. split; [assumption|].
      assert (HL : exists L', dget x rp = Some L').
      { revert Ef. unfold fetch. destruct r as [r|alts]; simpl.
        - destruct (dget r rp) as [d|] eqn:Ed; simpl; [|discriminate].
          destruct d; [discriminate|]. intros H. inversion H; subst. eauto.
        - induction alts as [|a alts IHa]; simpl; [discriminate|].
          destruct (dget a rp) as [d|] eqn:Ed; simpl; [|exact IHa].
          destruct d; [discriminate|]. intros H. inversion H; subst. eauto. }
      destruct HL as [L' HL].
      destruct (sub_pool_of_registry _ _ _ _ _ _ _ _ HL Es) as [Hi0 _].
      rewrite Hreg in Hi0. simpl in Hi0. intros t Ht. auto.
    + eapply IH; [exact Eg|]. now rewrite dget_dset_ne.
Qed.

Lemma gather_registry h rp x kv L rl : forall vp0 tp vp,
  gather h rp rl vp0 = Ok (tp, vp) ->
  In (Name x) rl ->
  dget x rp = Some (kv :: L) ->
  forall k e l info dv label tags,
    dget k (kv :: L) = Some e -> k <> EmptyString -> json e = Some l ->
    h !! l = Some info -> cpac_variant info = Ok (Some dv) ->
    In (label, VList tags) dv ->
    exists reg, dget x vp = Some reg /\ incl tags reg.
Proof.
  induction rl as [|r rl IH]; intros vp0 tp vp Hrun Hin HL; [destruct Hin|].
  intros k e l info dv label tags Hk Hne Hl Hh Hcv Htags.
  cbn [gather] in Hrun. destruct Hin as [-> | Hin].
  - assert (Hf : fetch rp (Name x) = Ok (Some (kv :: L, x)))
      by (unfold fetch; simpl; now rewrite HL).
    rewrite Hf in Hrun. cbn [rbind] in Hrun.
    destruct (sub_pool_of h rp x (dkeys (kv :: L)) (default [] (dget x vp0)))
      as [err|[pool known']] eqn:Es; [discriminate|]. cbn [rbind fst snd] in Hrun.
    destruct (gather h rp rl (dset x known' vp0)) as [err|[tp1 vp1]] eqn:Eg;
      [discriminate|]. cbn [rbind fst snd] in Hrun.
    inversion Hrun; subst; clear Hrun.
    destruct (sub_pool_of_registry _ _ _ _ _ _ _ _ HL Es) as [_ Hv].
    destruct (gather_keeps _ _ x _ _ _ _ known' Eg) as (reg & Hr & Hi);
      [apply dget_dset_eq|].
    exists reg. split; [assumption|]. intros t Ht. apply Hi.
    eapply (Hv k e l info dv label tags); eauto.
    apply list_elem_of_In, dmem_true. unfold dmem. now rewrite Hk.
  - destruct (fetch rp r) as [err|[[L0 name]|]] eqn:Ef; [discriminate| |];
      cbn [rbind] in Hrun.
    + destruct (sub_pool_of h rp name (dkeys L0) (default [] (dget name vp0)))
        as [err|[pool known']] eqn:Es; [discriminate|]. cbn [rbind fst snd] in Hrun.
      destruct (gather h rp rl (dset name known' vp0)) as [err|[tp1 vp1]] eqn:Eg;
        [discriminate|]. cbn [rbind fst snd] in Hrun.
      inversion Hrun; subst; clear Hrun.
      eapply IH; eauto.
    + eapply IH; eauto.
Qed.

Lemma fetch_some rp r d name :
  fetch rp r = Ok (Some (d, name)) ->
  exists kv L, d = kv :: L /\ dget name rp = Some d.
Proof.
  unfold fetch. destruct r as [r|alts]; simpl.
  - destruct (dget r rp) as [d0|] eqn:Ed; simpl; [|discriminate].
    destruct d0 as [|kv L]; [discriminate|]. intros H. inversion H; subst. eauto.
  - induction alts as [|a alts IH]; simpl; [discriminate|].
    destruct (dget a rp) as [d0|] eqn:Ed; simpl; [|exact IH].
    destruct d0 as [|kv L]; [discriminate|]. intros H. inversion H; subst. eauto.
Qed.

Lemma fetch_linked_present rp labels : forall linked x,
  fetch_linked rp labels = Ok linked -> In x linked ->
  exists kv L, dget x rp = Some (kv :: L).
Proof.
  induction labels as [|label labels IH]; intros linked x Hrun Hin; simpl in Hrun.
  - inversion Hrun; subst. destruct Hin.
  - destruct (fetch rp label) as [e|f] eqn:Ef; [discriminate|]. simpl in Hrun.
    destruct (fetch_linked rp labels) as [e|linked'] eqn:El; [discriminate|].
    simpl in Hrun. inversion Hrun; subst; clear Hrun.
    destruct f as [[d name]|]; [|eauto].
    destruct Hin as [<- | Hin]; [|eauto].
    destruct (fetch_some _ _ _ _ Ef) as (kv & L & -> & Hd). eauto.
Qed.

Lemma collect_inputs_linked rp resources : forall rl lk linked x,
  collect_inputs rp resources = Ok (rl, lk) ->
  In linked lk -> In x linked ->
  In (Name x) rl /\ exists kv L, dget x rp = Some (kv :: L).
Proof.
  induction resources as [|[r|labels] resources IH];
    intros rl lk linked x Hrun Hl Hx; simpl in Hrun.
  - inversion Hrun; subst. destruct Hl.
  - destruct (collect_inputs rp resources) as [e|[rl' lk']] eqn:Ec; [discriminate|].
    simpl in Hrun. inversion Hrun; subst; clear Hrun.
    destruct (IH _ _ _ _ eq_refl Hl Hx) as [Hin Hp]. split; [now right | assumption].
  - destruct (fetch_linked rp labels) as [e|linked'] eqn:El; [discriminate|].
    simpl in Hrun.
    destruct (collect_inputs rp resources) as [e|[rl' lk']] eqn:Ec; [discriminate|].
    simpl in Hrun. inversion Hrun; subst; clear Hrun.
    assert (Hcase : linked = linked' \/ In linked lk').
    { destruct (Nat.ltb (length linked') 2); [now right|].
      destruct Hl as [<- | Hl]; [now left | now right]. }
    destruct Hcase as [-> | Hl'].
    + split; [|eapply fetch_linked_present; eauto].
      apply in_or_app. left. now apply in_map.
    + destruct (IH _ _ _ _ eq_refl Hl' Hx) as [Hin Hp].
      split; [apply in_or_app; now right | assumption].
Qed.

Lemma json_dct_of_lookup rp t : forall acc jd x j,
  json_dct_of rp t acc = Ok jd -> dget x jd = Some j ->
  dget x acc = Some j \/
  exists p k, In p t /\ generate_prov_string p = Ok (x, k) /\
              get_json rp x k = Ok j.
Proof.
  induction t as [|p t IH]; intros acc jd x j Hrun Hx; simpl in Hrun.
  - inversion Hrun; subst. now left.
  - destruct (generate_prov_string p) as [e|[name k]] eqn:Eg; [discriminate|].
    simpl in Hrun.
    destruct (get_json rp name k) as [e|sj] eqn:Ej; [discriminate|]. simpl in Hrun.
    destruct (IH _ _ _ _ Hrun Hx) as [Hacc | (q & k' & Hq & Hg & Hj)].
    + destruct (String.eqb_spec name x) as [->|Hne].
      * rewrite dget_dset_eq in Hacc. inversion Hacc; subst.
        right. exists p, k. split_and!; auto. now left.
      * rewrite dget_dset_ne in Hacc by assumption. now left.
    + right. exists q, k'. split_and!; auto. now right.
Qed.

Lemma get_json_inv rp x k j :
  get_json rp x k = Ok j -> k <> EmptyString ->
  exists L e l, dget x rp = Some L /\ dget k L = Some e /\
                json e = Some l /\ j = JsonAt l.
Proof.
  unfold get_json. destruct (dget x rp) as [L|]; [|discriminate].
  destruct k as [|c k]; [congruence|].
  destruct (dget (String c k) L) as [e|] eqn:Ee; [|discriminate].
  destruct (json e) as [l|] eqn:El; [|discriminate].
  intros H _. inversion H; subst. exists L, e, l. auto.
Qed.

(** *** The loop over the combinations *)

Lemma preserves_deref {X} (proj : state -> X) l : preserves proj (deref l).
Proof. intros s. unfold deref. now destruct (heap s !! l). Qed.

Lemma merge_one_preserves {X} (proj : state -> X) idx p acc :
  (forall f s, proj (with_pipe_list f s) = proj s) ->
  preserves proj (merge_one idx p acc).
Proof.
  intros H. unfold merge_one. destruct acc as [sp m].
  apply preserves_bind; [auto with frame|]. intros [resource strat].
  apply preserves_bind; [auto with frame|]. intros rp.
  apply preserves_bind; [auto with frame|]. intros e.
  apply preserves_bind; [auto with frame|]. intros _.
  apply preserves_bind; [auto with frame|]. intros l.
  apply preserves_bind; [apply preserves_deref|]. intros info.
  apply preserves_bind; [auto with frame|]. intros v.
  apply preserves_bind.
  - destruct v as [d|]; [|auto with frame].
    destruct (default _ _); auto with frame.
  - intros m'. apply preserves_bind; auto with frame.
Qed.

Lemma merge_all_preserves {X} (proj : state -> X) idx t : forall acc,
  (forall f s, proj (with_pipe_list f s) = proj s) ->
  preserves proj (merge_all idx t acc).
Proof.
  induction t as [|p t IH]; intros acc H; cbn [merge_all]; [auto with frame|].
  apply preserves_bind; [now apply merge_one_preserves | auto].
Qed.

Lemma combine_inv vp lk t ns s ns' s' :
  combine vp lk t ns s = (Ok ns', s') ->
  rpool s' = rpool s /\ extends (heap s) (heap s') /\
  exists jd b,
    json_dct_of (rpool s) t [] = Ok jd /\
    drops (heap s) jd vp lk = Ok b /\
    (b = true -> ns' = ns) /\
    (b = false -> exists sp, ns' = dset (strat_str t) sp ns).
Proof.
  unfold combine. intros Hrun.
  apply bind_ok_inv in Hrun as (rp & s1 & H1 & Hrun).
  unfold gets in H1. inversion H1; subst rp s1; clear H1.
  apply bind_ok_inv in Hrun as (h & s1 & H1 & Hrun).
  unfold gets in H1. inversion H1; subst h s1; clear H1.
  apply bind_ok_inv in Hrun as (jd & s1 & H1 & Hrun).
  unfold lift in H1. inversion H1 as [[Hjd Hs]]; subst s1; clear H1.
  apply bind_ok_inv in Hrun as (b & s1 & H1 & Hrun).
  unfold lift in H1. inversion H1 as [[Hb Hs]]; subst s1; clear H1.
  destruct b.
  - unfold ret in Hrun. inversion Hrun; subst.
    split_and!; [reflexivity | intros l d H; exact H |].
    exists jd, true. split_and!; auto. discriminate.
  - apply bind_ok_inv in Hrun as (l & s1 & H1 & Hrun).
    unfold alloc in H1. inversion H1; subst l s1; clear H1.
    apply bind_ok_inv in Hrun as (r & s2 & H2 & Hrun).
    match type of H2 with
    | merge_all ?i ?t0 ?acc ?s0 = _ =>
        pose proof (merge_all_preserves rpool i t0 acc (fun _ _ => eq_refl) s0) as Hr;
        pose proof (merge_all_preserves heap i t0 acc (fun _ _ => eq_refl) s0) as Hh
    end.
    rewrite H2 in Hr, Hh. simpl in Hr, Hh.
    unfold bind, store_all, modify, ret in Hrun. inversion Hrun; subst; clear Hrun.
    split_and!.
    + simpl. exact Hr.
    + intros l d Hl. simpl. rewrite Hh.
      pose proof (lookup_lt_Some _ _ _ Hl) as Hlt.
      rewrite list_lookup_insert_ne by lia. now apply lookup_app_l_Some.
    + exists jd, false. split_and!; auto; [discriminate | eauto].
Qed.

Lemma extends_trans h1 h2 h3 : extends h1 h2 -> extends h2 h3 -> extends h1 h3.
Proof. intros H12 H23 l d H. auto. Qed.

Lemma combine_all_inv vp lk ts : forall ns s result s' key sp,
  combine_all vp lk ts ns s = (Ok result, s') ->
  dget key result = Some sp ->
  (exists sp0, dget key ns = Some sp0) \/
  exists t h jd,
    In t ts /\ strat_str t = key /\ extends (heap s) h /\
    json_dct_of (rpool s) t [] = Ok jd /\ drops h jd vp lk = Ok false.
Proof.
  induction ts as [|t ts IH]; intros ns s result s' key sp Hrun Hkey;
    cbn [combine_all] in Hrun.
  - unfold ret in Hrun. inversion Hrun; subst. left. eauto.
  - apply bind_ok_inv in Hrun as (ns1 & s1 & H1 & Hrun).
    destruct (combine_inv _ _ _ _ _ _ _ H1)
      as (Hr & Hext & jd & b & Hjd & Hb & Htrue & Hfalse).
    destruct (IH _ _ _ _ _ _ Hrun Hkey)
      as [[sp0 Hin] | (t' & h & jd' & Ht' & Hk & Hext' & Hjd' & Hd')].
    + destruct b.
      * rewrite (Htrue eq_refl) in Hin. left. eauto.
      * destruct (Hfalse eq_refl) as [sp1 ->].
        destruct (String.eqb_spec (strat_str t) key) as [E|Hne].
        -- right. exists t, (heap s), jd. split_and!; auto; [now left|].
           intros l d H. exact H.
        -- rewrite dget_dset_ne in Hin by assumption. left. eauto.
    + right. exists t', h, jd'. split_and!; auto; [now right | |].
      * eapply extends_trans; eauto.
      * now rewrite <- Hr.
Qed.

Lemma gather_one h rp x kv L rl : forall vp0 tp vp,
  gather h rp rl vp0 = Ok (tp, vp) ->
  In (Name x) rl -> dget x rp = Some (kv :: L) ->
  1 <= length tp.
Proof.
  induction rl as [|r rl IH]; intros vp0 tp vp Hrun Hin HL; [destruct Hin|].
  cbn [gather] in Hrun.
  destruct (fetch rp r) as [err|[[L0 name]|]] eqn:Ef; [discriminate| |];
    cbn [rbind] in Hrun.
  - destruct (sub_pool_of h rp name (dkeys L0) (default [] (dget name vp0)))
      as [err|[pool known']]; [discriminate|]. cbn [rbind fst snd] in Hrun.
    destruct (gather h rp rl (dset name known' vp0)) as [err|[tp1 vp1]];
      [discriminate|]. cbn [rbind fst snd] in Hrun.
    inversion Hrun; subst. simpl. lia.
  - destruct Hin as [-> | Hin]; [|eauto].
    unfold fetch in Ef. simpl in Ef. rewrite HL in Ef. discriminate.
Qed.

Lemma gather_two h rp x y kvx Lx kvy Ly rl : forall vp0 tp vp,
  gather h rp rl vp0 = Ok (tp, vp) ->
  In (Name x) rl -> In (Name y) rl -> x <> y ->
  dget x rp = Some (kvx :: Lx) -> dget y rp = Some (kvy :: Ly) ->
  2 <= length tp.
Proof.
  induction rl as [|r rl IH]; intros vp0 tp vp Hrun Hx Hy Hne HLx HLy;
    [destruct Hx|].
  cbn [gather] in Hrun.
  destruct (fetch rp r) as [err|[[L0 name]|]] eqn:Ef; [discriminate| |];
    cbn [rbind] in Hrun.
  - destruct (sub_pool_of h rp name (dkeys L0) (default [] (dget name vp0)))
      as [err|[pool known']]; [discriminate|]. cbn [rbind fst snd] in Hrun.
    destruct (gather h rp rl (dset name known' vp0)) as [err|[tp1 vp1]] eqn:Eg;
      [discriminate|]. cbn [rbind fst snd] in Hrun.
    inversion Hrun; subst. simpl.
    destruct Hx as [-> | Hx], Hy as [Hy | Hy].
    + congruence.
    + pose proof (gather_one _ _ _ _ _ _ _ _ _ Eg Hy HLy). lia.
    + subst r. pose proof (gather_one _ _ _ _ _ _ _ _ _ Eg Hx HLx). lia.
    + pose proof (IH _ _ _ Eg Hx Hy Hne HLx HLy). lia.
  - destruct Hx as [-> | Hx].
    { unfold fetch in Ef. simpl in Ef. rewrite HLx in Ef. discriminate. }
    destruct Hy as [-> | Hy].
    { unfold fetch in Ef. simpl in Ef. rewrite HLy in Ef. discriminate. }
    eauto.
Qed.

Lemma dedup_strats_in t ts : forall seen,
  In t (dedup_strats ts seen) -> In t ts.
Proof.
  induction ts as [|t0 ts IH]; intros seen Hin; [destruct Hin|].
  cbn [dedup_strats] in Hin.
  destruct (existsb _ seen); [right; eauto|].
  destruct Hin as [<- | Hin]; [now left | right; eauto].
Qed.

(** X30. The pruning [get_strats] does: when it returns, a candidate
    combination yields no sub-pool if, for two distinct labels [x] and [y]
    of one linked group, the metadata chosen for [x] has [T] as the first
    fork tag of a CpacVariant item, the metadata chosen for [y] does not
    carry [T] although [T] is in the variant registry of [y], and [T] does
    not begin with 'NO-'. *)
Theorem get_strats_prunes_first_tag
  (s s' : state) (resources : list input) (result : pydict strat_pool)
  (strat_list : list (list prov)) (linked : list string) (x y T : string)
  (xjson yjson : jdict) :
  get_strats resources s = (Ok result, s') ->
  In strat_list (candidates s resources) ->
  In linked (linked_groups s resources) ->
  In x linked -> In y linked -> x <> y ->
  chosen_metadata s strat_list x = Some xjson ->
  chosen_metadata s strat_list y = Some yjson ->
  first_tag xjson T ->
  ~ carries yjson T ->
  In T (registry s resources y) ->
  Str.prefix "NO-" T = false ->
  dget (strat_str strat_list) result = None.
Proof.
  intros Hrun Hcand Hlinked Hx Hy Hne Hxj Hyj Hfirst Hcarry Hreg Hno.
  unfold candidates, gathered in Hcand. unfold linked_groups in Hlinked.
  unfold registry, gathered in Hreg.
  unfold get_strats in Hrun.
  apply bind_ok_inv in Hrun as (rp & s1 & H1 & Hrun).
  unfold gets in H1. inversion H1; subst rp s1; clear H1.
  apply bind_ok_inv in Hrun as (h & s1 & H1 & Hrun).
  unfold gets in H1. inversion H1; subst h s1; clear H1.
  apply bind_ok_inv in Hrun as ([rl lk] & s1 & H1 & Hrun).
  unfold lift in H1. inversion H1 as [[Hcollect Hs]]; subst s1; clear H1.
  rewrite Hcollect in Hcand, Hlinked, Hreg. cbn [fst snd] in Hcand, Hlinked, Hreg.
  apply bind_ok_inv in Hrun as ([tp vp] & s1 & H1 & Hrun).
  unfold lift in H1. inversion H1 as [[Hgather Hs]]; subst s1; clear H1.
  rewrite Hgather in Hcand, Hreg. cbn [fst snd] in Hcand, Hreg.
  destruct (collect_inputs_linked _ _ _ _ _ _ Hcollect Hlinked Hx)
    as (Hxin & kvx & Lx & HLx).
  destruct (collect_inputs_linked _ _ _ _ _ _ Hcollect Hlinked Hy)
    as (Hyin & kvy & Ly & HLy).
  pose proof (gather_two _ _ _ _ _ _ _ _ _ _ _ _ Hgather Hxin Hyin Hne HLx HLy)
    as Hlen.
  destruct tp as [|p1 tp1] eqn:Etp; [simpl in Hlen; lia|]. rewrite <- Etp in *.
  replace (Nat.ltb 1 (length tp)) with true in Hrun
    by (symmetry; apply Nat.ltb_lt; lia).
  destruct (dget (strat_str strat_list) result) as [sp|] eqn:Ekey; [|reflexivity].
  exfalso.
  destruct (combine_all_inv _ _ _ _ _ _ _ _ _ Hrun Ekey)
    as [[sp0 Hnil] | (t & h & jd & Ht & Hk & Hext & Hjd & Hdrop)];
    [discriminate|].
  apply strat_str_inj in Hk. subst t.
  unfold chosen_metadata in Hxj, Hyj. rewrite Hjd in Hxj, Hyj.
  destruct (linked_json (heap s) jd x) as [e|xj] eqn:Exj; [discriminate|].
  destruct (linked_json (heap s) jd y) as [e|yj] eqn:Eyj; [discriminate|].
  inversion Hxj; subst xj. inversion Hyj; subst yj. clear Hxj Hyj.
  (* the registry of [x] has the tags of the metadata chosen for [x] *)
  assert (Hxreg : exists xreg, dget x vp = Some xreg /\ In T xreg).
  { destruct Hfirst as (d & label & rest & Hcv & Hin).
    unfold linked_json in Exj.
    destruct (dget x jd) as [j|] eqn:Ej; [|discriminate].
    destruct (json_dct_of_lookup _ _ _ _ _ _ Hjd Ej)
      as [Hacc | (p & k & Hp & Hg & Hget)]; [discriminate|].
    assert (Hkne : k <> EmptyString).
    { apply generate_prov_string_key in Hg. rewrite Hg. apply py_str_not_empty. }
    destruct (get_json_inv _ _ _ _ Hget Hkne) as (L' & e & l & HL' & Hke & Hl & ->).
    rewrite HLx in HL'. inversion HL'; subst L'.
    simpl in Exj. destruct (heap s !! l) as [info|] eqn:Eh; [|discriminate].
    inversion Exj; subst info.
    destruct (gather_registry _ _ _ _ _ _ _ _ _ Hgather Hxin HLx
                k e l xjson d label (T :: rest) Hke Hkne Hl Eh Hcv Hin)
      as (reg & Hr & Hincl).
    exists reg. split; [assumption|]. apply Hincl. now left. }
  destruct Hxreg as (xreg & Hxr & HTx).
  destruct (dget y vp) as [yreg|] eqn:Eyr; [|destruct Hreg]. simpl in Hreg.
  assert (Htrue : false = true).
  { eapply (drops_conflict h jd vp lk linked x y xjson yjson T xreg yreg);
      eauto using linked_json_extends. }
  discriminate.
Qed.

Lemma get_strats_prunes_first_tag_witness :
  let entry_at n l := {| data := Some (n, "outputspec.out"); json := Some l |} in
  let s := {| rpool := [("bold",
                         [("['bold:func_ingress', 'bold:despike']",
                           entry_at "despike" 0)]);
                        ("mask",
                         [("['mask:func_ingress']", entry_at "func_ingress" 1);
                          ("['mask:func_ingress', 'mask:despike']",
                           entry_at "despike" 2)])];
              pipe_list := []; rtable := [];
              heap := [[("CpacProvenance",
                         JProv [PStr "bold:func_ingress"; PStr "bold:despike"]);
                        ("CpacVariant", JVariant [("bold", VList ["despike"])])];
                       [("CpacProvenance", JProv [PStr "mask:func_ingress"])];
                       [("CpacProvenance",
                         JProv [PStr "mask:func_ingress"; PStr "mask:despike"]);
                        ("CpacVariant", JVariant [("mask", VList ["despike"])])]] |} in
  exists result s',
    get_strats [Linked [Name "bold"; Name "mask"]] s = (Ok result, s') /\
    dget (strat_str [[PStr "bold:func_ingress"; PStr "bold:despike"];
                     [PStr "mask:func_ingress"]]) result = None.
Proof.
  intros entry_at s.
  eexists _, _. split; [vm_compute; reflexivity|].
  apply (get_strats_prunes_first_tag s
           (snd (get_strats [Linked [Name "bold"; Name "mask"]] s))
           [Linked [Name "bold"; Name "mask"]] _
           [[PStr "bold:func_ingress"; PStr "bold:despike"];
            [PStr "mask:func_ingress"]]
           ["bold"; "mask"] "bold" "mask" "despike"
           [("CpacProvenance", JProv [PStr "bold:func_ingress"; PStr "bold:despike"]);
            ("CpacVariant", JVariant [("bold", VList ["despike"])])]
           [("CpacProvenance", JProv [PStr "mask:func_ingress"])]).
  - vm_compute. reflexivity.
  - vm_compute. left. reflexivity.
  - vm_compute. left. reflexivity.
  - left. reflexivity.
  - right. left. reflexivity.
  - discriminate.
  - vm_compute. reflexivity.
  - vm_compute. reflexivity.
  - exists [("bold", VList ["despike"])], "bold", [].
    split; [reflexivity | left; reflexivity].
  - intros (d & label & val & H & _). vm_compute in H. discriminate.
  - vm_compute. left. reflexivity.
  - reflexivity.
Defined.

(** C1. The conflict the claim describes is not pruned when the fork tag
    is not the first of its CpacVariant list.  The registry of a resource
    takes every tag of every list ([variant_pool[...] += val]), the tags of
    the chosen lineage are read from the first of every list only
    ([val[0]]): 'bold' carries 'slice_timing' after 'despike', the chosen
    lineage of 'mask' carries 'despike' alone although the registry of
    'mask' has 'slice_timing', and [get_strats] gives the combination a
    sub-pool. *)
Lemma C1_second_tag_not_pruned :
  let entry_at n l := {| data := Some (n, "outputspec.out"); json := Some l |} in
  let bold1 := [("CpacProvenance",
                 JProv [PStr "bold:func_ingress"; PStr "bold:despike";
                        PStr "bold:slice_timing"]);
                ("CpacVariant",
                 JVariant [("bold", VList ["despike"; "slice_timing"])])] in
  let mask1 := [("CpacProvenance",
                 JProv [PStr "mask:func_ingress"; PStr "mask:despike"]);
                ("CpacVariant", JVariant [("mask", VList ["despike"])])] in
  let s1 := {| rpool := [("bold",
                          [("['bold:func_ingress', 'bold:despike', 'bold:slice_timing']",
                            entry_at "slice_timing" 0)]);
                         ("mask",
                          [("['mask:func_ingress', 'mask:despike']",
                            entry_at "despike" 1);
                           ("['mask:func_ingress', 'mask:despike', 'mask:slice_timing']",
                            entry_at "slice_timing" 2)])];
               pipe_list := []; rtable := [];
               heap := [bold1; mask1;
                        [("CpacProvenance",
                          JProv [PStr "mask:func_ingress"; PStr "mask:despike";
                                 PStr "mask:slice_timing"]);
                         ("CpacVariant",
                          JVariant [("mask", VList ["despike"; "slice_timing"])])]] |} in
  let c1 := [[PStr "bold:func_ingress"; PStr "bold:despike"; PStr "bold:slice_timing"];
             [PStr "mask:func_ingress"; PStr "mask:despike"]] in
  let resources := [Linked [Name "bold"; Name "mask"]] in
  In c1 (candidates s1 resources) /\
  In ["bold"; "mask"] (linked_groups s1 resources) /\
  chosen_metadata s1 c1 "bold" = Some bold1 /\
  chosen_metadata s1 c1 "mask" = Some mask1 /\
  carries bold1 "slice_timing" /\
  ~ carries mask1 "slice_timing" /\
  In "slice_timing" (registry s1 resources "mask") /\
  exists result sp,
    fst (get_strats resources s1) = Ok result /\
    dget (strat_str c1) result = Some sp.
Proof.
  intros entry_at bold1 mask1 s1 c1 resources.
  split_and!.
  - vm_compute. left. reflexivity.
  - vm_compute. left. reflexivity.
  - vm_compute. reflexivity.
  - vm_compute. reflexivity.
  - exists [("bold", VList ["despike"; "slice_timing"])], "bold",
      (VList ["despike"; "slice_timing"]).
    split_and!; [reflexivity | left; reflexivity | right; left; reflexivity].
  - intros (d & label & val & H & Hin & Hv). vm_compute in H.
    inversion H; subst d. destruct Hin as [Heq | []].
    inversion Heq; subst. destruct Hv as [Hv | []]; discriminate.
  - vm_compute. do 3 right. left. reflexivity.
  - eexists _, _. split; vm_compute; reflexivity.
Qed.

(** ** The fork tag of a committed output *)




Section Invocations.

Variable block_function :
  string -> strat_pool -> nat -> cval -> result (pydict producer).
Variable enrich : string -> producer -> loc -> string -> nat -> M unit.
Variable cfg : cval.





End Invocations.


(* ================================================================== *)
(** * Further properties of the engine *)

(** ** The flat view of a chain: [flatten_prov] *)

Lemma flatten_prov_PList l : flatten_prov (PList l) = flatten_entries l.
Proof.
  induction l as [|[s|l'] l IH]; [reflexivity| |].
  - change (flatten_prov (PList (PStr s :: l))) with (s :: flatten_prov (PList l)).
    cbn [flatten_entries]. now rewrite IH.
  - change (flatten_prov (PList (PList l' :: l)))
      with (flatten_prov (PList l') ++ flatten_prov (PList l)).
    cbn [flatten_entries]. now rewrite IH.
Qed.

Lemma flatten_entries_app a b :
  flatten_entries (a ++ b) = flatten_entries a ++ flatten_entries b.
Proof.
  induction a as [|[s|l'] a IH]; [reflexivity| |]; cbn [app flatten_entries].
  - now rewrite IH.
  - now rewrite IH, app_assoc.
Qed.

(** X1. [flatten_prov] distributes over the concatenation of chains: the
    flat view of [a + b] is the flat view of [a] followed by that of [b].
    So the flat view of the chain [set_data] stores is the flat view of
    the supplied chain followed by the step of the resource. *)
Theorem flatten_prov_concat (a b : list prov) (resource node_name : string) :
  flatten_prov (PList (a ++ b)) = flatten_prov (PList a) ++ flatten_prov (PList b) /\
  flatten_prov (PList (new_prov resource node_name false a))
  = flatten_prov (PList a) ++ [resource +:+ ":" +:+ node_name].
Proof.
  split.
  - rewrite !flatten_prov_PList. apply flatten_entries_app.
  - unfold new_prov, prov_step. rewrite !flatten_prov_PList, flatten_entries_app.
    reflexivity.
Qed.

(** X2. A chain without nested chains is its own flat view, so flattening
    a flat view again changes nothing. *)
Theorem flatten_prov_flat (l : list string) (p : prov) :
  flatten_prov (PList (map PStr l)) = l /\
  flatten_prov (PList (map PStr (flatten_prov p))) = flatten_prov p.
Proof.
  assert (H : forall l, flatten_prov (PList (map PStr l)) = l).
  { intros l0. rewrite flatten_prov_PList.
    induction l0 as [|x l0 IH]; [reflexivity|]. cbn [map flatten_entries].
    now rewrite IH. }
  split; apply H.
Qed.

Lemma last_app_cons {A} (a : list A) x b : last (a ++ x :: b) = last (x :: b).
Proof.
  induction a as [|y a IH]; [reflexivity|].
  cbn [app]. rewrite <- IH. destruct (a ++ x :: b) eqn:E; [|reflexivity].
  now destruct a.
Qed.

Lemma flatten_entries_cons x l :
  flatten_entries (x :: l) = flatten_prov x ++ flatten_entries l.
Proof. destruct x; reflexivity. Qed.

Lemma last_entry_flat p : forall s,
  last_entry p = Ok s -> last (flatten_prov p) = Some s.
Proof.
  induction p as [s0|l IH] using prov_ind; intros s H.
  - simpl in H. inversion H. reflexivity.
  - rewrite flatten_prov_PList. revert H. cbn [last_entry].
    induction IH as [|x l Hx Hl IHl]; [discriminate|].
    rewrite flatten_entries_cons.
    destruct l as [|y l].
    + intros H. cbn [flatten_entries]. rewrite app_nil_r. now apply Hx.
    + intros H. specialize (IHl H).
      destruct (flatten_entries (y :: l)) as [|z zs] eqn:E; [discriminate|].
      now rewrite last_app_cons.
Qed.

(** X3. The resource [generate_prov_string] names for a chain is the one
    of the last step of its flat view: the part before the colon of the
    last item of [flatten_prov]. *)
Theorem generate_prov_string_flat (l : list prov) (resource key : string) :
  generate_prov_string l = Ok (resource, key) ->
  exists step,
    last (flatten_prov (PList l)) = Some step /\
    resource = Str.split_hd colon step /\
    key = py_str l.
Proof.
  unfold generate_prov_string, get_last_prov_entry.
  destruct (last_entry (PList l)) as [e|step] eqn:E; [discriminate|].
  cbn [rbind]. intros H. inversion H; subst.
  exists step. split; [now apply last_entry_flat | auto].
Qed.

Lemma generate_prov_string_flat_witness :
  exists step,
    last (flatten_prov (PList [PStr "T1w:anat_ingress";
                               PList [PStr "mask:ingress"; PStr "mask:brain_mask"]]))
    = Some step /\
    "mask" = Str.split_hd colon step /\
    "['T1w:anat_ingress', ['mask:ingress', 'mask:brain_mask']]"
    = py_str [PStr "T1w:anat_ingress";
              PList [PStr "mask:ingress"; PStr "mask:brain_mask"]].
Proof.
  apply (generate_prov_string_flat
           [PStr "T1w:anat_ingress";
            PList [PStr "mask:ingress"; PStr "mask:brain_mask"]]).
  reflexivity.
Defined.

(** ** The resources of a chain: [get_resource_strats_from_prov] *)

Lemma last_resource_nameable entry :
  (exists r, last_resource entry = Ok r) <-> nameable (PList entry) = true.
Proof.
  unfold last_resource, nameable.
  destruct (last entry) as [[s|l]|]; split; intros H; try discriminate; eauto;
    destruct H as [r H]; discriminate.
Qed.

Lemma strats_from_entries_defined l : forall acc,
  (exists d, strats_from_entries l acc = Ok d) <-> forallb nameable l = true.
Proof.
  induction l as [|[s|entry] l IH]; intros acc; cbn [strats_from_entries forallb].
  - split; eauto.
  - rewrite IH. cbn [nameable andb]. reflexivity.
  - rewrite andb_true_iff, <- last_resource_nameable.
    destruct (last_resource entry) as [e|r]; cbn [rbind].
    + split; [intros [d H]; discriminate | intros [[r H] _]; discriminate].
    + rewrite IH. split; [eauto | tauto].
Qed.

Lemma strats_from_entries_error l : forall acc e,
  strats_from_entries l acc = Raise e -> e = IndexError \/ e = AttributeError.
Proof.
  induction l as [|[s|entry] l IH]; intros acc e; cbn [strats_from_entries].
  - discriminate.
  - apply IH.
  - unfold last_resource.
    destruct (last entry) as [[s|l']|]; cbn [rbind];
      [apply IH | intros H; inversion H; auto | intros H; inversion H; auto].
Qed.

(** X4. [get_resource_strats_from_prov] returns for a chain exactly when
    every nested chain among its items ends in a string; otherwise it
    raises [IndexError] (an empty nested chain) or [AttributeError] (a
    nested chain that ends in a list). *)
Theorem get_resource_strats_from_prov_defined (l : list prov) :
  ((exists d, get_resource_strats_from_prov (PList l) = Ok d)
   <-> forallb nameable l = true) /\
  (forall e, get_resource_strats_from_prov (PList l) = Raise e ->
             e = IndexError \/ e = AttributeError).
Proof.
  split; [apply strats_from_entries_defined | apply strats_from_entries_error].
Qed.

Lemma strats_from_entries_app a b : forall acc,
  strats_from_entries (a ++ b) acc
  = rbind (strats_from_entries a acc) (strats_from_entries b).
Proof.
  induction a as [|[s|entry] a IH]; intros acc; cbn [app strats_from_entries].
  - reflexivity.
  - apply IH.
  - destruct (last_resource entry) as [e|r]; cbn [rbind]; [reflexivity | apply IH].
Qed.

Lemma dget_dset_inv {V} k k' (v e : V) d :
  dget k' (dset k v d) = Some e -> (k' = k /\ e = v) \/ dget k' d = Some e.
Proof.
  destruct (String.eqb_spec k k') as [->|Hne].
  - rewrite dget_dset_eq. intros H. inversion H. auto.
  - rewrite dget_dset_ne by assumption. auto.
Qed.

Lemma strats_from_entries_items l : forall acc d r e,
  strats_from_entries l acc = Ok d ->
  dget r d = Some e ->
  dget r acc = Some e \/
  (In e l /\ get_resource_from_prov (PList [e]) = Ok (Some r)).
Proof.
  induction l as [|[s|entry] l IH]; intros acc d r e; cbn [strats_from_entries].
  - intros H. inversion H. auto.
  - intros H Hd. destruct (IH _ _ _ _ H Hd) as [Hacc | [Hin Hn]].
    + apply dget_dset_inv in Hacc as [[-> ->] | Hacc]; [|auto].
      right. split; [now left | reflexivity].
    + right. split; [now right | assumption].
  - destruct (last_resource entry) as [x|res] eqn:E; cbn [rbind]; [discriminate|].
    intros H Hd. destruct (IH _ _ _ _ H Hd) as [Hacc | [Hin Hn]].
    + apply dget_dset_inv in Hacc as [[-> ->] | Hacc]; [|auto].
      right. split; [now left|].
      unfold last_resource in E. cbn [get_resource_from_prov last].
      destruct (last entry) as [[s|l']|]; inversion E; reflexivity.
    + right. split; [now right | assumption].
Qed.

(** X5. In the dict [get_resource_strats_from_prov] returns for a chain,
    every value is an item of the chain, filed under the resource that
    item names; and the resource the chain itself names
    ([get_resource_from_prov]) is filed with the last item of the chain. *)
Theorem get_resource_strats_from_prov_items (l : list prov) (d : pydict prov) :
  get_resource_strats_from_prov (PList l) = Ok d ->
  (forall r e, dget r d = Some e ->
               In e l /\ get_resource_from_prov (PList [e]) = Ok (Some r)) /\
  (forall r, get_resource_from_prov (PList l) = Ok (Some r) -> dget r d = last l).
Proof.
  cbn [get_resource_strats_from_prov]. intros H. split.
  - intros r e Hd.
    destruct (strats_from_entries_items _ _ _ _ _ H Hd) as [Hacc|]; [discriminate | assumption].
  - intros r Hr. cbn [get_resource_from_prov] in Hr.
    destruct (last l) as [x|] eqn:El; [|discriminate].
    apply last_Some in El as [a ->].
    rewrite strats_from_entries_app in H.
    destruct (strats_from_entries a []) as [e|d0]; cbn [rbind] in H; [discriminate|].
    destruct x as [s|entry]; cbn [strats_from_entries] in H.
    + inversion H; subst. inversion Hr; subst. apply dget_dset_eq.
    + unfold last_resource in H.
      destruct (last entry) as [[s|l']|]; cbn [rbind] in H; try discriminate.
      inversion H; subst. inversion Hr; subst. apply dget_dset_eq.
Qed.

Lemma get_resource_strats_from_prov_items_witness :
  let l := [PStr "T1w:anat_ingress"; PStr "T1w:anatomical_init";
            PList [PStr "mask:ingress"; PStr "mask:brain_mask"]] in
  let d := [("T1w", PStr "T1w:anatomical_init");
            ("mask", PList [PStr "mask:ingress"; PStr "mask:brain_mask"])] in
  (forall r e, dget r d = Some e ->
               In e l /\ get_resource_from_prov (PList [e]) = Ok (Some r)) /\
  (forall r, get_resource_from_prov (PList l) = Ok (Some r) -> dget r d = last l).
Proof.
  intros l d. apply (get_resource_strats_from_prov_items l d). reflexivity.
Defined.

(** ** The BIDS tags of a resource name: [parse_bids_tags] *)

Lemma ascii_eqb_sym a b : Ascii.eqb a b = Ascii.eqb b a.
Proof.
  destruct (Ascii.eqb_spec a b) as [->|H].
  - now rewrite Ascii.eqb_refl.
  - symmetry. apply Ascii.eqb_neq. congruence.
Qed.

Lemma split_cases c s :
  match Str.split c s with
  | [] => False
  | [_] => Str.mem_char c s = false
  | _ :: _ :: _ => Str.mem_char c s = true
  end.
Proof.
  induction s as [|d s IH]; cbn [Str.split Str.mem_char]; [reflexivity|].
  rewrite (ascii_eqb_sym c d).
  destruct (Ascii.eqb d c); cbn [orb].
  - destruct (Str.split c s) as [|w ws]; [destruct IH | reflexivity].
  - destruct (Str.split c s) as [|w [|w' ws]]; [destruct IH | exact IH | exact IH].
Qed.

Lemma dmem_dset_mono {V} k k' (v : V) d :
  dmem k' d = true -> dmem k' (dset k v d) = true.
Proof.
  unfold dmem. destruct (String.eqb_spec k k') as [->|Hne].
  - now rewrite dget_dset_eq.
  - now rewrite dget_dset_ne.
Qed.

Lemma dmem_dset_eq {V} k (v : V) d : dmem k (dset k v d) = true.
Proof. unfold dmem. now rewrite dget_dset_eq. Qed.

Lemma bids_tag_dct_spec tags : forall d,
  if forallb (Str.mem_char "-") tags
  then exists d', bids_tag_dct tags d = Ok d' /\
                  (forall k, dmem k d = true -> dmem k d' = true) /\
                  (forall tag, In tag tags ->
                               dmem (Str.split_hd "-" tag) d' = true) /\
                  (dict_wf d -> dict_wf d')
  else bids_tag_dct tags d = Raise IndexError.
Proof.
  induction tags as [|tag tags IH]; intros d; cbn [forallb bids_tag_dct].
  - exists d. split_and!; [reflexivity | auto | intros tag [] | auto].
  - pose proof (split_cases "-" tag) as Hs.
    destruct (Str.split "-" tag) as [|k [|v ws]] eqn:E; [destruct Hs | |];
      rewrite Hs; cbn [andb]; [reflexivity|].
    specialize (IH (dset k v d)).
    destruct (forallb (Str.mem_char "-") tags); [|exact IH].
    destruct IH as (d' & Hd' & Hmono & Htags & Hwf).
    exists d'. split_and!; [exact Hd' | | | ].
    + intros k0 Hk0. now apply Hmono, dmem_dset_mono.
    + intros tag0 [<- | Hin]; [|now apply Htags].
      unfold Str.split_hd. rewrite E. apply Hmono, dmem_dset_eq.
    + intros Hd. apply Hwf. now apply dict_wf_dset.
Qed.

(** X6. [parse_bids_tags] returns for a resource name exactly when every
    tag before the last underscore has a hyphen: the type is then the part
    after the last underscore, and the tag dict has the key 'None' and the
    key of every tag.  A tag without hyphen makes it raise [IndexError]. *)
Theorem parse_bids_tags_defined (resource : string) :
  let tags := removelast (Str.split "_" resource) in
  if forallb (Str.mem_char "-") tags
  then exists tag_dct,
         parse_bids_tags resource = Ok (data_type_of resource, tag_dct) /\
         dmem "None" tag_dct = true /\
         forall tag, In tag tags -> dmem (Str.split_hd "-" tag) tag_dct = true
  else parse_bids_tags resource = Raise IndexError.
Proof.
  cbv zeta. unfold parse_bids_tags.
  pose proof (bids_tag_dct_spec (removelast (Str.split "_" resource))
                [("None", "None")]) as H.
  destruct (forallb (Str.mem_char "-") (removelast (Str.split "_" resource))).
  - destruct H as (d' & -> & Hmono & Htags & _). cbn [rbind].
    exists d'. split_and!; [reflexivity | now apply Hmono | exact Htags].
  - now rewrite H.
Qed.

(** ** Relations the methods keep between the state before and after *)

Section Keeps.
Variable R : state -> state -> Prop.
Hypothesis R_refl : forall s, R s s.
Hypothesis R_trans : forall s1 s2 s3, R s1 s2 -> R s2 s3 -> R s1 s3.

Lemma keeps_ret {A} (a : A) : keeps R (ret a).
Proof. intros s. apply R_refl. Qed.

Lemma keeps_raise {A} e : keeps R (@raise A e).
Proof. intros s. apply R_refl. Qed.

Lemma keeps_lift {A} (r : result A) : keeps R (lift r).
Proof. intros s. apply R_refl. Qed.

Lemma keeps_gets {A} (f : state -> A) : keeps R (gets f).
Proof. intros s. apply R_refl. Qed.

Lemma keeps_modify f : (forall s, R s (f s)) -> keeps R (modify f).
Proof. intros H s. apply H. Qed.

Lemma keeps_bind {A B} (m : M A) (f : A -> M B) :
  keeps R m -> (forall a, keeps R (f a)) -> keeps R (bind m f).
Proof.
  intros Hm Hf s. unfold bind. specialize (Hm s).
  destruct (m s) as [[e|a] s1]; [exact Hm|].
  eapply R_trans; [exact Hm | apply Hf].
Qed.

Lemma keeps_for_each {A} (l : list A) body :
  (forall a, keeps R (body a)) -> keeps R (for_each l body).
Proof.
  intros H. induction l as [|x l IH]; [apply keeps_ret|].
  cbn [for_each]. apply keeps_bind; auto.
Qed.

End Keeps.

(** ** [set_data] and the ordinals of the lineage keys *)

Lemma alloc_preserves {X} (proj : state -> X) d :
  (forall f s, proj (with_heap f s) = proj s) -> preserves proj (alloc d).
Proof. intros H s. unfold alloc. cbn [snd]. apply H. Qed.

Lemma store_item_preserves {X} (proj : state -> X) l k v :
  (forall f s, proj (with_heap f s) = proj s) -> preserves proj (store_item l k v).
Proof.
  intros H. unfold store_item.
  apply preserves_bind; [apply preserves_deref|]. intros d. auto with frame.
Qed.

Lemma copy_info_preserves {X} (proj : state -> X) r j nn i :
  (forall f s, proj (with_heap f s) = proj s) -> preserves proj (copy_info r j nn i).
Proof.
  intros H. unfold copy_info.
  apply preserves_bind; [apply preserves_deref|]. intros info.
  apply preserves_bind; [now apply alloc_preserves|]. intros j'.
  apply preserves_bind; [auto with frame|]. intros p.
  apply preserves_bind.
  { destruct (generate_prov_string _) as [[]|]; auto with frame. }
  intros rk. apply preserves_bind.
  { destruct info; [now apply alloc_preserves | auto with frame]. }
  intros j''. apply preserves_bind; [now apply store_item_preserves|].
  intros _. auto with frame.
Qed.

Lemma evict_preserves {X} (proj : state -> X) r c k f :
  (forall g s, proj (with_rpool g s) = proj s) -> preserves proj (evict r c k f).
Proof.
  intros H. unfold evict. apply preserves_bind; [auto with frame|]. intros rp.
  destruct (dget r rp) as [entries|]; [destruct f|]; auto with frame.
  apply preserves_bind; [auto with frame|]. intros k'.
  destruct (dmem k' entries); auto with frame.
Qed.

Lemma store_preserves {X} (proj : state -> X) r k n o j :
  (forall g s, proj (with_rpool g s) = proj s) -> preserves proj (store r k n o j).
Proof. intros H. unfold store. auto with frame. Qed.

Lemma reserve_pipe_list r key s :
  pipe_list (snd (reserve r key s))
  = if mem key (pipe_list s) then pipe_list s else pipe_list s ++ [key].
Proof.
  unfold reserve, bind, gets, modify, mem, ret. cbn [fst snd].
  destruct (dmem key _); cbn [fst snd pipe_list with_rpool];
    destruct (existsb (String.eqb key) (pipe_list s)); reflexivity.
Qed.

Lemma insert_entry_pipe_list r n o j k f c key s :
  let out := insert_entry r n o j k f c key s in
  (pipe_list (snd out) = pipe_list s \/
   (~ In key (pipe_list s) /\ pipe_list (snd out) = pipe_list s ++ [key])) /\
  (fst out = Ok tt -> In key (pipe_list (snd out))).
Proof.
  cbv zeta. unfold insert_entry, bind.
  pose proof (evict_preserves pipe_list r c k f (fun _ _ => eq_refl) s) as H1.
  destruct (evict r c k f s) as [[e|[]] s1]; cbn [fst snd] in *.
  { split; [now left | discriminate]. }
  pose proof (reserve_pipe_list r key s1) as H2. rewrite H1 in H2.
  destruct (reserve r key s1) as [[e|[]] s2]; cbn [fst snd] in *.
  { split; [|discriminate].
    destruct (mem key (pipe_list s)) eqn:E; [now left|].
    right. split; [|assumption]. rewrite <- mem_true. congruence. }
  pose proof (register_preserves pipe_list r (fun _ _ => eq_refl) s2) as H3.
  assert (Hin : In key (pipe_list s2)).
  { rewrite H2. destruct (mem key (pipe_list s)) eqn:E.
    - now apply mem_true.
    - apply in_or_app. right. now left. }
  assert (Hcase : pipe_list s2 = pipe_list s \/
                  (~ In key (pipe_list s) /\ pipe_list s2 = pipe_list s ++ [key])).
  { destruct (mem key (pipe_list s)) eqn:E; [now left|].
    right. split; [|assumption]. rewrite <- mem_true. congruence. }
  destruct (register r s2) as [[e|[]] s3]; cbn [fst snd] in *.
  { rewrite H3. split; [assumption | discriminate]. }
  pose proof (store_preserves pipe_list r key n o j (fun _ _ => eq_refl) s3) as H4.
  rewrite H4, H3. split; [assumption | auto].
Qed.

Lemma index_of_app x l a n :
  index_of x l = Some n -> index_of x (l ++ a) = Some n.
Proof.
  revert n. induction l as [|y l IH]; intros n; cbn [index_of app]; [discriminate|].
  destruct (String.eqb x y); [auto|].
  destruct (index_of x l) as [m|]; [|discriminate].
  intros H. now rewrite (IH m eq_refl).
Qed.

Lemma index_of_In x l : In x l -> exists n, index_of x l = Some n.
Proof.
  induction l as [|y l IH]; [intros []|]. cbn [index_of].
  destruct (String.eqb_spec x y) as [->|Hne]; [eauto|].
  intros [Heq | Hin]; [congruence|].
  destruct (IH Hin) as [n ->]. eauto.
Qed.

Lemma get_pipe_number_eq idx s :
  get_pipe_number idx s
  = (match index_of idx (pipe_list s) with
     | Some n => Ok n
     | None => Raise ValueError
     end, s).
Proof.
  unfold get_pipe_number, bind, gets. cbn [fst snd].
  destruct (index_of idx (pipe_list s)); reflexivity.
Qed.

Lemma set_data_pipe_list_cases r n o j k nn f i s :
  let out := set_data r n o j k nn f i s in
  (pipe_list (snd out) = pipe_list s \/
   exists key, ~ In key (pipe_list s) /\ pipe_list (snd out) = pipe_list s ++ [key]) /\
  (forall info p, heap s !! j = Some info -> prov_of info = Ok p ->
                  fst out = Ok tt ->
                  In (py_str (new_prov r nn i p)) (pipe_list (snd out))).
Proof.
  cbv zeta. split.
  - rewrite set_data_eq.
    pose proof (copy_info_preserves pipe_list r j nn i (fun _ _ => eq_refl) s) as H1.
    destruct (copy_info r j nn i s) as [[e|[[j' c] key]] s1]; cbn [snd] in H1.
    + now left.
    + destruct (insert_entry_pipe_list r n o j' k f c key s1) as [[H|[Hn H]] _];
        rewrite H1 in *; [now left | right; eauto].
  - intros info p Hj Hp. rewrite set_data_eq, (copy_info_eq _ _ _ _ _ _ _ Hj Hp).
    cbv zeta.
    destruct (get_last_prov_entry (new_prov r nn i p)); [discriminate|].
    destruct info; apply insert_entry_pipe_list.
Qed.

(** X7. [set_data] only ever adds to [pipe_list], at most one key that
    was not in it, at its end: the ordinal [get_pipe_number] gives a
    lineage key is the same after the call, whether the call returns or
    raises, and no key comes to be listed twice.  When the call returns,
    the key of the entry it stored has an ordinal. *)
Theorem set_data_pipe_numbers
  (resource node output : string) (json_info : loc) (pipe_idx node_name : string)
  (fork inject : bool) (s : state) :
  let out := set_data resource node output json_info pipe_idx node_name
               fork inject s in
  (forall idx n, fst (get_pipe_number idx s) = Ok n ->
                 fst (get_pipe_number idx (snd out)) = Ok n) /\
  (NoDup (pipe_list s) -> NoDup (pipe_list (snd out))) /\
  (forall info p, heap s !! json_info = Some info -> prov_of info = Ok p ->
                  fst out = Ok tt ->
                  exists n, fst (get_pipe_number
                                   (py_str (new_prov resource node_name inject p))
                                   (snd out)) = Ok n).
Proof.
  cbv zeta.
  destruct (set_data_pipe_list_cases resource node output json_info pipe_idx
              node_name fork inject s) as [Hcases Hkey].
  cbv zeta in Hcases, Hkey. split_and!.
  - intros idx n. rewrite !get_pipe_number_eq. cbn [fst].
    destruct (index_of idx (pipe_list s)) as [m|] eqn:E; [|discriminate].
    intros H. inversion H; subst m.
    destruct Hcases as [-> | (key & _ & ->)]; [now rewrite E|].
    now rewrite (index_of_app _ _ _ _ E).
  - intros Hnd. destruct Hcases as [-> | (key & Hn & ->)]; [assumption|].
    apply NoDup_app. split_and!; [assumption | | apply NoDup_singleton].
    intros x Hx Hx'. apply list_elem_of_singleton in Hx'. subst x.
    apply Hn. now apply list_elem_of_In.
  - intros info p Hj Hp Hok. rewrite get_pipe_number_eq. cbn [fst].
    destruct (index_of_In _ _ (Hkey info p Hj Hp Hok)) as [n ->]. eauto.
Qed.

(** ** The pool stays keyed by lineage *)

Lemma keyed_entries s r k e l :
  keyed_by_lineage s ->
  dget k (entries_of r s) = Some e -> json e = Some l ->
  exists info p, heap s !! l = Some info /\ cpac_provenance info = Ok p /\ k = py_str p.
Proof.
  intros Hinv. unfold entries_of.
  destruct (dget r (rpool s)) as [L|] eqn:E; [|discriminate].
  cbn [default]. intros Hk Hl. eapply Hinv; eassumption.
Qed.

Lemma keyed_extends s s' :
  keyed_by_lineage s -> rpool s' = rpool s -> extends (heap s) (heap s') ->
  keyed_by_lineage s'.
Proof.
  intros Hinv Hrp Hext r L k e l HL Hk Hl. rewrite Hrp in HL.
  destruct (Hinv r L k e l HL Hk Hl) as (info & p & Hh & Hp & Hkey).
  exists info, p. auto.
Qed.

Lemma extends_app h a : extends h (h ++ a).
Proof. intros l d H. now apply lookup_app_l_Some. Qed.

Lemma dget_ddel_Some {V} k k' (d : pydict V) e :
  dget k (ddel k' d) = Some e -> dget k d = Some e.
Proof.
  destruct (String.eqb_spec k' k) as [->|Hne].
  - now rewrite dget_ddel_eq.
  - now rewrite dget_ddel_ne.
Qed.

Lemma insert_entry_other r r' n o j k f c key :
  r <> r' -> preserves (fun s => dget r' (rpool s)) (insert_entry r n o j k f c key).
Proof.
  intros Hne. unfold insert_entry.
  assert (Hset : forall E s, dget r' (rpool (with_rpool (dset r E) s)) = dget r' (rpool s)).
  { intros E s. cbn [rpool with_rpool]. now apply dget_dset_ne. }
  assert (Hupd : forall k0 g s,
             dget r' (rpool (with_rpool (update_entry r k0 g) s)) = dget r' (rpool s)).
  { intros k0 g s. cbn [rpool with_rpool]. unfold update_entry. now apply dget_dset_ne. }
  apply preserves_bind.
  { unfold evict. apply preserves_bind; [auto with frame|]. intros rp.
    destruct (dget r rp) as [entries|]; [destruct f|]; auto with frame.
    apply preserves_bind; [auto with frame|]. intros k'.
    destruct (dmem k' entries); auto with frame. }
  intros _. apply preserves_bind.
  { unfold reserve. apply preserves_bind; [auto with frame|]. intros rp.
    apply preserves_bind; [destruct (dmem _ _); auto with frame|].
    intros _. apply preserves_bind; [auto with frame|]. intros pl.
    destruct (existsb _ _); auto with frame. }
  intros _. apply preserves_bind.
  { apply (register_preserves (fun s => dget r' (rpool s))). reflexivity. }
  intros _. unfold store. auto with frame.
Qed.

Lemma insert_entry_keyed r n o j k f c p s info :
  keyed_by_lineage s ->
  heap s !! j = Some info -> cpac_provenance info = Ok p ->
  keyed_by_lineage (snd (insert_entry r n o j k f c (py_str p) s)).
Proof.
  intros Hinv Hj Hp r0 L k0 e l HL Hk Hl.
  rewrite (insert_entry_heap r n o j k f c (py_str p) s).
  destruct (String.eqb_spec r r0) as [<-|Hne].
  - assert (HE : dget k0 (entries_of r (snd (insert_entry r n o j k f c (py_str p) s)))
                 = Some e).
    { unfold entries_of. now rewrite HL. }
    pose proof (insert_entry_entries r n o j k f c (py_str p) s) as He.
    cbv zeta in He.
    assert (Hsub : forall E1,
               (E1 = entries_of r s \/
                f = false /\ exists k', dmem k' (entries_of r s) = true /\
                                        E1 = ddel k' (entries_of r s)) ->
               dget k0 E1 = Some e ->
               exists info0 p0, heap s !! l = Some info0 /\
                                cpac_provenance info0 = Ok p0 /\ k0 = py_str p0).
    { intros E1 [-> | (_ & k' & _ & ->)] H1.
      - eapply keyed_entries; eassumption.
      - apply dget_ddel_Some in H1. eapply keyed_entries; eassumption. }
    assert (Hres : forall E1,
               dget k0 (reserved (py_str p) E1) = Some e -> dget k0 E1 = Some e).
    { intros E1. unfold reserved. destruct (dmem (py_str p) E1); [auto|].
      intros H1. apply dget_dset_inv in H1 as [[-> ->] | H1]; [|assumption].
      discriminate. }
    destruct He as [(_ & _ & He) | (E1 & HE1 & [[_ He] | [_ He]])];
      rewrite He in HE.
    + eapply keyed_entries; eassumption.
    + apply (Hsub E1 HE1), Hres, HE.
    + destruct (String.eqb_spec (py_str p) k0) as [<-|Hk0].
      * rewrite dget_committed in HE. inversion HE; subst e.
        cbn [json] in Hl. inversion Hl; subst l. eauto.
      * rewrite dget_committed_ne in HE by assumption.
        apply (Hsub E1 HE1), Hres, HE.
  - pose proof (insert_entry_other r r0 n o j k f c (py_str p) Hne s) as Ho.
    cbv beta in Ho. rewrite Ho in HL. eapply Hinv; eassumption.
Qed.

(** X8. [set_data] keeps the pool keyed by lineage: if the key of every
    entry that has metadata is the string form of the CpacProvenance held
    in that metadata, the same is true after the call, whether it returns
    or raises. *)
Theorem set_data_keyed_by_lineage
  (resource node output : string) (json_info : loc) (pipe_idx node_name : string)
  (fork inject : bool) (s : state) :
  keyed_by_lineage s ->
  keyed_by_lineage (snd (set_data resource node output json_info pipe_idx node_name
                           fork inject s)).
Proof.
  intros Hinv.
  destruct (heap s !! json_info) as [info|] eqn:Hj.
  2:{ unfold set_data, bind, copy_info, bind, deref. now rewrite Hj. }
  rewrite set_data_eq.
  destruct (prov_of info) as [e|p] eqn:Hp.
  { rewrite (copy_info_ill_typed _ _ _ _ _ _ _ Hj Hp). cbn [snd].
    eapply keyed_extends; [exact Hinv | reflexivity | apply extends_app]. }
  rewrite (copy_info_eq _ _ _ _ _ _ _ Hj Hp). cbv zeta.
  destruct (get_last_prov_entry (new_prov resource node_name inject p)) as [e|x].
  { cbn [snd]. eapply keyed_extends; [exact Hinv | reflexivity | apply extends_app]. }
  pose proof (lookup_lt_Some _ _ _ Hj) as Hlt.
  destruct info as [|kv info].
  - eapply insert_entry_keyed.
    + eapply keyed_extends; [exact Hinv | reflexivity | apply extends_app].
    + cbn [heap with_heap]. rewrite (lookup_app_r (heap s) [_; _]) by lia.
      replace (S (length (heap s)) - length (heap s)) with 1 by lia. reflexivity.
    + reflexivity.
  - eapply insert_entry_keyed.
    + eapply keyed_extends; [exact Hinv | reflexivity | apply extends_app].
    + cbn [heap with_heap]. rewrite (lookup_app_r (heap s) [_]) by lia.
      rewrite Nat.sub_diag. reflexivity.
    + unfold cpac_provenance. now rewrite dget_dset_eq.
Qed.

Lemma set_data_keyed_by_lineage_witness :
  keyed_by_lineage
    (snd (set_data "desc-preproc_T1w" "anat_init" "outputspec.out" 1 EmptyString
            "anatomical_init" false false
            (snd (set_data "T1w" "anat_ingress" "outputspec.data" 0 EmptyString
                    "anat_ingress" false false
                    {| rpool := []; pipe_list := []; rtable := [];
                       heap := [[]] |})))).
Proof.
  apply set_data_keyed_by_lineage, set_data_keyed_by_lineage.
  intros r L k e l H. discriminate.
Defined.

(** ** Looking up what [set_data] stored *)

Lemma truthy_key p : truthy (Some (py_str p)) = Some (py_str p).
Proof. unfold py_str. rewrite repr_PList. reflexivity. Qed.

Lemma entries_of_Some r s k e :
  dget k (entries_of r s) = Some e ->
  exists L, dget r (rpool s) = Some L /\ dget k L = Some e.
Proof.
  unfold entries_of. destruct (dget r (rpool s)) as [L|]; [eauto | discriminate].
Qed.

Lemma get_json_key rp r p L e l :
  dget r rp = Some L -> dget (py_str p) L = Some e -> json e = Some l ->
  get_json rp r (py_str p) = Ok (JsonAt l).
Proof.
  intros HL He Hl. unfold get_json. rewrite HL.
  pose proof (py_str_not_empty p) as Hne.
  destruct (py_str p) as [|c k]; [congruence|]. now rewrite He, Hl.
Qed.

(** X9. What [set_data] stored can be looked up: when the call returns,
    the resource is in the pool ([check_rpool]), the new lineage key is
    among its keys ([get_pipe_idxs]), [get_data] with that key gives the
    producer that was passed in, [get_cpac_provenance] gives the new
    chain, and [generate_prov_list] decodes the key to that chain. *)
Theorem set_data_then_lookup
  (resource node output : string) (json_info : loc) (pipe_idx node_name : string)
  (fork inject : bool) (s s' : state) (info : jdict) (p : list prov) :
  heap s !! json_info = Some info ->
  prov_of info = Ok p ->
  set_data resource node output json_info pipe_idx node_name fork inject s
  = (Ok tt, s') ->
  let chain := new_prov resource node_name inject p in
  let key := py_str chain in
  check_rpool (rpool s') (Name resource) = true /\
  (exists keys, get_pipe_idxs (rpool s') resource = Ok keys /\ In key keys) /\
  get_data (rpool s') (Name resource) (Some key) false false
  = Ok (DPlain (DProducer (node, output))) /\
  get_cpac_provenance (heap s') (rpool s') resource key = Ok chain /\
  generate_prov_list key = Ok (PList chain).
Proof.
  intros Hj Hp Hrun chain key.
  destruct (set_data_effect resource node output json_info pipe_idx node_name
              fork inject s info Hj) as [_ H].
  rewrite Hrun in H. cbn [fst snd] in H.
  destruct (H p Hp eq_refl) as (l & info' & _ & He & Hl & Hprov & _).
  fold chain in He, Hprov. fold key in He.
  destruct (entries_of_Some _ _ _ _ He) as (L & HL & HkL).
  split_and!.
  - unfold check_rpool. cbn [existsb]. unfold dmem. now rewrite HL.
  - exists (dkeys L). unfold get_pipe_idxs. rewrite HL. split; [reflexivity|].
    apply list_elem_of_In, dmem_true. unfold dmem. now rewrite HkL.
  - unfold get_data. subst key. rewrite truthy_key. unfold get.
    rewrite HL, truthy_key, HkL. reflexivity.
  - unfold get_cpac_provenance. subst key.
    rewrite (get_json_key _ _ _ _ _ l HL HkL eq_refl). cbn [rbind json_items].
    rewrite Hl. cbn [rbind]. unfold cpac_provenance. now rewrite Hprov.
  - unfold generate_prov_list, key, py_str. apply literal_eval_repr.
Qed.

Lemma set_data_then_lookup_witness :
  let s := {| rpool := []; pipe_list := []; rtable := [];
              heap := [[("CpacProvenance", JProv [PStr "T1w:anat_ingress"])]] |} in
  let s' := snd (set_data "desc-preproc_T1w" "anat_init" "outputspec.out" 0
                   EmptyString "anatomical_init" false false s) in
  let chain := new_prov "desc-preproc_T1w" "anatomical_init" false
                 [PStr "T1w:anat_ingress"] in
  let key := py_str chain in
  check_rpool (rpool s') (Name "desc-preproc_T1w") = true /\
  (exists keys, get_pipe_idxs (rpool s') "desc-preproc_T1w" = Ok keys /\ In key keys) /\
  get_data (rpool s') (Name "desc-preproc_T1w") (Some key) false false
  = Ok (DPlain (DProducer ("anat_init", "outputspec.out"))) /\
  get_cpac_provenance (heap s') (rpool s') "desc-preproc_T1w" key = Ok chain /\
  generate_prov_list key = Ok (PList chain).
Proof.
  intros s s'.
  apply (set_data_then_lookup "desc-preproc_T1w" "anat_init" "outputspec.out" 0
           EmptyString "anatomical_init" false false s s'
           [("CpacProvenance", JProv [PStr "T1w:anat_ingress"])]
           [PStr "T1w:anat_ingress"]); reflexivity.
Defined.

(** ** [get_data] and [check_rpool] on the main pool *)

(** X10. [get_data] without [pipe_idx] on a resource of the main pool, none
    of whose lineage keys is 'data': it returns exactly when the resource
    has a single strategy and that strategy has a producer, which it
    returns; with [quick_single] it returns the producer of the first
    strategy; and with [report_fetched] it raises [KeyError], since it
    subscripts the dict of strategies with 'data'. *)
Theorem get_data_without_pipe_idx
  (rp : pydict strats) (resource : string) (L : strats) (quick_single : bool) :
  dget resource rp = Some L ->
  dget "data" L = None ->
  (forall d, get_data rp (Name resource) None false false = Ok d <->
             exists k e p, L = [(k, e)] /\ data e = Some p /\
                           d = DPlain (DProducer p)) /\
  (forall d, get_data rp (Name resource) None false true = Ok d <->
             exists k e p rest, L = (k, e) :: rest /\ data e = Some p /\
                                d = DPlain (DProducer p)) /\
  get_data rp (Name resource) None true quick_single = Raise KeyError.
Proof.
  intros HL Hdata. unfold get_data, get. rewrite HL.
  cbn [truthy reply rbind plain unpack fetched_len fst snd data_item first_data].
  rewrite Hdata. split_and!.
  - intros d. destruct L as [|[k e] [|kv L]]; cbn [length Nat.eqb rbind data_item].
    + split; [discriminate | intros (k & e & p & H & _); discriminate].
    + destruct (data e) as [p|] eqn:E; cbn [rbind].
      * split.
        -- intros H. inversion H. eauto 6.
        -- intros (k' & e' & p' & H1 & H2 & ->). inversion H1; subst. congruence.
      * split; [discriminate|].
        intros (k' & e' & p' & H1 & H2 & _). inversion H1; subst. congruence.
    + split; [discriminate | intros (k' & e' & p' & H & _); discriminate].
  - intros d. destruct L as [|[k e] L]; cbn [rbind data_item].
    + split; [discriminate | intros (k & e & p & rest & H & _); discriminate].
    + destruct (data e) as [p|] eqn:E; cbn [rbind].
      * split.
        -- intros H. inversion H. eauto 8.
        -- intros (k' & e' & p' & rest & H1 & H2 & ->). inversion H1; subst. congruence.
      * split; [discriminate|].
        intros (k' & e' & p' & rest & H1 & H2 & _). inversion H1; subst. congruence.
  - reflexivity.
Qed.

Lemma get_data_without_pipe_idx_witness :
  let e := {| data := Some ("anat_init", "outputspec.out"); json := Some 0 |} in
  let L := [("['T1w:anat_ingress', 'desc-preproc_T1w:anatomical_init']", e)] in
  let rp := [("desc-preproc_T1w", L)] in
  (forall d, get_data rp (Name "desc-preproc_T1w") None false false = Ok d <->
             exists k e p, L = [(k, e)] /\ data e = Some p /\
                           d = DPlain (DProducer p)) /\
  (forall d, get_data rp (Name "desc-preproc_T1w") None false true = Ok d <->
             exists k e p rest, L = (k, e) :: rest /\ data e = Some p /\
                                d = DPlain (DProducer p)) /\
  get_data rp (Name "desc-preproc_T1w") None true false = Raise KeyError.
Proof.
  intros e L rp.
  apply (get_data_without_pipe_idx rp "desc-preproc_T1w" L false); reflexivity.
Defined.

Lemma get_first_found rp l rf opt :
  existsb (fun name => dmem name rp) l = true ->
  exists d label, In label l /\ dget label rp = Some d /\
                  get_first rp l rf opt = Ok (reply rf (FStrats d) (Some label)).
Proof.
  induction l as [|x l IH]; cbn [existsb get_first]; [discriminate|].
  unfold dmem at 1. destruct (dget x rp) as [d|] eqn:E.
  - intros _. exists d, x. split_and!; [now left | assumption | reflexivity].
  - cbn [orb]. intros H. destruct (IH H) as (d & label & Hin & Hd & Hg).
    exists d, label. split_and!; [now right | assumption | assumption].
Qed.

Lemma get_first_missing rp l rf opt :
  existsb (fun name => dmem name rp) l = false ->
  get_first rp l rf opt
  = if opt then Ok (reply rf FNone None) else Raise ResourceNotFound.
Proof.
  induction l as [|x l IH]; cbn [existsb get_first]; [reflexivity|].
  unfold dmem at 1. destruct (dget x rp) as [d|]; [discriminate|].
  cbn [orb]. exact IH.
Qed.

(** X11. [check_rpool] tells what [get] without [pipe_idx] will do: for a
    name or a list of alternatives, [get] returns a dict of strategies
    exactly when [check_rpool] is true; when it is false, [get] returns
    [None] if the resource is optional and raises otherwise
    ([LookupError] for a name, [Exception] for a list). *)
Theorem check_rpool_get (rp : pydict strats) (resource : rspec)
  (report_fetched optional : bool) :
  if check_rpool rp resource
  then exists d label,
         dget label rp = Some d /\
         get rp resource None report_fetched optional
         = Ok (reply report_fetched (FStrats d) (Some label))
  else get rp resource None report_fetched optional
       = if optional then Ok (reply report_fetched FNone None)
         else Raise (match resource with
                     | Name _ => ResourceLookupError
                     | Alts _ => ResourceNotFound
                     end).
Proof.
  unfold check_rpool. destruct resource as [r|l]; cbn [get].
  - cbn [existsb]. rewrite orb_false_r. unfold dmem.
    destruct (dget r rp) as [d|] eqn:E; [|reflexivity].
    exists d, r. split; [assumption | reflexivity].
  - destruct (existsb (fun name => dmem name rp) l) eqn:E.
    + destruct (get_first_found rp l report_fetched optional E)
        as (d & label & _ & Hd & Hg). eauto.
    + now apply get_first_missing.
Qed.

(** ** When [set_data] returns: the registration in [rtable] *)

Lemma register_tag_eq r ty tag val s :
  register_tag r ty (tag, val) s =
    let by_tag := default [] (dget ty (rtable s)) in
    let by_tag' := if dmem tag by_tag then by_tag else dset tag [(val, [])] by_tag in
    let s1 := with_rtable (dset ty by_tag') s in
    match dget tag by_tag' ≫= dget val with
    | None => (Raise KeyError, s1)
    | Some members =>
        if existsb (String.eqb r) members then (Ok tt, s1)
        else (Ok tt,
              with_rtable
                (dset ty (dset tag (dset val (members ++ [r])
                                      (default [] (dget tag by_tag'))) by_tag')) s1)
    end.
Proof.
  unfold register_tag, bind, gets, modify. cbn [fst snd]. cbv zeta.
  destruct (_ ≫= _) as [members|]; [|reflexivity].
  destruct (existsb _ _); reflexivity.
Qed.

Lemma register_tag_outcome r ty tag val s :
  fst (register_tag r ty (tag, val) s)
  = if tag_clash (rtable s) ty (tag, val) then Raise KeyError else Ok tt.
Proof.
  rewrite register_tag_eq. cbv zeta. unfold tag_clash. cbn [fst snd].
  destruct (dget ty (rtable s)) as [by_tag|];
    cbn [default from_option id mbind option_bind].
  - destruct (dget tag by_tag) as [vals|] eqn:E.
    + assert (Hm : dmem tag by_tag = true) by (unfold dmem; now rewrite E).
      rewrite Hm, E. cbn [mbind option_bind]. unfold dmem.
      destruct (dget val vals) as [members|]; cbn [negb]; [|reflexivity].
      destruct (existsb _ _); reflexivity.
    + assert (Hm : dmem tag by_tag = false) by (unfold dmem; now rewrite E).
      rewrite Hm, dget_dset_eq. cbn [mbind option_bind dget].
      rewrite String.eqb_refl. reflexivity.
  - change (dmem tag (@nil (string * pydict (list string)))) with false.
    cbn [dset dget]. rewrite String.eqb_refl. cbn [mbind option_bind dget].
    rewrite String.eqb_refl. reflexivity.
Qed.

Lemma register_tag_other r ty tag val s t :
  t <> tag ->
  dget ty (rtable (snd (register_tag r ty (tag, val) s))) ≫= dget t
  = dget ty (rtable s) ≫= dget t.
Proof.
  intros Hne. rewrite register_tag_eq. cbv zeta.
  set (by_tag := default [] (dget ty (rtable s))).
  set (by_tag' := if dmem tag by_tag then by_tag else dset tag [(val, [])] by_tag).
  assert (H0 : dget ty (rtable s) ≫= dget t = dget t by_tag).
  { subst by_tag. destruct (dget ty (rtable s)); reflexivity. }
  assert (H1 : dget t by_tag' = dget t by_tag).
  { subst by_tag'. destruct (dmem tag by_tag); [reflexivity|].
    apply dget_dset_ne. congruence. }
  destruct (dget tag by_tag' ≫= dget val) as [members|];
    [destruct (existsb (String.eqb r) members)|];
    cbn [snd rtable with_rtable]; rewrite ?dget_dset_eq; cbn [mbind option_bind];
    rewrite H0, <- H1; try reflexivity.
  apply dget_dset_ne. congruence.
Qed.

Lemma existsb_agree {A} (f g : A -> bool) l :
  (forall x, In x l -> f x = g x) -> existsb f l = existsb g l.
Proof.
  induction l as [|x l IH]; intros H; [reflexivity|]. cbn [existsb].
  rewrite (H x) by now left. rewrite IH; [reflexivity|].
  intros y Hy. apply H. now right.
Qed.

Lemma register_tags_outcome r ty tags : forall s,
  NoDup (dkeys tags) ->
  fst (for_each tags (register_tag r ty) s)
  = if existsb (tag_clash (rtable s) ty) tags then Raise KeyError else Ok tt.
Proof.
  induction tags as [|[tag val] tags IH]; intros s Hnd; [reflexivity|].
  cbn [for_each existsb]. unfold bind.
  pose proof (register_tag_outcome r ty tag val s) as Hout.
  cbn [dkeys map fst] in Hnd. apply NoDup_cons in Hnd as [Hnotin Hnd].
  assert (Hrest : existsb (tag_clash (rtable (snd (register_tag r ty (tag, val) s))) ty)
                    tags
                  = existsb (tag_clash (rtable s) ty) tags).
  { apply existsb_agree. intros [t v] Hin. unfold tag_clash. cbn [fst snd].
    rewrite register_tag_other; [reflexivity|].
    intros Heq. subst t. apply Hnotin. apply list_elem_of_In.
    change tag with (fst (tag, v)). now apply in_map. }
  destruct (register_tag r ty (tag, val) s) as [[e|[]] s1]; cbn [fst snd] in *.
  - destruct (tag_clash (rtable s) ty (tag, val)); [|discriminate].
    cbn [orb]. exact Hout.
  - destruct (tag_clash (rtable s) ty (tag, val)); [discriminate|].
    cbn [orb]. rewrite <- Hrest. now apply IH.
Qed.

Lemma parse_bids_tags_wf r ty tags :
  parse_bids_tags r = Ok (ty, tags) -> NoDup (dkeys tags).
Proof.
  unfold parse_bids_tags.
  pose proof (bids_tag_dct_spec (removelast (Str.split "_" r)) [("None", "None")]) as H.
  destruct (forallb _ _).
  - destruct H as (d' & -> & _ & _ & Hwf). cbn [rbind]. intros Heq.
    inversion Heq; subst. apply Hwf. apply NoDup_singleton.
  - rewrite H. discriminate.
Qed.

Lemma register_outcome r s :
  fst (register r s)
  = match parse_bids_tags r with
    | inl e => Raise e
    | inr (ty, tags) =>
        if existsb (tag_clash (rtable s) ty) tags then Raise KeyError else Ok tt
    end.
Proof.
  unfold register, bind, lift, gets. cbn [fst snd].
  destruct (parse_bids_tags r) as [e|[ty tags]] eqn:E; [reflexivity|].
  pose proof (parse_bids_tags_wf _ _ _ E) as Hwf.
  destruct (dmem ty (rtable s)) eqn:Em; unfold ret, modify; cbn [fst snd].
  - destruct (for_each tags (register_tag r ty) s) as [[e|[]] s1] eqn:Ef;
      rewrite <- (register_tags_outcome r ty tags s Hwf), Ef; reflexivity.
  - set (s0 := with_rtable (dset ty []) s).
    assert (Hsame : existsb (tag_clash (rtable s0) ty) tags
                    = existsb (tag_clash (rtable s) ty) tags).
    { apply existsb_agree. intros tv _. unfold tag_clash, s0.
      cbn [rtable with_rtable]. rewrite dget_dset_eq.
      unfold dmem in Em. destruct (dget ty (rtable s)); [discriminate|].
      reflexivity. }
    rewrite <- Hsame.
    destruct (for_each tags (register_tag r ty) s0) as [[e|[]] s1] eqn:Ef;
      rewrite <- (register_tags_outcome r ty tags s0 Hwf), Ef; reflexivity.
Qed.

Lemma reserve_preserves {X} (proj : state -> X) r k :
  (forall g s, proj (with_rpool g s) = proj s) ->
  (forall g s, proj (with_pipe_list g s) = proj s) ->
  preserves proj (reserve r k).
Proof.
  intros H1 H2. unfold reserve. apply preserves_bind; [auto with frame|]. intros rp.
  apply preserves_bind; [destruct (dmem _ _); auto with frame|].
  intros _. apply preserves_bind; [auto with frame|]. intros pl.
  destruct (existsb _ _); auto with frame.
Qed.

(** The state [evict] leaves for a forking call, or for a resource that
    is new to the pool. *)
Lemma evict_trivial r c k f s :
  f = true \/ dget r (rpool s) = None ->
  exists s0, evict r c k f s = (Ok tt, s0) /\
             entries_of r s0 = entries_of r s /\
             rtable s0 = rtable s /\ pipe_list s0 = pipe_list s /\
             heap s0 = heap s.
Proof.
  intros H. rewrite evict_eq.
  destruct (dget r (rpool s)) as [entries|] eqn:E.
  - destruct H as [-> | H]; [|discriminate]. exists s. auto.
  - eexists. split; [reflexivity|]. split_and!; try reflexivity.
    rewrite entries_of_dset. unfold entries_of. now rewrite E.
Qed.

Lemma insert_entry_outcome r n o j k f c key s :
  f = true \/ dget r (rpool s) = None ->
  let out := insert_entry r n o j k f c key s in
  fst out
  = match parse_bids_tags r with
    | inl e => Raise e
    | inr (ty, tags) =>
        if existsb (tag_clash (rtable s) ty) tags then Raise KeyError else Ok tt
    end /\
  In key (pipe_list (snd out)) /\
  (fst out <> Ok tt -> entries_of r (snd out) = reserved key (entries_of r s)).
Proof.
  intros H. cbv zeta.
  destruct (evict_trivial r c k f s H) as (s0 & Hev & He0 & Hrt0 & Hpl0 & _).
  unfold insert_entry. rewrite (bind_ok _ _ _ _ _ Hev).
  pose proof (after_evict r n o j key s0) as Hafter. cbv zeta in Hafter.
  rewrite He0 in Hafter.
  pose proof (reserve_spec r key s0) as [Hres _].
  pose proof (reserve_pipe_list r key s0) as Hpl.
  pose proof (reserve_preserves rtable r key (fun _ _ => eq_refl)
                (fun _ _ => eq_refl) s0) as Hrt.
  unfold bind in *.
  destruct (reserve r key s0) as [[e|[]] s1]; cbn [fst snd] in *; [discriminate|].
  assert (Hin : In key (pipe_list s1)).
  { rewrite Hpl. destruct (mem key (pipe_list s0)) eqn:E.
    - now apply mem_true.
    - apply in_or_app. right. now left. }
  pose proof (register_outcome r s1) as Hreg. rewrite Hrt, Hrt0 in Hreg.
  pose proof (register_preserves pipe_list r (fun _ _ => eq_refl) s1) as Hpl1.
  destruct (register r s1) as [[e|[]] s2]; cbn [fst snd] in *.
  - split_and!; [exact Hreg | now rewrite Hpl1 |].
    intros _. destruct Hafter as [[_ Ha] | [Ha _]]; [exact Ha | discriminate].
  - pose proof (store_spec r key n o j s2) as [Hst _].
    pose proof (store_preserves pipe_list r key n o j (fun _ _ => eq_refl) s2) as Hpl2.
    destruct (store r key n o j s2) as [res s3]; cbn [fst snd] in *.
    subst res. split_and!; [exact Hreg | now rewrite Hpl2, Hpl1 | congruence].
Qed.

(** X12. The outcome of a [set_data] call that is not an injection, and
    that forks or stores the first entry of a resource: it raises the
    [IndexError] of [parse_bids_tags] when a tag of the name has no
    hyphen, it raises [KeyError] when [rtable] holds a tag of the name
    for the type of the resource with other values only (a second
    'desc-' value for a type, for one), and it returns otherwise. *)
Theorem set_data_outcome
  (resource node output : string) (json_info : loc) (pipe_idx node_name : string)
  (fork : bool) (s : state) (info : jdict) (p : list prov) :
  heap s !! json_info = Some info ->
  prov_of info = Ok p ->
  fork = true \/ dget resource (rpool s) = None ->
  fst (set_data resource node output json_info pipe_idx node_name fork false s)
  = match parse_bids_tags resource with
    | inl e => Raise e
    | inr (resource_type, tag_dct) =>
        if existsb (tag_clash (rtable s) resource_type) tag_dct
        then Raise KeyError else Ok tt
    end.
Proof.
  intros Hj Hp Hf. rewrite set_data_eq, (copy_info_eq _ _ _ _ _ _ _ Hj Hp).
  cbv zeta. unfold new_prov, prov_step. rewrite get_last_prov_entry_app.
  destruct info as [|kv info].
  - apply (insert_entry_outcome resource node output (S (length (heap s))) pipe_idx
             fork p _ (with_heap _ s) Hf).
  - apply (insert_entry_outcome resource node output (length (heap s)) pipe_idx
             fork p _ (with_heap _ s) Hf).
Qed.

Lemma set_data_outcome_witness :
  let s := {| rpool := []; pipe_list := []; rtable := [];
              heap := [[("CpacProvenance", JProv [PStr "T1w:anat_ingress"])]] |} in
  let s1 := snd (set_data "desc-preproc_T1w" "anat_init" "outputspec.out" 0
                   EmptyString "anatomical_init" false false s) in
  fst (set_data "desc-brain_T1w" "brain_extraction" "outputspec.out" 0
         EmptyString "brain_extraction" false false s1)
  = Raise KeyError.
Proof.
  intros s s1.
  apply (set_data_outcome "desc-brain_T1w" "brain_extraction" "outputspec.out" 0
           EmptyString "brain_extraction" false s1
           [("CpacProvenance", JProv [PStr "T1w:anat_ingress"])]
           [PStr "T1w:anat_ingress"]);
    [reflexivity | reflexivity | right; reflexivity].
Defined.

(** X13. [set_data] is not atomic.  When a call as in X12 raises, the
    resource is in the pool all the same, its new lineage key has an
    entry and an ordinal in [pipe_list]; and if the key had no entry
    before, the entry is empty: [get_json] finds its metadata incomplete
    and [get_data] finds no producer. *)
Theorem set_data_failure_leaves_entry
  (resource node output : string) (json_info : loc) (pipe_idx node_name : string)
  (fork : bool) (s : state) (info : jdict) (p : list prov) :
  heap s !! json_info = Some info ->
  prov_of info = Ok p ->
  fork = true \/ dget resource (rpool s) = None ->
  let out := set_data resource node output json_info pipe_idx node_name
               fork false s in
  let key := py_str (new_prov resource node_name false p) in
  fst out <> Ok tt ->
  check_rpool (rpool (snd out)) (Name resource) = true /\
  (exists keys, get_pipe_idxs (rpool (snd out)) resource = Ok keys /\ In key keys) /\
  (exists n, fst (get_pipe_number key (snd out)) = Ok n) /\
  (dget key (entries_of resource s) = None ->
   get_json (rpool (snd out)) resource key = Raise IncompleteJson /\
   get_data (rpool (snd out)) (Name resource) (Some key) false false
   = Raise KeyError).
Proof.
  intros Hj Hp Hf out key. subst out.
  rewrite set_data_eq, (copy_info_eq _ _ _ _ _ _ _ Hj Hp). cbv zeta.
  assert (Hlast : get_last_prov_entry (new_prov resource node_name false p)
                  = Ok (resource +:+ ":" +:+ node_name))
    by apply get_last_prov_entry_app.
  rewrite Hlast. fold key.
  assert (Hgen : forall j' s1,
             rpool s1 = rpool s ->
             let out := insert_entry resource node output j' pipe_idx fork p key s1 in
             fst out <> Ok tt ->
             check_rpool (rpool (snd out)) (Name resource) = true /\
             (exists keys, get_pipe_idxs (rpool (snd out)) resource = Ok keys /\
                           In key keys) /\
             (exists n, fst (get_pipe_number key (snd out)) = Ok n) /\
             (dget key (entries_of resource s) = None ->
              get_json (rpool (snd out)) resource key = Raise IncompleteJson /\
              get_data (rpool (snd out)) (Name resource) (Some key) false false
              = Raise KeyError)).
  { intros j' s1 Hrp. cbv zeta. intros Hfail.
    assert (Hf1 : fork = true \/ dget resource (rpool s1) = None) by now rewrite Hrp.
    destruct (insert_entry_outcome resource node output j' pipe_idx fork p key s1 Hf1)
      as (_ & Hin & He).
    specialize (He Hfail).
    assert (Hs1 : entries_of resource s1 = entries_of resource s)
      by (unfold entries_of; now rewrite Hrp).
    rewrite Hs1 in He.
    set (s' := snd (insert_entry resource node output j' pipe_idx fork p key s1)) in *.
    assert (Hmem : dmem key (entries_of resource s') = true)
      by (rewrite He; apply dmem_reserved).
    unfold dmem in Hmem.
    destruct (dget key (entries_of resource s')) as [e|] eqn:Hk; [|discriminate].
    destruct (entries_of_Some _ _ _ _ Hk) as (L & HL & HkL).
    split_and!.
    - unfold check_rpool. cbn [existsb]. unfold dmem. now rewrite HL.
    - exists (dkeys L). unfold get_pipe_idxs. rewrite HL. split; [reflexivity|].
      apply list_elem_of_In, dmem_true. unfold dmem. now rewrite HkL.
    - rewrite get_pipe_number_eq. cbn [fst].
      destruct (index_of_In _ _ Hin) as [n ->]. eauto.
    - intros Hnone.
      assert (Hem : e = empty_entry).
      { rewrite He in Hk. unfold reserved, dmem in Hk. rewrite Hnone in Hk.
        rewrite dget_dset_eq in Hk. now inversion Hk. }
      subst e. split.
      + unfold get_json. rewrite HL.
        pose proof (py_str_not_empty (new_prov resource node_name false p)) as Hne.
        fold key in Hne. destruct key as [|ch k]; [congruence|].
        now rewrite HkL.
      + unfold get_data. subst key. rewrite truthy_key. unfold get.
        rewrite HL, truthy_key, HkL. reflexivity. }
  destruct info as [|kv info]; apply Hgen; reflexivity.
Qed.

Lemma set_data_failure_leaves_entry_witness :
  let s := {| rpool := []; pipe_list := []; rtable := []; heap := [[]] |} in
  let out := set_data "raw_T1w" "anat_ingress" "outputspec.data" 0 EmptyString
               "ingress" false false s in
  let key := py_str (new_prov "raw_T1w" "ingress" false []) in
  fst out = Raise IndexError /\
  check_rpool (rpool (snd out)) (Name "raw_T1w") = true /\
  (exists keys, get_pipe_idxs (rpool (snd out)) "raw_T1w" = Ok keys /\ In key keys) /\
  (exists n, fst (get_pipe_number key (snd out)) = Ok n) /\
  (dget key (entries_of "raw_T1w" s) = None ->
   get_json (rpool (snd out)) "raw_T1w" key = Raise IncompleteJson /\
   get_data (rpool (snd out)) (Name "raw_T1w") (Some key) false false
   = Raise KeyError).
Proof.
  intros s. split; [reflexivity|].
  apply (set_data_failure_leaves_entry "raw_T1w" "anat_ingress" "outputspec.data" 0
           EmptyString "ingress" false s [] []);
    [reflexivity | reflexivity | right; reflexivity | discriminate].
Defined.

(** ** [get_strats]: no strategies, and what the call leaves alone *)

Lemma get_first_optional rp l rf : exists g, get_first rp l rf true = Ok g.
Proof.
  induction l as [|x l IH]; cbn [get_first]; [eauto|].
  destruct (dget x rp); eauto.
Qed.

Lemma fetch_total rp r : exists o, fetch rp r = Ok o.
Proof.
  unfold fetch. destruct r as [r|l]; cbn [get].
  - destruct (dget r rp) as [[|kv d]|]; cbn [truthy reply rbind]; eauto.
  - destruct (get_first_optional rp l true) as [g ->]. cbn [rbind].
    destruct g as [f|[[|kv d]| |] [label|]]; eauto.
Qed.

Lemma fetch_present (rp : pydict strats) x kv (L : strats) :
  dget x rp = Some (kv :: L) ->
  fetch rp (Name x) = Ok (Some (kv :: L, x)).
Proof. intros H. unfold fetch. cbn [get]. now rewrite H. Qed.

Lemma fetch_linked_absent s labels :
  exists linked, fetch_linked (rpool s) labels = Ok linked /\
                 forallb (absent s) (map Name linked) = forallb (absent s) labels.
Proof.
  induction labels as [|label labels IH]; cbn [fetch_linked]; [exists []; auto|].
  destruct IH as (linked & Hl & Hall).
  destruct (fetch (rpool s) label) as [e|o] eqn:Ef.
  { destruct (fetch_total (rpool s) label) as [o Ho]. congruence. }
  rewrite Hl. cbn [rbind].
  assert (Hab : absent s label = match o with None => true | Some _ => false end).
  { unfold absent. rewrite Ef. now destruct o. }
  destruct o as [[d name]|].
  - exists (name :: linked). split; [reflexivity|]. cbn [map forallb].
    rewrite Hab. destruct (fetch_some _ _ _ _ Ef) as (kv & L & -> & Hd).
    unfold absent at 1. now rewrite (fetch_present _ _ _ _ Hd).
  - exists linked. split; [reflexivity|]. cbn [forallb]. now rewrite Hab.
Qed.

Lemma collect_inputs_absent s resources :
  exists rl lk, collect_inputs (rpool s) resources = Ok (rl, lk) /\
                forallb (absent s) rl = forallb (input_absent s) resources.
Proof.
  induction resources as [|[r|labels] resources IH]; cbn [collect_inputs].
  - exists [], []. auto.
  - destruct IH as (rl & lk & -> & Hall). cbn [rbind fst snd].
    eexists _, _. split; [reflexivity|]. cbn [forallb input_absent]. now rewrite Hall.
  - destruct IH as (rl & lk & -> & Hall).
    destruct (fetch_linked_absent s labels) as (linked & -> & Hl).
    cbn [rbind fst snd]. eexists _, _. split; [reflexivity|].
    cbn [forallb input_absent]. now rewrite forallb_app, Hl, Hall.
Qed.

Lemma get_json_nsf rp r k : get_json rp r k <> Raise NoStrategiesFound.
Proof.
  unfold get_json. destruct (dget r rp) as [d|]; [|discriminate].
  destruct k as [|c k].
  - destruct (dget "json" d); discriminate.
  - destruct (dget (String c k) d) as [e|]; [|discriminate].
    destruct (json e); discriminate.
Qed.

Lemma json_items_nsf h j : json_items h j <> Raise NoStrategiesFound.
Proof. destruct j as [l|e]; cbn [json_items]; [destruct (h !! l)|]; discriminate. Qed.

Lemma cpac_provenance_nsf info : cpac_provenance info <> Raise NoStrategiesFound.
Proof. unfold cpac_provenance. destruct (dget _ info) as [[]|]; discriminate. Qed.

Lemma cpac_variant_nsf info : cpac_variant info <> Raise NoStrategiesFound.
Proof. unfold cpac_variant. destruct (dget _ info) as [[]|]; discriminate. Qed.

Lemma add_variants_nsf vals : forall known,
  add_variants vals known <> Raise NoStrategiesFound.
Proof.
  induction vals as [|[k v] vals IH]; intros known; cbn [add_variants];
    [discriminate|].
  destruct (is_known v known); [apply IH|].
  apply rbind_never; [|intros; apply IH].
  destruct v as [[|x l]|[|c t]]; discriminate.
Qed.

Lemma sub_pool_of_nsf h rp r keys : forall known,
  sub_pool_of h rp r keys known <> Raise NoStrategiesFound.
Proof.
  induction keys as [|k keys IH]; intros known; cbn [sub_pool_of]; [discriminate|].
  apply rbind_never; [apply get_json_nsf|]. intros j.
  apply rbind_never; [apply json_items_nsf|]. intros info.
  apply rbind_never; [apply cpac_provenance_nsf|]. intros p.
  apply rbind_never; [apply cpac_variant_nsf|]. intros v.
  apply rbind_never; [apply add_variants_nsf|]. intros known'.
  apply rbind_never; [apply IH | discriminate].
Qed.

Lemma gather_nsf h rp rl : forall vp,
  gather h rp rl vp <> Raise NoStrategiesFound.
Proof.
  induction rl as [|r rl IH]; intros vp; cbn [gather]; [discriminate|].
  destruct (fetch_total rp r) as [o ->]. cbn [rbind].
  destruct o as [[d name]|]; [|apply IH].
  apply rbind_never; [apply sub_pool_of_nsf|]. intros sk.
  apply rbind_never; [apply IH | discriminate].
Qed.

Lemma gather_empty s rl : forall vp tp vp',
  gather (heap s) (rpool s) rl vp = Ok (tp, vp') ->
  (tp = [] <-> forallb (absent s) rl = true).
Proof.
  induction rl as [|r rl IH]; intros vp tp vp'; cbn [gather forallb].
  - intros H. inversion H. tauto.
  - unfold absent at 1. destruct (fetch_total (rpool s) r) as [o ->]. cbn [rbind].
    destruct o as [[d name]|]; [|apply IH].
    destruct (sub_pool_of _ _ _ _ _) as [e|sk]; cbn [rbind]; [discriminate|].
    destruct (gather _ _ _ _) as [e|r0]; cbn [rbind]; [discriminate|].
    intros H. inversion H. cbn [andb]. split; discriminate.
Qed.

Lemma gather_absent s rl : forall vp,
  forallb (absent s) rl = true -> gather (heap s) (rpool s) rl vp = Ok ([], vp).
Proof.
  induction rl as [|r rl IH]; intros vp; cbn [gather forallb]; [reflexivity|].
  unfold absent at 1. destruct (fetch_total (rpool s) r) as [o ->]. cbn [rbind].
  destruct o as [[d name]|]; [discriminate | apply IH].
Qed.

Lemma generate_prov_string_nsf p : generate_prov_string p <> Raise NoStrategiesFound.
Proof. intros H. apply generate_prov_string_error in H. discriminate. Qed.

Lemma json_dct_of_nsf rp t : forall acc,
  json_dct_of rp t acc <> Raise NoStrategiesFound.
Proof.
  induction t as [|p t IH]; intros acc; cbn [json_dct_of]; [discriminate|].
  apply rbind_never; [apply generate_prov_string_nsf|]. intros rk.
  apply rbind_never; [apply get_json_nsf | intros; apply IH].
Qed.

Lemma applied_tags_nsf vals : applied_tags vals <> Raise NoStrategiesFound.
Proof.
  induction vals as [|[k [[|x l]|t]] vals IH]; cbn [applied_tags]; try discriminate;
    (apply rbind_never; [exact IH | discriminate]).
Qed.

Lemma spread_of_nsf vp x : spread_of vp x <> Raise NoStrategiesFound.
Proof. unfold spread_of. destruct (dget x vp); discriminate. Qed.

Lemma linked_json_nsf h jd x : linked_json h jd x <> Raise NoStrategiesFound.
Proof.
  unfold linked_json. destruct (dget x jd); [apply json_items_nsf | discriminate].
Qed.

Lemma any_of_nsf {A} (l : list A) f :
  (forall x, f x <> Raise NoStrategiesFound) -> any_of l f <> Raise NoStrategiesFound.
Proof.
  intros Hf. induction l as [|x l IH]; cbn [any_of]; [discriminate|].
  apply rbind_never; [apply Hf|]. intros [|]; [discriminate | exact IH].
Qed.

Lemma drops_nsf h jd vp lk : drops h jd vp lk <> Raise NoStrategiesFound.
Proof.
  unfold drops. apply any_of_nsf. intros linked. apply any_of_nsf. intros x.
  apply rbind_never; [apply linked_json_nsf|]. intros xjson.
  apply any_of_nsf. intros y. unfold pair_drops.
  destruct (String.eqb x y); [discriminate|].
  apply rbind_never; [apply linked_json_nsf|]. intros yjson.
  apply rbind_never; [apply cpac_variant_nsf|]. intros xv.
  apply rbind_never; [apply applied_tags_nsf|]. intros xt.
  apply rbind_never; [apply spread_of_nsf|]. intros cs.
  apply rbind_never; [apply cpac_variant_nsf|]. intros yv.
  apply rbind_never; [apply applied_tags_nsf|]. intros yt.
  apply rbind_never; [apply spread_of_nsf | discriminate].
Qed.

Lemma never_deref e l : e <> IllTyped -> never e (deref l).
Proof.
  intros H s. unfold deref. destruct (heap s !! l); cbn [fst]; congruence.
Qed.

Lemma never_store_item e l k v : e <> IllTyped -> never e (store_item l k v).
Proof.
  intros H. unfold store_item. apply never_bind; [now apply never_deref|].
  intros d. apply never_modify.
Qed.

Lemma add_subjson_nsf dt info m : add_subjson dt info m <> Raise NoStrategiesFound.
Proof.
  unfold add_subjson. destruct (dget "subjson" m) as [[]|]; try discriminate.
  destruct (default _ _); discriminate.
Qed.

Lemma merge_all_nsf idx t : forall acc, never NoStrategiesFound (merge_all idx t acc).
Proof.
  induction t as [|p t IH]; intros acc; cbn [merge_all]; [apply never_ret|].
  apply never_bind; [|intros; apply IH].
  unfold merge_one. destruct acc as [sp m].
  apply never_bind; [apply never_lift, generate_prov_string_nsf|]. intros [r k].
  apply never_bind; [apply never_gets|]. intros rp.
  apply never_bind; [apply never_lift; destruct (_ ≫= _); discriminate|]. intros e.
  apply never_bind; [apply never_modify|]. intros _.
  apply never_bind; [apply never_lift; destruct (json e); discriminate|]. intros l.
  apply never_bind; [apply never_deref; discriminate|]. intros info.
  apply never_bind; [apply never_lift, cpac_variant_nsf|]. intros v.
  apply never_bind.
  { destruct v as [d|]; [|apply never_ret].
    destruct (default _ _); try (apply never_raise; discriminate). apply never_ret. }
  intros m'. apply never_bind; [apply never_lift, add_subjson_nsf|].
  intros m''. apply never_ret.
Qed.

Lemma combine_all_nsf vp lk ts : forall ns,
  never NoStrategiesFound (combine_all vp lk ts ns).
Proof.
  induction ts as [|t ts IH]; intros ns; cbn [combine_all]; [apply never_ret|].
  apply never_bind; [|intros; apply IH].
  unfold combine.
  apply never_bind; [apply never_gets|]. intros rp.
  apply never_bind; [apply never_gets|]. intros h.
  apply never_bind; [apply never_lift, json_dct_of_nsf|]. intros jd.
  apply never_bind; [apply never_lift, drops_nsf|]. intros [|]; [apply never_ret|].
  apply never_bind; [intros s; discriminate|]. intros l.
  apply never_bind; [apply merge_all_nsf|]. intros r.
  apply never_bind; [apply never_modify | intros; apply never_ret].
Qed.

Lemma single_pools_nsf tp : forall ns, never NoStrategiesFound (single_pools tp ns).
Proof.
  induction tp as [|pool tp IH]; intros ns; cbn [single_pools]; [apply never_ret|].
  apply never_bind; [|intros; apply IH].
  clear IH. revert ns. induction pool as [|p pool IH]; intros ns; cbn [single_all];
    [apply never_ret|].
  apply never_bind; [|intros; apply IH].
  unfold single.
  apply never_bind; [apply never_lift, generate_prov_string_nsf|]. intros [r k].
  apply never_bind; [apply never_gets|]. intros rp.
  apply never_bind; [apply never_lift; destruct (_ ≫= _); discriminate|]. intros e.
  apply never_bind; [apply never_lift; destruct (json e); discriminate|]. intros l.
  apply never_bind; [apply never_store_item; discriminate|]. intros _.
  apply never_bind; [apply never_store_item; discriminate|]. intros _.
  apply never_bind; [apply never_store_item; discriminate|]. intros _.
  apply never_bind; [apply never_deref; discriminate|]. intros info.
  apply never_bind; [apply never_store_item; discriminate|]. intros _.
  apply never_ret.
Qed.

(** X14. [get_strats] raises its "None of the listed resources ... exist
    in the resource pool" exception exactly when every declared input is
    absent: every single name or list of alternatives, and every label of
    every linked tuple, is missing from the pool or has no strategy.  The
    pool is then as it was. *)
Theorem get_strats_no_strategies (resources : list input) (s : state) :
  (fst (get_strats resources s) = Raise NoStrategiesFound
   <-> forallb (input_absent s) resources = true) /\
  (forallb (input_absent s) resources = true ->
   get_strats resources s = (Raise NoStrategiesFound, s)).
Proof.
  destruct (collect_inputs_absent s resources) as (rl & lk & Hc & Hall).
  assert (Hrun : get_strats resources s =
                 match gather (heap s) (rpool s) rl [] with
                 | inl e => (Raise e, s)
                 | inr ([], _) => (Raise NoStrategiesFound, s)
                 | inr (tp, vp) =>
                     if Nat.ltb 1 (length tp)
                     then combine_all vp lk (dedup_strats (product tp) []) [] s
                     else single_pools tp [] s
                 end).
  { unfold get_strats, bind, gets, lift. cbn [fst snd]. rewrite Hc.
    destruct (gather _ _ _ _) as [e|[[|p tp] vp]]; try reflexivity.
    now destruct (Nat.ltb 1 (length (p :: tp))). }
  assert (Hif : forallb (input_absent s) resources = true ->
                get_strats resources s = (Raise NoStrategiesFound, s)).
  { intros H. rewrite Hrun, gather_absent by congruence. reflexivity. }
  split; [|exact Hif]. split; [|intros H; now rewrite Hif].
  rewrite Hrun. rewrite <- Hall.
  destruct (gather (heap s) (rpool s) rl []) as [e|[tp vp]] eqn:Eg.
  - cbn [fst]. intros H. inversion H; subst. now apply gather_nsf in Eg.
  - destruct tp as [|p tp].
    + intros _. now apply (gather_empty _ _ _ _ _ Eg).
    + destruct (Nat.ltb 1 (length (p :: tp))); intros H; exfalso.
      * now apply combine_all_nsf in H.
      * now apply single_pools_nsf in H.
Qed.

Lemma preserves_grown {A} (m : M A) : preserves pipe_list m -> keeps grown m.
Proof. intros H s. exists []. now rewrite H, app_nil_r. Qed.

Lemma grown_refl s : grown s s.
Proof. exists []. now rewrite app_nil_r. Qed.

Lemma grown_trans s1 s2 s3 : grown s1 s2 -> grown s2 s3 -> grown s1 s3.
Proof.
  intros [a Ha] [b Hb]. exists (a ++ b). now rewrite Hb, Ha, app_assoc.
Qed.

Lemma merge_one_grown idx p acc : keeps grown (merge_one idx p acc).
Proof.
  unfold merge_one. destruct acc as [sp m].
  repeat first
    [ apply (keeps_bind grown grown_trans); [|intros ?]
    | apply (keeps_lift grown grown_refl)
    | apply (keeps_gets grown grown_refl)
    | apply (keeps_ret grown grown_refl)
    | apply (keeps_raise grown grown_refl)
    | apply preserves_grown, preserves_deref
    | match goal with |- keeps grown (let '(_, _) := ?x in _) => destruct x end
    | match goal with |- keeps grown (match ?x with _ => _ end) => destruct x end ].
  apply keeps_modify. intros st. now exists [idx].
Qed.

Lemma merge_all_grown idx t : forall acc, keeps grown (merge_all idx t acc).
Proof.
  induction t as [|p t IH]; intros acc; cbn [merge_all];
    [apply (keeps_ret grown grown_refl)|].
  apply (keeps_bind grown grown_trans); [apply merge_one_grown | intros; apply IH].
Qed.

Lemma combine_grown vp lk t ns : keeps grown (combine vp lk t ns).
Proof.
  unfold combine.
  apply (keeps_bind grown grown_trans); [apply (keeps_gets grown grown_refl)|]. intros rp.
  apply (keeps_bind grown grown_trans); [apply (keeps_gets grown grown_refl)|]. intros h.
  apply (keeps_bind grown grown_trans); [apply (keeps_lift grown grown_refl)|]. intros jd.
  apply (keeps_bind grown grown_trans); [apply (keeps_lift grown grown_refl)|].
  intros [|]; [apply (keeps_ret grown grown_refl)|].
  apply (keeps_bind grown grown_trans).
  { apply preserves_grown, alloc_preserves. reflexivity. }
  intros l. apply (keeps_bind grown grown_trans); [apply merge_all_grown|].
  intros r. apply (keeps_bind grown grown_trans).
  - apply preserves_grown. unfold store_all. auto with frame.
  - intros _. apply (keeps_ret grown grown_refl).
Qed.

Lemma single_preserves {X} (proj : state -> X) p ns :
  (forall f s, proj (with_heap f s) = proj s) -> preserves proj (single p ns).
Proof.
  intros H. unfold single.
  apply preserves_bind; [auto with frame|]. intros [r k].
  apply preserves_bind; [auto with frame|]. intros rp.
  apply preserves_bind; [auto with frame|]. intros e.
  apply preserves_bind; [auto with frame|]. intros l.
  apply preserves_bind; [now apply store_item_preserves|]. intros _.
  apply preserves_bind; [now apply store_item_preserves|]. intros _.
  apply preserves_bind; [now apply store_item_preserves|]. intros _.
  apply preserves_bind; [apply preserves_deref|]. intros info.
  apply preserves_bind; [now apply store_item_preserves|]. intros _.
  auto with frame.
Qed.

Lemma single_pools_preserves {X} (proj : state -> X) tp : forall ns,
  (forall f s, proj (with_heap f s) = proj s) -> preserves proj (single_pools tp ns).
Proof.
  induction tp as [|pool tp IH]; intros ns H; cbn [single_pools]; [auto with frame|].
  apply preserves_bind; [|intros; now apply IH].
  clear IH. revert ns. induction pool as [|p pool IH]; intros ns; cbn [single_all];
    [auto with frame|].
  apply preserves_bind; [now apply single_preserves | intros; apply IH].
Qed.

Lemma combine_preserves {X} (proj : state -> X) vp lk t ns :
  (forall f s, proj (with_heap f s) = proj s) ->
  (forall f s, proj (with_pipe_list f s) = proj s) ->
  preserves proj (combine vp lk t ns).
Proof.
  intros Hh Hp. unfold combine.
  apply preserves_bind; [auto with frame|]. intros rp.
  apply preserves_bind; [auto with frame|]. intros h.
  apply preserves_bind; [auto with frame|]. intros jd.
  apply preserves_bind; [auto with frame|]. intros [|]; [auto with frame|].
  apply preserves_bind; [now apply alloc_preserves|]. intros l.
  apply preserves_bind; [now apply merge_all_preserves|]. intros r.
  unfold store_all. auto with frame.
Qed.

Lemma get_strats_preserves {X} (proj : state -> X) resources :
  (forall f s, proj (with_heap f s) = proj s) ->
  (forall f s, proj (with_pipe_list f s) = proj s) ->
  preserves proj (get_strats resources).
Proof.
  intros Hh Hp. unfold get_strats.
  apply preserves_bind; [auto with frame|]. intros rp.
  apply preserves_bind; [auto with frame|]. intros h.
  apply preserves_bind; [auto with frame|]. intros [rl lk].
  apply preserves_bind; [auto with frame|]. intros [tp vp].
  destruct tp as [|p tp]; [auto with frame|].
  destruct (Nat.ltb 1 (length (p :: tp))).
  - generalize (dedup_strats (product (p :: tp)) []) as ts.
    generalize (@nil (string * strat_pool)) as ns.
    intros ns ts. revert ns.
    induction ts as [|t ts IH]; intros ns; cbn [combine_all]; [auto with frame|].
    apply preserves_bind; [now apply combine_preserves | intros; apply IH].
  - now apply single_pools_preserves.
Qed.

Lemma get_strats_grown resources : keeps grown (get_strats resources).
Proof.
  unfold get_strats.
  apply (keeps_bind grown grown_trans); [apply (keeps_gets grown grown_refl)|]. intros rp.
  apply (keeps_bind grown grown_trans); [apply (keeps_gets grown grown_refl)|]. intros h.
  apply (keeps_bind grown grown_trans); [apply (keeps_lift grown grown_refl)|].
  intros [rl lk].
  apply (keeps_bind grown grown_trans); [apply (keeps_lift grown grown_refl)|].
  intros [tp vp].
  destruct tp as [|p tp]; [apply (keeps_raise grown grown_refl)|].
  destruct (Nat.ltb 1 (length (p :: tp))).
  - generalize (dedup_strats (product (p :: tp)) []) as ts.
    generalize (@nil (string * strat_pool)) as ns.
    intros ns ts. revert ns.
    induction ts as [|t ts IH]; intros ns; cbn [combine_all];
      [apply (keeps_ret grown grown_refl)|].
    apply (keeps_bind grown grown_trans); [apply combine_grown | intros; apply IH].
  - apply preserves_grown, single_pools_preserves. reflexivity.
Qed.

(** X15. [get_strats] leaves the entries of the pool and [rtable] as they
    were, whether it returns or raises: it neither adds, removes nor
    replaces an entry.  [pipe_list] only grows at its end, so the ordinal
    of a lineage key is the same after the call. *)
Theorem get_strats_frame (resources : list input) (s : state) :
  let s' := snd (get_strats resources s) in
  rpool s' = rpool s /\
  rtable s' = rtable s /\
  (exists added, pipe_list s' = pipe_list s ++ added) /\
  (forall idx n, fst (get_pipe_number idx s) = Ok n ->
                 fst (get_pipe_number idx s') = Ok n).
Proof.
  cbv zeta.
  pose proof (get_strats_grown resources s) as [added Hadd].
  split_and!.
  - apply (get_strats_preserves rpool); reflexivity.
  - apply (get_strats_preserves rtable); reflexivity.
  - eauto.
  - intros idx n. rewrite !get_pipe_number_eq, Hadd. cbn [fst].
    destruct (index_of idx (pipe_list s)) as [m|] eqn:E; [|discriminate].
    now rewrite (index_of_app _ _ _ _ E).
Qed.

(** ** Lineage keys and the duplicates [get_strats] removes *)

(** X16. A lineage key stands for one chain: two chains for which
    [generate_prov_string] gives the same key are the same chain, and so
    name the same resource. *)
Theorem lineage_key_unique (a b : list prov) (ra rb key : string) :
  generate_prov_string a = Ok (ra, key) ->
  generate_prov_string b = Ok (rb, key) ->
  a = b /\ ra = rb.
Proof.
  intros Ha Hb.
  pose proof (generate_prov_string_key _ _ _ Ha) as Hka.
  pose proof (generate_prov_string_key _ _ _ Hb) as Hkb.
  assert (a = b) by (apply py_str_inj; congruence). subst b.
  split; [reflexivity | congruence].
Qed.

Lemma lineage_key_unique_witness :
  [PStr "T1w:anat_ingress"; PStr "desc-preproc_T1w:anatomical_init"]
  = [PStr "T1w:anat_ingress"; PStr "desc-preproc_T1w:anatomical_init"] /\
  "desc-preproc_T1w" = "desc-preproc_T1w".
Proof.
  apply (lineage_key_unique
           [PStr "T1w:anat_ingress"; PStr "desc-preproc_T1w:anatomical_init"]
           [PStr "T1w:anat_ingress"; PStr "desc-preproc_T1w:anatomical_init"]
           "desc-preproc_T1w" "desc-preproc_T1w"
           "['T1w:anat_ingress', 'desc-preproc_T1w:anatomical_init']");
    reflexivity.
Defined.

Lemma dedup_strats_seen ts : forall seen t,
  In t (dedup_strats ts seen) -> ~ In (strat_str t) seen.
Proof.
  induction ts as [|t0 ts IH]; intros seen t; cbn [dedup_strats]; [intros []|].
  destruct (existsb (String.eqb (strat_str t0)) seen) eqn:E; [apply IH|].
  intros [<- | Hin].
  - intros H. apply mem_true in H. unfold mem in H. congruence.
  - intros H. apply (IH _ _ Hin). apply in_or_app. now left.
Qed.

Lemma dedup_strats_NoDup ts : forall seen, NoDup (dedup_strats ts seen).
Proof.
  induction ts as [|t0 ts IH]; intros seen; cbn [dedup_strats]; [constructor|].
  destruct (existsb (String.eqb (strat_str t0)) seen); [apply IH|].
  constructor; [|apply IH].
  intros Hin. apply list_elem_of_In in Hin.
  apply (dedup_strats_seen _ _ _ Hin). apply in_or_app. right. now left.
Qed.

Lemma dedup_strats_complete ts : forall seen t,
  In t ts -> ~ In (strat_str t) seen -> In t (dedup_strats ts seen).
Proof.
  induction ts as [|t0 ts IH]; intros seen t; [intros []|].
  cbn [dedup_strats]. intros [-> | Hin] Hseen.
  - destruct (existsb (String.eqb (strat_str t)) seen) eqn:E; [|now left].
    exfalso. apply Hseen. apply mem_true. exact E.
  - destruct (existsb (String.eqb (strat_str t0)) seen) eqn:E; [now apply IH|].
    destruct (String.eqb_spec (strat_str t) (strat_str t0)) as [Heq|Hne].
    + left. symmetry. now apply strat_str_inj.
    + right. apply IH; [assumption|].
      intros H. apply in_app_or in H as [H | [H | []]]; [contradiction|].
      congruence.
Qed.

(** The pass over a concatenation: the second part is filtered with what
    the first part has added to the strings seen. *)
Lemma dedup_strats_app l1 l2 : forall seen,
  dedup_strats (l1 ++ l2) seen
  = dedup_strats l1 seen
    ++ dedup_strats l2 (seen ++ map strat_str (dedup_strats l1 seen)).
Proof.
  induction l1 as [|t0 l1 IH]; intros seen; cbn [app dedup_strats].
  - cbn [map]. now rewrite app_nil_r.
  - destruct (existsb (String.eqb (strat_str t0)) seen); [apply IH|].
    cbn [app map]. rewrite IH. do 3 f_equal.
    now rewrite <- app_assoc.
Qed.

(** X17. The removal of duplicates in [get_strats] loses no combination
    and keeps the order of first occurrence: the list it keeps has every
    combination of the cross product, each once (also by string form), and
    where a combination occurs first in the cross product, after the
    combinations [before], it stands in the kept list after exactly the
    combinations that occur in [before], and is followed only by
    combinations that occur after it. *)
Theorem dedup_strats_spec (total_pool : list (list (list prov))) :
  let kept := dedup_strats (product total_pool) [] in
  NoDup kept /\
  NoDup (map strat_str kept) /\
  (forall strat_list, In strat_list kept <-> In strat_list (product total_pool)) /\
  forall before strat_list after,
    product total_pool = before ++ strat_list :: after ->
    ~ In strat_list before ->
    exists kept_before kept_after,
      kept = kept_before ++ strat_list :: kept_after /\
      (forall t, In t kept_before <-> In t before) /\
      (forall t, In t kept_after -> In t after).
Proof.
  cbv zeta. split_and!.
  - apply dedup_strats_NoDup.
  - apply NoDup_ListNoDup, NoDup_map_strat_str, NoDup_ListNoDup, dedup_strats_NoDup.
  - intros t. split; [apply dedup_strats_in|].
    intros H. apply dedup_strats_complete; [assumption | intros []].
  - intros before t after -> Hfirst.
    rewrite dedup_strats_app. cbn [app dedup_strats].
    destruct (existsb (String.eqb (strat_str t))
                (map strat_str (dedup_strats before []))) eqn:E.
    { exfalso. apply mem_true in E. apply in_map_iff in E as (u & Hu & Hin).
      apply strat_str_inj in Hu. subst u. apply Hfirst.
      eapply dedup_strats_in. exact Hin. }
    eexists _, _. split; [reflexivity|]. split.
    + intros u. split; [apply dedup_strats_in|].
      intros H. apply dedup_strats_complete; [assumption | intros []].
    + intros u. apply dedup_strats_in.
Qed.

(** ** The configuration of a node block *)

(** X18. [grab_tiered_dct] goes down the configuration key by key: the
    value under [keys1 + keys2] is the value under [keys2] of the value
    under [keys1], with the errors of the first part first.  So the value
    a node block reads under [config + keys] is the value under [keys] of
    its [config] section. *)
Theorem grab_tiered_dct_app (cfg : cval) (keys1 keys2 : list string) :
  grab_tiered_dct cfg (keys1 ++ keys2)
  = rbind (grab_tiered_dct cfg keys1) (fun v => grab_tiered_dct v keys2).
Proof.
  revert cfg. induction keys1 as [|k keys1 IH]; intros cfg; [reflexivity|].
  cbn [app grab_tiered_dct]. destruct cfg as [| | | |d]; try reflexivity.
  destruct (dget k d); [apply IH | reflexivity].
Qed.

Lemma guard_lookup_ok {A} (r : result A) x : guard_lookup r = Ok x <-> r = Ok x.
Proof. destruct r as [[]|a]; cbn; split; congruence. Qed.

(** Where the lookup under [try] returns, it returns what the lookup
    without [try] does. *)
Lemma selected_guarded cfg key_list vals opts :
  selected true cfg key_list vals = Ok opts <->
  selected false cfg key_list vals = Ok opts.
Proof.
  revert opts. induction vals as [|v vals IH]; intros opts; [reflexivity|].
  cbn [selected].
  destruct (rbind (grab_tiered_dct cfg key_list) (opt_in v)) as [e|yes] eqn:E.
  - cbn [rbind]. split; [|discriminate]. destruct e; discriminate.
  - cbn [guard_lookup rbind].
    destruct (selected true cfg key_list vals) as [e1|l1];
      destruct (selected false cfg key_list vals) as [e2|l2]; cbn [rbind].
    + split; discriminate.
    + pose proof (proj2 (IH l2) eq_refl). discriminate.
    + pose proof (proj1 (IH l1) eq_refl). discriminate.
    + pose proof (proj1 (IH l1) eq_refl) as H. inversion H; subst. reflexivity.
Qed.

Lemma listed_paths_raises guarded cfg b vals opts :
  listed_paths guarded cfg b vals <> Ok opts.
Proof.
  unfold listed_paths.
  assert (H : forall o, rbind (grab_tiered_dct cfg (under_config b []))
                          (fun v => rbind (subscript_list v)
                                      (fun _ => Ok (@nil cval))) <> Ok o).
  { intros o. destruct (grab_tiered_dct cfg _) as [e|[| | | |]]; discriminate. }
  destruct (existsb _ vals); [apply H|].
  destruct guarded; [|apply H]. intros Hg. apply (proj1 (guard_lookup_ok _ _)) in Hg.
  now apply H in Hg.
Qed.

Lemma listed_opts_length cfg b keys vals opts all :
  listed_opts false cfg b keys vals [] = Ok opts ->
  listed_opts true cfg b keys vals [CNone] = Ok all ->
  length opts <= length all.
Proof.
  unfold listed_opts. destruct (existsb _ vals).
  2:{ intros H1 H2. apply selected_guarded in H2.
      replace all with opts by congruence. lia. }
  destruct (grab_tiered_dct cfg _) as [e|[| | |l|]]; cbn [rbind]; try discriminate.
  - intros H1 H2. inversion H1; inversion H2; subst. cbn. lia.
  - intros H1 H2. inversion H1; inversion H2; subst. lia.
Qed.

Lemma opts_of_length cfg b opts all :
  opts_of cfg b = Ok opts -> opts_for_all cfg b = Ok all ->
  Nat.ltb 1 (length opts) = true -> Nat.ltb 1 (length all) = true.
Proof.
  unfold opts_of, opts_for_all. intros H1 H2 Hlt. apply Nat.ltb_lt in Hlt.
  apply Nat.ltb_lt.
  destruct (truthy_paths (option_key b)) as [[keys|lists]|];
    destruct (truthy_list (option_val b)) as [vals|];
    try discriminate; try (inversion H1; subst; cbn in Hlt; lia);
    try (now apply listed_paths_raises in H1).
  pose proof (listed_opts_length _ _ _ _ _ _ H1 H2). lia.
Qed.

Lemma all_opts_of_length cfg node_blocks : forall all_opts b,
  all_opts_of cfg node_blocks = Ok all_opts -> In b node_blocks ->
  exists opts, opts_for_all cfg b = Ok opts /\ length opts <= length all_opts.
Proof.
  induction node_blocks as [|b0 bs IH]; intros all_opts b; [intros _ []|].
  cbn [all_opts_of].
  destruct (opts_for_all cfg b0) as [e|opts0] eqn:E0; cbn [rbind]; [discriminate|].
  destruct (all_opts_of cfg bs) as [e|rest] eqn:Er; cbn [rbind]; [discriminate|].
  intros H. inversion H; subst. rewrite length_app. intros [<- | Hin].
  - exists opts0. split; [assumption | lia].
  - destruct (IH _ _ eq_refl Hin) as (opts & Ho & Hle). exists opts. split; [assumption | lia].
Qed.

(** X19. Of the three conditions under which [connect_block] takes an
    invocation for a fork, the middle one adds nothing: the options of a
    block are among the options of all blocks, so whenever the block has
    more than one option, all blocks together have.  The test is
    [fork or len(all_opts) > 1]. *)
Theorem is_fork_two_conditions (cfg : cval) (node_blocks : list block) (b : block)
  (all_opts opts : list cval) (fork : bool) :
  all_opts_of cfg node_blocks = Ok all_opts ->
  In b node_blocks ->
  opts_of cfg b = Ok opts ->
  is_fork fork opts all_opts = fork || Nat.ltb 1 (length all_opts).
Proof.
  intros Hall Hin Hopts. unfold is_fork.
  destruct (all_opts_of_length _ _ _ _ Hall Hin) as (opts' & Ho & Hle).
  destruct (Nat.ltb 1 (length opts)) eqn:E; [|now rewrite orb_false_r].
  pose proof (opts_of_length _ _ _ _ Hopts Ho E) as H.
  apply Nat.ltb_lt in H.
  replace (Nat.ltb 1 (length all_opts)) with true
    by (symmetry; apply Nat.ltb_lt; lia).
  now rewrite !orb_true_r.
Qed.

Lemma is_fork_two_conditions_witness :
  let cfg := CDict [("anatomical_preproc",
                     CDict [("brain_extraction",
                             CDict [("using", CList [CStr "3dSkullStrip";
                                                     CStr "BET"])])])] in
  let b := {| name := "brain_mask";
              config := Some ["anatomical_preproc"; "brain_extraction"];
              switch := None;
              option_key := Some (Path ["using"]);
              option_val := Some ["3dSkullStrip"; "BET"];
              inputs := [Single (Name "T1w")];
              outputs := OutNames ["space-T1w_desc-brain_mask"] |} in
  is_fork false [CStr "3dSkullStrip"; CStr "BET"] [CStr "3dSkullStrip"; CStr "BET"]
  = false || Nat.ltb 1 (length [CStr "3dSkullStrip"; CStr "BET"]).
Proof.
  intros cfg b.
  apply (is_fork_two_conditions cfg [b] b); [reflexivity | now left | reflexivity].
Defined.

(** ** The metadata of an output before its fork tag: [describe] *)

Lemma dget_discard_ne {V} k k' (d : pydict V) :
  k <> k' -> dget k' (discard k d) = dget k' d.
Proof. apply dget_ddel_ne. Qed.

(** The metadata [describe] builds for an output of a node block that
    declares its outputs as a list of names, field by field. *)
Lemma describe_names_fields (names : list string) (label : string)
  (sources : list string) (info : jdict) :
  match describe (OutNames names) label sources info with
  | inr pre =>
      dget "Sources" pre = Some (JStrs sources) /\
      dget "Description" pre = None /\
      dget "subjson" pre = None /\
      dget "SkullStripped" pre
      = match subjson_item info (data_type_of label) with
        | inr (Some typed) =>
            match dget "SkullStripped" typed with
            | Some v => Some v
            | None => dget "SkullStripped" info
            end
        | _ => dget "SkullStripped" info
        end /\
      forall k, k <> "Sources" -> k <> "Description" -> k <> "subjson" ->
                k <> "SkullStripped" -> dget k pre = dget k info
  | inl e =>
      subjson_item info (data_type_of label) = Raise e /\
      (dget "subjson" info = None -> e = KeyError)
  end.
Proof.
  unfold describe.
  destruct (subjson_item info (data_type_of label)) as [e|typed] eqn:Es;
    cbn [rbind].
  { split; [reflexivity|]. intros Hnone. unfold subjson_item in Es.
    rewrite Hnone in Es. now inversion Es. }
  set (info1 := match typed ≫= dget "SkullStripped" with
                | Some v => dset "SkullStripped" v info
                | None => info
                end).
  assert (H1 : forall k, k <> "SkullStripped" -> dget k info1 = dget k info).
  { intros k Hk. subst info1. destruct (typed ≫= dget "SkullStripped"); [|reflexivity].
    apply dget_dset_ne. congruence. }
  assert (Hd : dget "Description"
                 (discard "Description" (dset "Sources" (JStrs sources) info1)) = None)
    by apply dget_ddel_eq.
  rewrite Hd. cbn [rbind].
  split_and!.
  - rewrite !dget_discard_ne by discriminate. apply dget_dset_eq.
  - rewrite dget_discard_ne by discriminate. exact Hd.
  - apply dget_ddel_eq.
  - rewrite !dget_discard_ne by discriminate. rewrite dget_dset_ne by discriminate.
    subst info1. destruct typed as [typed|]; cbn [mbind option_bind]; [|reflexivity].
    destruct (dget "SkullStripped" typed); [apply dget_dset_eq | reflexivity].
  - intros k Hs Hd' Hj Hk. rewrite !dget_discard_ne by congruence.
    rewrite dget_dset_ne by congruence. now apply H1.
Qed.

Lemma tag_fork_other fork opts all_opts label node_name pre post :
  tag_fork fork opts all_opts label node_name pre = Ok post ->
  forall k, k <> "CpacVariant" -> dget k post = dget k pre.
Proof.
  unfold tag_fork. destruct (is_fork fork opts all_opts); [|intros H; now inversion H].
  intros H k Hk.
  set (pre1 := if dmem "CpacVariant" pre then pre
               else dset "CpacVariant" (JVariant []) pre) in *.
  assert (H1 : dget k pre1 = dget k pre).
  { subst pre1. destruct (dmem "CpacVariant" pre); [reflexivity|].
    now rewrite dget_dset_ne. }
  destruct (dget "CpacVariant" pre1) as [[| | | | |d|]|]; try discriminate.
  destruct (dget (get_raw_label label) _) as [[tags|t]|]; try discriminate.
  inversion H; subst post. now rewrite dget_dset_ne.
Qed.

(** A commit that returns, step by step. *)
Lemma commit_output_inv outs fork opts all_opts sp replaced_inputs pipe_idx
  node_name label connection s s' l :
  commit_output outs fork opts all_opts sp replaced_inputs pipe_idx node_name
    label connection s = (Ok l, s') ->
  exists merged pre post,
    check_output outs label = Ok tt /\
    strat_json sp s = (Ok merged, s) /\
    describe outs label (sources_of sp replaced_inputs) merged = Ok pre /\
    tag_fork fork opts all_opts label node_name pre = Ok post /\
    heap s' !! l = Some post.
Proof.
  unfold commit_output. intros Hrun.
  apply bind_ok_inv in Hrun as ([] & s1 & H1 & Hrun).
  unfold lift in H1. inversion H1 as [[Hcheck Hs]]; subst s1; clear H1.
  apply bind_ok_inv in Hrun as (merged & s1 & H1 & Hrun).
  assert (Hs1 : s1 = s).
  { revert H1. unfold strat_json. destruct (dget "json" sp) as [[j|e]|];
      try discriminate.
    unfold deref. destruct (heap s !! j); intros H; now inversion H. }
  subst s1.
  apply bind_ok_inv in Hrun as (pre & s1 & H2 & Hrun).
  unfold lift in H2. inversion H2 as [[Hdescribe Hs]]; subst s1; clear H2.
  apply bind_ok_inv in Hrun as (post & s1 & H3 & Hrun).
  unfold lift in H3. inversion H3 as [[Htag Hs]]; subst s1; clear H3.
  apply bind_ok_inv in Hrun as (j & s1 & H4 & Hrun).
  unfold alloc in H4. inversion H4; subst j s1; clear H4.
  apply bind_ok_inv in Hrun as ([] & s2 & H5 & Hrun).
  unfold ret in Hrun. inversion Hrun; subst l s2; clear Hrun.
  set (s1 := with_heap (fun h => h ++ [post]) s) in *.
  assert (Hj : heap s1 !! length (heap s) = Some post).
  { subst s1. simpl. rewrite lookup_app_r by lia. now rewrite Nat.sub_diag. }
  destruct (set_data_effect label (fst connection) (snd connection)
              (length (heap s)) pipe_idx node_name fork false s1 post Hj)
    as [Hkeep _].
  rewrite H5 in Hkeep. cbn [snd] in Hkeep.
  exists merged, pre, post. split_and!; auto.
Qed.

(** X20. The metadata [connect_block] hands to [set_data] for an output of
    a node block that declares its outputs as a list of names, where the
    output is declared and the strategy pool has its merged metadata:
    'Sources' lists the resources of the strategy pool, in its order,
    without 'json' and without the inputs the interface has renamed;
    'Description' and 'subjson' are not passed on; 'SkullStripped' is that
    of the metadata of the data type of the output when there is one; and
    every other field but the fork tags is that of the merged metadata of
    the inputs.  Merged metadata without 'subjson' makes the commit raise
    [KeyError]. *)
Theorem commit_output_names (names : list string) (fork : bool)
  (opts all_opts : list cval) (sp : strat_pool) (replaced_inputs : list string)
  (pipe_idx node_name label : string) (connection : producer) (s : state)
  (merged : jdict) :
  check_output (OutNames names) label = Ok tt ->
  strat_json sp s = (Ok merged, s) ->
  let out := commit_output (OutNames names) fork opts all_opts sp replaced_inputs
               pipe_idx node_name label connection s in
  (dget "subjson" merged = None -> fst out = Raise KeyError) /\
  forall l, fst out = Ok l ->
    exists post,
      heap (snd out) !! l = Some post /\
      dget "Sources" post = Some (JStrs (sources_of sp replaced_inputs)) /\
      sources_of sp replaced_inputs
      = List.filter
          (fun x => negb (String.eqb x "json") && negb (mem x replaced_inputs))
          (dkeys sp) /\
      (forall x, In x (sources_of sp replaced_inputs) <->
                 In x (dkeys sp) /\ x <> "json" /\ ~ In x replaced_inputs) /\
      dget "Description" post = None /\
      dget "subjson" post = None /\
      dget "SkullStripped" post
      = match subjson_item merged (data_type_of label) with
        | inr (Some typed) =>
            match dget "SkullStripped" typed with
            | Some v => Some v
            | None => dget "SkullStripped" merged
            end
        | _ => dget "SkullStripped" merged
        end /\
      forall k, k <> "Sources" -> k <> "Description" -> k <> "subjson" ->
                k <> "SkullStripped" -> k <> "CpacVariant" ->
                dget k post = dget k merged.
Proof.
  intros Hcheck Hjson out. split.
  - intros Hnone. subst out. unfold commit_output, bind, lift.
    rewrite Hcheck, Hjson. unfold describe, subjson_item. now rewrite Hnone.
  - intros l Hl.
    assert (Hrun : commit_output (OutNames names) fork opts all_opts sp
                     replaced_inputs pipe_idx node_name label connection s
                   = (Ok l, snd out)).
    { subst out. destruct (commit_output _ _ _ _ _ _ _ _ _ _ s) as [r s'].
      cbn [fst snd] in *. now subst r. }
    destruct (commit_output_inv _ _ _ _ _ _ _ _ _ _ _ _ _ Hrun)
      as (merged' & pre & post & _ & Hm & Hd & Ht & Hpost).
    assert (Hsame : merged' = merged) by congruence. subst merged'. clear Hm.
    pose proof (describe_names_fields names label
                  (sources_of sp replaced_inputs) merged) as Hf.
    rewrite Hd in Hf. destruct Hf as (Hsrc & Hdesc & Hsub & Hskull & Hrest).
    pose proof (tag_fork_other _ _ _ _ _ _ _ Ht) as Hother.
    exists post. split_and!.
    + assumption.
    + rewrite Hother by discriminate. assumption.
    + reflexivity.
    + intros x. unfold sources_of. rewrite filter_In, andb_true_iff, !negb_true_iff.
      split.
      * intros (Hin & Hj & Hr). split_and!; [assumption | |].
        -- intros ->. rewrite String.eqb_refl in Hj. discriminate.
        -- intros Hx. apply (proj2 (mem_true _ _)) in Hx. congruence.
      * intros (Hin & Hj & Hr). split_and!; [assumption | |].
        -- now apply String.eqb_neq.
        -- destruct (mem x replaced_inputs) eqn:E; [|reflexivity].
           apply (proj1 (mem_true _ _)) in E. contradiction.
    + rewrite Hother by discriminate. assumption.
    + rewrite Hother by discriminate. assumption.
    + rewrite Hother by discriminate. assumption.
    + intros k H1 H2 H3 H4 H5. rewrite Hother by assumption. now apply Hrest.
Qed.

Lemma commit_output_names_witness :
  let s0 := {| rpool := []; pipe_list := []; rtable := [];
               heap := [[("CpacProvenance", JProv [PStr "T1w:anat_ingress"]);
                         ("Description", JStr "raw  anatomical")]] |} in
  let s := snd (get_strats [Single (Name "T1w")]
                  (snd (set_data "T1w" "anat_ingress" "outputspec.data" 0
                          EmptyString "anat_ingress" false true s0))) in
  let sp := [("T1w", SPEntry {| data := Some ("anat_ingress", "outputspec.data");
                                json := Some 1 |});
             ("json", SPJson 1)] in
  let out := commit_output (OutNames ["desc-preproc_T1w"]) false [CNone] [CNone]
               sp [] "['T1w:anat_ingress']" "anatomical_init" "desc-preproc_T1w"
               ("anat_init", "outputspec.out") s in
  check_output (OutNames ["desc-preproc_T1w"]) "desc-preproc_T1w" = Ok tt /\
  (exists merged, strat_json sp s = (Ok merged, s) /\
                  dget "Description" merged = Some (JStr "raw  anatomical")) /\
  fst out = Ok 2 /\
  exists post,
    heap (snd out) !! 2 = Some post /\
    dget "Sources" post = Some (JStrs ["T1w"]) /\
    dget "Description" post = None /\
    dget "subjson" post = None /\
    dget "CpacProvenance" post = Some (JProv [PStr "T1w:anat_ingress"]).
Proof.
  intros s0 s sp out.
  assert (Hcheck : check_output (OutNames ["desc-preproc_T1w"]) "desc-preproc_T1w"
                   = Ok tt) by reflexivity.
  assert (Hjson : strat_json sp s
                  = (Ok (default [] (heap s !! 1)), s)) by (vm_compute; reflexivity).
  split; [exact Hcheck|]. split.
  { eexists. split; [exact Hjson | vm_compute; reflexivity]. }
  split; [vm_compute; reflexivity|].
  destruct (commit_output_names ["desc-preproc_T1w"] false [CNone] [CNone] sp []
              "['T1w:anat_ingress']" "anatomical_init" "desc-preproc_T1w"
              ("anat_init", "outputspec.out") s _ Hcheck Hjson) as [_ H].
  destruct (H 2) as (post & Hpost & Hsrc & _ & _ & Hdesc & Hsub & _ & Hrest);
    [vm_compute; reflexivity|].
  exists post. split_and!; try assumption.
  rewrite Hrest by discriminate. vm_compute. reflexivity.
Defined.

(** ** What a strategy pool holds *)

Lemma merge_one_inv idx p sp m s sp' m' s' :
  merge_one idx p (sp, m) s = (Ok (sp', m'), s') ->
  exists name k e,
    generate_prov_string p = Ok (name, k) /\
    dget name (rpool s) ≫= dget k = Some e /\
    sp' = dset name (SPEntry e) sp /\
    rpool s' = rpool s /\ heap s' = heap s /\
    dget "CpacProvenance" m' = dget "CpacProvenance" m.
Proof.
  unfold merge_one. intros Hrun.
  apply bind_ok_inv in Hrun as ([name k] & s1 & H1 & Hrun).
  unfold lift in H1. inversion H1 as [[Hg Hs]]; subst s1; clear H1.
  apply bind_ok_inv in Hrun as (rp & s2 & H1 & Hrun).
  unfold gets in H1. inversion H1; subst rp s2; clear H1.
  apply bind_ok_inv in Hrun as (e & s3 & H1 & Hrun).
  unfold lift in H1.
  destruct (dget name (rpool s) ≫= dget k) as [e0|] eqn:He; [|discriminate].
  inversion H1; subst e0 s3; clear H1.
  apply bind_ok_inv in Hrun as ([] & s4 & H1 & Hrun).
  unfold modify in H1. inversion H1; subst s4; clear H1.
  apply bind_ok_inv in Hrun as (l & s5 & H1 & Hrun).
  unfold lift in H1. destruct (json e); [|discriminate].
  inversion H1; subst s5; clear H1.
  apply bind_ok_inv in Hrun as (info & s6 & H1 & Hrun).
  unfold deref in H1. destruct (heap _ !! l); [|discriminate].
  inversion H1; subst s6; clear H1.
  apply bind_ok_inv in Hrun as (v & s7 & H1 & Hrun).
  unfold lift in H1. inversion H1 as [[Hv Hs]]; subst s7; clear H1.
  apply bind_ok_inv in Hrun as (m1 & s8 & H1 & Hrun).
  assert (Hm1 : dget "CpacProvenance" m1 = dget "CpacProvenance" m /\
                s8 = with_pipe_list (fun pl => pl ++ [idx]) s).
  { destruct v as [d|].
    - destruct (default (JVariant []) (dget "CpacVariant" m)); try discriminate.
      unfold ret in H1. inversion H1; subst. split; [|reflexivity].
      now rewrite dget_dset_ne.
    - unfold ret in H1. inversion H1; subst. auto. }
  destruct Hm1 as [Hm1 ->]. clear H1.
  apply bind_ok_inv in Hrun as (m2 & s9 & H1 & Hrun).
  unfold lift in H1. inversion H1 as [[Hsub Hs]]; subst s9; clear H1.
  unfold ret in Hrun. inversion Hrun; subst sp' m' s'.
  exists name, k, e. split_and!; try reflexivity; try assumption.
  unfold add_subjson in Hsub.
  destruct (dget "subjson" m1) as [[]|]; try discriminate.
  destruct (default _ _); try discriminate.
  inversion Hsub; subst. now rewrite dget_dset_ne.
Qed.

Lemma merge_all_inv idx t : forall sp m s sp' m' s',
  merge_all idx t (sp, m) s = (Ok (sp', m'), s') ->
  rpool s' = rpool s /\ heap s' = heap s /\
  dget "CpacProvenance" m' = dget "CpacProvenance" m /\
  (forall x, dmem x sp = true -> dmem x sp' = true) /\
  (forall p, In p t ->
             exists name k, generate_prov_string p = Ok (name, k) /\
                            dmem name sp' = true) /\
  (forall x v, dget x sp' = Some v ->
               dget x sp = Some v \/
               exists e p k, v = SPEntry e /\ In p t /\
                             generate_prov_string p = Ok (x, k) /\
                             dget x (rpool s) ≫= dget k = Some e).
Proof.
  induction t as [|p t IH]; intros sp m s sp' m' s' Hrun; cbn [merge_all] in Hrun.
  - unfold ret in Hrun. inversion Hrun; subst.
    split_and!; try reflexivity; [auto | intros p [] | auto].
  - apply bind_ok_inv in Hrun as ([sp1 m1] & s1 & H1 & Hrun).
    destruct (merge_one_inv _ _ _ _ _ _ _ _ H1)
      as (name & k & e & Hg & He & -> & Hrp & Hh & Hm).
    destruct (IH _ _ _ _ _ _ Hrun) as (Hrp' & Hh' & Hm' & Hmono & Hall & Hsub).
    split_and!; try congruence.
    + intros x Hx. now apply Hmono, dmem_dset_mono.
    + intros p0 [<- | Hin]; [|now apply Hall].
      exists name, k. split; [assumption|]. apply Hmono, dmem_dset_eq.
    + intros x v Hx.
      destruct (Hsub x v Hx) as [Hx1 | (e0 & p0 & k0 & -> & Hin & Hg0 & He0)].
      * apply dget_dset_inv in Hx1 as [[-> ->] | Hx1]; [|now left].
        right. exists e, p, k.
        split_and!; [reflexivity | now left | assumption | assumption].
      * right. exists e0, p0, k0. rewrite Hrp in He0.
        split_and!; [reflexivity | now right | assumption | assumption].
Qed.

Lemma holds_extends rp h h' t sp : holds rp h t sp -> extends h h' -> holds rp h' t sp.
Proof.
  intros (H1 & H2 & H3) Hext. split_and!; [assumption | | assumption].
  intros x v Hx. specialize (H2 x v Hx). destruct v as [l|e]; [|assumption].
  destruct H2 as (-> & m & Hm & Hp). split; [reflexivity|]. exists m. auto.
Qed.

Lemma combine_holds vp lk t ns s ns' s' :
  combine vp lk t ns s = (Ok ns', s') ->
  ns' = ns \/
  exists sp, ns' = dset (strat_str t) sp ns /\ holds (rpool s) (heap s') t sp.
Proof.
  unfold combine. intros Hrun.
  apply bind_ok_inv in Hrun as (rp & s1 & H1 & Hrun).
  unfold gets in H1. inversion H1; subst rp s1; clear H1.
  apply bind_ok_inv in Hrun as (h & s2 & H1 & Hrun).
  unfold gets in H1. inversion H1; subst h s2; clear H1.
  apply bind_ok_inv in Hrun as (jd & s3 & H1 & Hrun).
  unfold lift in H1. inversion H1 as [[Hjd Hs]]; subst s3; clear H1.
  apply bind_ok_inv in Hrun as (b & s4 & H1 & Hrun).
  unfold lift in H1. inversion H1 as [[Hb Hs]]; subst s4; clear H1.
  destruct b.
  { unfold ret in Hrun. inversion Hrun. now left. }
  right.
  apply bind_ok_inv in Hrun as (l & s5 & H1 & Hrun).
  unfold alloc in H1. inversion H1; subst l s5; clear H1.
  apply bind_ok_inv in Hrun as ([sp m] & s6 & H1 & Hrun).
  destruct (merge_all_inv _ _ _ _ _ _ _ _ H1) as (Hrp & Hh & Hm & Hmono & Hall & Hsub).
  cbn [rpool heap with_heap] in Hrp, Hh, Hsub.
  apply bind_ok_inv in Hrun as ([] & s7 & H1' & Hrun).
  unfold store_all, modify in H1'. inversion H1'; subst s7; clear H1'.
  unfold ret in Hrun. inversion Hrun; subst ns' s'; clear Hrun.
  exists sp. split; [reflexivity|]. cbn [fst snd heap with_heap]. rewrite Hh.
  assert (Hl : <[length (heap s) := m]> (heap s ++
               [[("subjson", JDict []); ("CpacProvenance", JProv (map PList t))]])
               !! length (heap s) = Some m).
  { apply list_lookup_insert_eq. rewrite length_app. cbn [length]. lia. }
  split_and!.
  - exact Hall.
  - intros x v Hx. destruct (Hsub x v Hx) as [Hx0 | (e & p & k & -> & Hin & Hg & He)].
    + cbn [dget] in Hx0. destruct (String.eqb_spec x "json") as [->|]; [|discriminate].
      inversion Hx0; subst v. split; [reflexivity|]. exists m. split; [exact Hl|].
      unfold cpac_provenance. rewrite Hm. reflexivity.
    + exists p, k. auto.
  - apply Hmono. reflexivity.
Qed.

Lemma combine_all_extends vp lk ts : forall ns s result s',
  combine_all vp lk ts ns s = (Ok result, s') ->
  rpool s' = rpool s /\ extends (heap s) (heap s').
Proof.
  induction ts as [|t ts IH]; intros ns s result s' Hrun; cbn [combine_all] in Hrun.
  - unfold ret in Hrun. inversion Hrun; subst. split; [reflexivity | now intros l d].
  - apply bind_ok_inv in Hrun as (ns1 & s1 & H1 & Hrun).
    destruct (combine_inv _ _ _ _ _ _ _ H1) as (Hr & Hext & _).
    destruct (IH _ _ _ _ Hrun) as (Hr' & Hext').
    split; [congruence | eapply extends_trans; eassumption].
Qed.

Lemma combine_all_holds vp lk ts : forall ns s result s' key sp,
  combine_all vp lk ts ns s = (Ok result, s') ->
  dget key result = Some sp ->
  dget key ns = Some sp \/
  exists t, In t ts /\ key = strat_str t /\ holds (rpool s) (heap s') t sp.
Proof.
  induction ts as [|t ts IH]; intros ns s result s' key sp Hrun Hkey;
    cbn [combine_all] in Hrun.
  - unfold ret in Hrun. inversion Hrun; subst. now left.
  - apply bind_ok_inv in Hrun as (ns1 & s1 & H1 & Hrun).
    destruct (combine_inv _ _ _ _ _ _ _ H1) as (Hr & _).
    destruct (combine_all_extends _ _ _ _ _ _ _ Hrun) as (_ & Hext).
    destruct (IH _ _ _ _ _ _ Hrun Hkey) as [Hns1 | (t0 & Hin & -> & Hholds)].
    + destruct (combine_holds _ _ _ _ _ _ _ H1) as [-> | (sp0 & -> & Hholds)];
        [now left|].
      apply dget_dset_inv in Hns1 as [[-> ->] | Hns]; [|now left].
      right. exists t. split_and!; [now left | reflexivity |].
      eapply holds_extends; eassumption.
    + right. exists t0. rewrite Hr in Hholds.
      split_and!; [now right | reflexivity | assumption].
Qed.

(** X21. What [get_strats] hands back for two present inputs or more:
    every strategy pool is that of a candidate combination, one chain per
    present input, and is keyed by the string form of the combination.
    It has an item for the resource every chain of the combination names;
    every entry in it is the entry of the pool that a chain of the
    combination names, under the name of its resource; and under 'json'
    it refers to the merged metadata, whose CpacProvenance is the
    combination. *)
Theorem get_strats_sub_pools (resources : list input) (s s' : state)
  (result : pydict strat_pool) (key : string) (sp : strat_pool) :
  get_strats resources s = (Ok result, s') ->
  Nat.ltb 1 (length (fst (gathered s resources))) = true ->
  dget key result = Some sp ->
  exists strat_list,
    In strat_list (candidates s resources) /\
    key = strat_str strat_list /\
    holds (rpool s) (heap s') strat_list sp.
Proof.
  intros Hrun Hlen Hkey. unfold candidates, gathered in *.
  unfold get_strats in Hrun.
  apply bind_ok_inv in Hrun as (rp & s1 & H1 & Hrun).
  unfold gets in H1. inversion H1; subst rp s1; clear H1.
  apply bind_ok_inv in Hrun as (h & s2 & H1 & Hrun).
  unfold gets in H1. inversion H1; subst h s2; clear H1.
  apply bind_ok_inv in Hrun as ([rl lk] & s3 & H1 & Hrun).
  unfold lift in H1. inversion H1 as [[Hcollect Hs]]; subst s3; clear H1.
  rewrite Hcollect in *. cbn [fst snd] in *.
  apply bind_ok_inv in Hrun as ([tp vp] & s4 & H1 & Hrun).
  unfold lift in H1. inversion H1 as [[Hgather Hs]]; subst s4; clear H1.
  rewrite Hgather in *. cbn [fst snd] in *.
  destruct tp as [|p0 tp0] eqn:Etp; [discriminate|]. rewrite <- Etp in *.
  rewrite Hlen in Hrun.
  destruct (combine_all_holds _ _ _ _ _ _ _ _ _ Hrun Hkey)
    as [Hnil | (t & Hin & -> & Hholds)]; [discriminate|].
  exists t. split_and!; [|reflexivity | assumption].
  eapply dedup_strats_in. exact Hin.
Qed.

Lemma get_strats_sub_pools_witness :
  let entry_at n l := {| data := Some (n, "outputspec.out"); json := Some l |} in
  let s := {| rpool := [("T1w", [("['T1w:anat_ingress']", entry_at "anat_ingress" 0)]);
                        ("bold",
                         [("['bold:func_ingress']", entry_at "func_ingress" 1);
                          ("['bold:func_ingress', 'bold:despike']",
                           entry_at "despike" 2)])];
              pipe_list := []; rtable := [];
              heap := [[("CpacProvenance", JProv [PStr "T1w:anat_ingress"])];
                       [("CpacProvenance", JProv [PStr "bold:func_ingress"])];
                       [("CpacProvenance",
                         JProv [PStr "bold:func_ingress"; PStr "bold:despike"]);
                        ("CpacVariant", JVariant [("bold", VList ["despike"])])]] |} in
  let resources := [Single (Name "T1w"); Single (Name "bold")] in
  let out := get_strats resources s in
  let key := "[['T1w:anat_ingress'], ['bold:func_ingress', 'bold:despike']]" in
  let sp := [("json", SPJson 4); ("T1w", SPEntry (entry_at "anat_ingress" 0));
             ("bold", SPEntry (entry_at "despike" 2))] in
  exists strat_list,
    In strat_list (candidates s resources) /\
    key = strat_str strat_list /\
    holds (rpool s) (heap (snd out)) strat_list sp.
Proof.
  intros entry_at s resources out key sp.
  apply (get_strats_sub_pools resources s (snd out)
           (match fst out with inr r => r | inl _ => [] end) key sp);
    reflexivity.
Defined.

(** ** [get_strats] and the metadata objects of the pool *)

(** X22. With two present inputs or more, [get_strats] leaves every
    metadata object of the store as it was: the merged metadata of each
    combination is a new object. *)
Theorem get_strats_leaves_metadata (resources : list input) (s s' : state)
  (result : pydict strat_pool) :
  get_strats resources s = (Ok result, s') ->
  Nat.ltb 1 (length (fst (gathered s resources))) = true ->
  forall l info, heap s !! l = Some info -> heap s' !! l = Some info.
Proof.
  intros Hrun Hlen. unfold gathered in *. unfold get_strats in Hrun.
  apply bind_ok_inv in Hrun as (rp & s1 & H1 & Hrun).
  unfold gets in H1. inversion H1; subst rp s1; clear H1.
  apply bind_ok_inv in Hrun as (h & s2 & H1 & Hrun).
  unfold gets in H1. inversion H1; subst h s2; clear H1.
  apply bind_ok_inv in Hrun as ([rl lk] & s3 & H1 & Hrun).
  unfold lift in H1. inversion H1 as [[Hcollect Hs]]; subst s3; clear H1.
  rewrite Hcollect in *. cbn [fst snd] in *.
  apply bind_ok_inv in Hrun as ([tp vp] & s4 & H1 & Hrun).
  unfold lift in H1. inversion H1 as [[Hgather Hs]]; subst s4; clear H1.
  rewrite Hgather in *. cbn [fst snd] in *.
  destruct tp as [|p0 tp0] eqn:Etp; [discriminate|]. rewrite <- Etp in *.
  rewrite Hlen in Hrun.
  apply (combine_all_extends _ _ _ _ _ _ _ Hrun).
Qed.

Lemma get_strats_leaves_metadata_witness :
  let entry_at n l := {| data := Some (n, "outputspec.out"); json := Some l |} in
  let s := {| rpool := [("T1w", [("['T1w:anat_ingress']", entry_at "anat_ingress" 0)]);
                        ("bold", [("['bold:func_ingress']", entry_at "func_ingress" 1)])];
              pipe_list := []; rtable := [];
              heap := [[("CpacProvenance", JProv [PStr "T1w:anat_ingress"])];
                       [("CpacProvenance", JProv [PStr "bold:func_ingress"])]] |} in
  let out := get_strats [Single (Name "T1w"); Single (Name "bold")] s in
  heap (snd out) !! 1 = Some [("CpacProvenance", JProv [PStr "bold:func_ingress"])].
Proof.
  intros entry_at s out.
  apply (get_strats_leaves_metadata [Single (Name "T1w"); Single (Name "bold")] s
           (snd out) (match fst out with inr r => r | inl _ => [] end));
    reflexivity.
Defined.

Lemma store_item_inv l k v s s' :
  store_item l k v s = (Ok tt, s') ->
  exists d, heap s !! l = Some d /\ s' = with_heap (fun h => <[l := dset k v d]> h) s.
Proof.
  unfold store_item, bind, deref, modify.
  destruct (heap s !! l) as [d|]; [|discriminate].
  intros H. inversion H. eauto.
Qed.

Lemma single_inv p ns s ns' s' :
  single p ns s = (Ok ns', s') ->
  exists name k e l info info',
    generate_prov_string p = Ok (name, k) /\
    dget name (rpool s) ≫= dget k = Some e /\
    json e = Some l /\
    ns' = dset k (dset "json" (SPJson l) [(name, SPEntry e)]) ns /\
    rpool s' = rpool s /\
    heap s !! l = Some info /\
    heap s' = <[l := info']> (heap s) /\
    dmem "subjson" info' = true /\
    dget "CpacProvenance" info' = Some (JProv p) /\
    (forall x, x <> "subjson" -> x <> "CpacProvenance" -> dget x info' = dget x info).
Proof.
  unfold single. intros Hrun.
  apply bind_ok_inv in Hrun as ([name k] & s1 & H1 & Hrun).
  unfold lift in H1. inversion H1 as [[Hg Hs]]; subst s1; clear H1.
  apply bind_ok_inv in Hrun as (rp & s2 & H1 & Hrun).
  unfold gets in H1. inversion H1; subst rp s2; clear H1.
  apply bind_ok_inv in Hrun as (e & s3 & H1 & Hrun).
  unfold lift in H1.
  destruct (dget name (rpool s) ≫= dget k) as [e0|] eqn:He; [|discriminate].
  inversion H1; subst e0 s3; clear H1.
  apply bind_ok_inv in Hrun as (l & s4 & H1 & Hrun).
  unfold lift in H1. destruct (json e) as [l0|] eqn:Hj; [|discriminate].
  inversion H1; subst l0 s4; clear H1.
  apply bind_ok_inv in Hrun as ([] & s5 & H1 & Hrun).
  apply store_item_inv in H1 as (d0 & Hd0 & ->).
  pose proof (lookup_lt_Some _ _ _ Hd0) as Hlt.
  apply bind_ok_inv in Hrun as ([] & s6 & H1 & Hrun).
  apply store_item_inv in H1 as (d1 & Hd1 & ->). cbn [heap with_heap] in Hd1.
  rewrite list_lookup_insert_eq in Hd1 by assumption. inversion Hd1; subst d1.
  apply bind_ok_inv in Hrun as ([] & s7 & H1 & Hrun).
  apply store_item_inv in H1 as (d2 & Hd2 & ->). cbn [heap with_heap] in Hd2.
  rewrite list_lookup_insert_eq in Hd2 by now rewrite length_insert.
  inversion Hd2; subst d2.
  apply bind_ok_inv in Hrun as (d3 & s8 & H1 & Hrun).
  unfold deref in H1. cbn [heap with_heap] in H1.
  rewrite list_lookup_insert_eq in H1 by now rewrite !length_insert.
  inversion H1; subst d3 s8; clear H1.
  apply bind_ok_inv in Hrun as ([] & s9 & H1 & Hrun).
  apply store_item_inv in H1 as (d4 & Hd4 & ->). cbn [heap with_heap] in Hd4.
  rewrite list_lookup_insert_eq in Hd4 by now rewrite !length_insert.
  inversion Hd4; subst d4.
  unfold ret in Hrun. inversion Hrun; subst ns' s'; clear Hrun.
  cbn [heap with_heap rpool] in *.
  eexists name, k, e, l, d0, _.
  do 3 (split; [assumption|]). do 2 (split; [reflexivity|]).
  split; [assumption|].
  split; [rewrite !list_insert_insert_eq; reflexivity|].
  split_and!.
  - apply dmem_dset_eq.
  - rewrite dget_dset_ne by discriminate. rewrite dget_dset_ne by discriminate.
    apply dget_dset_eq.
  - intros x Hx1 Hx2. rewrite !dget_dset_ne by congruence. reflexivity.
Qed.

Lemma single_has_subjson p ns s ns' s' :
  single p ns s = (Ok ns', s') ->
  forall l0, has_subjson (heap s) l0 -> has_subjson (heap s') l0.
Proof.
  intros Hrun l0 (info0 & Hl0 & Hsub).
  destruct (single_inv _ _ _ _ _ Hrun)
    as (name & k & e & l & info & info' & _ & _ & _ & _ & _ & Hl & Hh & Hs & _).
  rewrite Hh. destruct (Nat.eq_dec l l0) as [<-|Hne].
  - exists info'. split; [|assumption].
    apply list_lookup_insert_eq. eapply lookup_lt_Some; eassumption.
  - exists info0. split; [|assumption]. now rewrite list_lookup_insert_ne.
Qed.

Lemma single_all_inv pool : forall ns s result s',
  single_all pool ns s = (Ok result, s') ->
  rpool s' = rpool s /\
  (forall l0, has_subjson (heap s) l0 -> has_subjson (heap s') l0) /\
  forall key sp, dget key result = Some sp ->
    dget key ns = Some sp \/
    exists p name e l,
      In p pool /\ generate_prov_string p = Ok (name, key) /\
      dget name (rpool s) ≫= dget key = Some e /\ json e = Some l /\
      sp = dset "json" (SPJson l) [(name, SPEntry e)] /\
      has_subjson (heap s') l.
Proof.
  induction pool as [|p pool IH]; intros ns s result s' Hrun; cbn [single_all] in Hrun.
  - unfold ret in Hrun. inversion Hrun; subst. split_and!; auto.
  - apply bind_ok_inv in Hrun as (ns1 & s1 & H1 & Hrun).
    pose proof (single_has_subjson _ _ _ _ _ H1) as Hkeep.
    destruct (single_inv _ _ _ _ _ H1)
      as (name & k & e & l & info & info' & Hg & He & Hj & -> & Hrp & Hl & Hh & Hs & _).
    destruct (IH _ _ _ _ Hrun) as (Hrp' & Hkeep' & Hsub).
    split_and!; [congruence | auto |].
    intros key sp Hkey.
    destruct (Hsub key sp Hkey) as [Hns1 | (p0 & n0 & e0 & l0 & Hin & Hg0 & He0 & Hj0 & -> & Hsj)].
    + apply dget_dset_inv in Hns1 as [[-> ->] | Hns]; [|now left].
      right. exists p, name, e, l.
      split_and!; [now left | assumption | assumption | assumption | reflexivity |].
      apply Hkeep'. exists info'. split; [|assumption]. rewrite Hh.
      apply list_lookup_insert_eq. eapply lookup_lt_Some; eassumption.
    + right. exists p0, n0, e0, l0. rewrite Hrp in He0.
      split_and!; [now right | assumption.. | reflexivity | assumption].
Qed.

(** X23. With one present input, [get_strats] hands back one strategy
    pool per lineage of that input, keyed by the lineage key: it holds the
    entry of the pool under the name of the resource, and under 'json' it
    refers to the metadata object of that entry itself, not to a copy.
    [get_strats] has written into that object: the metadata of the entry
    in the pool has a 'subjson' field after the call. *)
Theorem get_strats_single_input (resources : list input) (s s' : state)
  (result : pydict strat_pool) (pool : list (list prov)) (key : string)
  (sp : strat_pool) :
  get_strats resources s = (Ok result, s') ->
  fst (gathered s resources) = [pool] ->
  dget key result = Some sp ->
  exists p name e l,
    In p pool /\ generate_prov_string p = Ok (name, key) /\
    dget name (rpool s) ≫= dget key = Some e /\ json e = Some l /\
    sp = dset "json" (SPJson l) [(name, SPEntry e)] /\
    has_subjson (heap s') l.
Proof.
  intros Hrun Hpool Hkey. unfold gathered in *. unfold get_strats in Hrun.
  apply bind_ok_inv in Hrun as (rp & s1 & H1 & Hrun).
  unfold gets in H1. inversion H1; subst rp s1; clear H1.
  apply bind_ok_inv in Hrun as (h & s2 & H1 & Hrun).
  unfold gets in H1. inversion H1; subst h s2; clear H1.
  apply bind_ok_inv in Hrun as ([rl lk] & s3 & H1 & Hrun).
  unfold lift in H1. inversion H1 as [[Hcollect Hs]]; subst s3; clear H1.
  rewrite Hcollect in *. cbn [fst snd] in *.
  apply bind_ok_inv in Hrun as ([tp vp] & s4 & H1 & Hrun).
  unfold lift in H1. inversion H1 as [[Hgather Hs]]; subst s4; clear H1.
  rewrite Hgather in *. cbn [fst snd] in *. subst tp.
  cbn [length Nat.ltb Nat.leb single_pools] in Hrun.
  apply bind_ok_inv in Hrun as (ns1 & s5 & H1 & Hrun).
  unfold ret in Hrun. inversion Hrun; subst ns1 s5; clear Hrun.
  destruct (single_all_inv _ _ _ _ _ H1) as (_ & _ & Hsub).
  destruct (Hsub key sp Hkey) as [Hnil | H]; [discriminate | exact H].
Qed.

Lemma get_strats_single_input_witness :
  let e := {| data := Some ("anat_ingress", "outputspec.data"); json := Some 0 |} in
  let s := {| rpool := [("T1w", [("['T1w:anat_ingress']", e)])];
              pipe_list := []; rtable := [];
              heap := [[("CpacProvenance", JProv [PStr "T1w:anat_ingress"])]] |} in
  let out := get_strats [Single (Name "T1w")] s in
  exists p name e0 l,
    In p [[PStr "T1w:anat_ingress"]] /\
    generate_prov_string p = Ok (name, "['T1w:anat_ingress']") /\
    dget name (rpool s) ≫= dget "['T1w:anat_ingress']" = Some e0 /\
    json e0 = Some l /\
    [("T1w", SPEntry e); ("json", SPJson 0)]
    = dset "json" (SPJson l) [(name, SPEntry e0)] /\
    has_subjson (heap (snd out)) l.
Proof.
  intros e s out.
  apply (get_strats_single_input [Single (Name "T1w")] s (snd out)
           (match fst out with inr r => r | inl _ => [] end)
           [[PStr "T1w:anat_ingress"]] "['T1w:anat_ingress']"
           [("T1w", SPEntry e); ("json", SPJson 0)]);
    reflexivity.
Defined.

(** ** [get_strats] keeps the pool keyed by lineage *)

Lemma single_keyed p ns s ns' s' :
  single p ns s = (Ok ns', s') -> keyed_by_lineage s -> keyed_by_lineage s'.
Proof.
  intros Hrun Hinv.
  destruct (single_inv _ _ _ _ _ Hrun)
    as (name & k & e & l & info & info' & Hg & He & Hj & _ & Hrp & Hl & Hh & _ & Hp & _).
  pose proof (generate_prov_string_key _ _ _ Hg) as Hk.
  destruct (dget name (rpool s)) as [L|] eqn:EL; [|discriminate].
  cbn [mbind option_bind] in He.
  destruct (Hinv name L k e l EL He Hj) as (info0 & p0 & Hl0 & Hp0 & Hk0).
  assert (p0 = p) by (apply py_str_inj; congruence). subst p0.
  intros r1 L1 k1 e1 l1 HL1 Hk1 Hj1. rewrite Hrp in HL1.
  destruct (Hinv r1 L1 k1 e1 l1 HL1 Hk1 Hj1) as (info1 & p1 & Hl1 & Hp1 & Hkey1).
  rewrite Hh. destruct (Nat.eq_dec l l1) as [<-|Hne].
  - exists info', p. split_and!.
    + apply list_lookup_insert_eq. eapply lookup_lt_Some; eassumption.
    + unfold cpac_provenance. now rewrite Hp.
    + congruence.
  - exists info1, p1. split_and!; [|assumption..].
    now rewrite list_lookup_insert_ne.
Qed.

Lemma single_pools_keyed tp : forall ns s result s',
  single_pools tp ns s = (Ok result, s') -> keyed_by_lineage s -> keyed_by_lineage s'.
Proof.
  induction tp as [|pool tp IH]; intros ns s result s' Hrun Hinv;
    cbn [single_pools] in Hrun.
  - unfold ret in Hrun. now inversion Hrun; subst.
  - apply bind_ok_inv in Hrun as (ns1 & s1 & H1 & Hrun).
    eapply IH; [exact Hrun|]. clear IH Hrun.
    revert ns s ns1 s1 H1 Hinv.
    induction pool as [|p pool IH]; intros ns s ns1 s1 H1 Hinv; cbn [single_all] in H1.
    + unfold ret in H1. now inversion H1; subst.
    + apply bind_ok_inv in H1 as (ns2 & s2 & H2 & H1).
      eapply IH; [exact H1|]. eapply single_keyed; eassumption.
Qed.

(** X24. [get_strats] keeps the pool keyed by lineage: when it returns,
    the key of every entry that has metadata is still the string form of
    the CpacProvenance held in that metadata, although with a single
    present input the call writes into the metadata of the entries. *)
Theorem get_strats_keyed_by_lineage (resources : list input) (s s' : state)
  (result : pydict strat_pool) :
  get_strats resources s = (Ok result, s') ->
  keyed_by_lineage s ->
  keyed_by_lineage s'.
Proof.
  intros Hrun Hinv. unfold get_strats in Hrun.
  apply bind_ok_inv in Hrun as (rp & s1 & H1 & Hrun).
  unfold gets in H1. inversion H1; subst rp s1; clear H1.
  apply bind_ok_inv in Hrun as (h & s2 & H1 & Hrun).
  unfold gets in H1. inversion H1; subst h s2; clear H1.
  apply bind_ok_inv in Hrun as ([rl lk] & s3 & H1 & Hrun).
  unfold lift in H1. inversion H1 as [[Hcollect Hs]]; subst s3; clear H1.
  apply bind_ok_inv in Hrun as ([tp vp] & s4 & H1 & Hrun).
  unfold lift in H1. inversion H1 as [[Hgather Hs]]; subst s4; clear H1.
  destruct tp as [|p0 tp0] eqn:Etp; [discriminate|]. rewrite <- Etp in *.
  destruct (Nat.ltb 1 (length tp)).
  - destruct (combine_all_extends _ _ _ _ _ _ _ Hrun) as [Hrp Hext].
    eapply keyed_extends; eassumption.
  - eapply single_pools_keyed; eassumption.
Qed.

Lemma get_strats_keyed_by_lineage_witness :
  let e := {| data := Some ("anat_ingress", "outputspec.data"); json := Some 0 |} in
  let s := {| rpool := [("T1w", [("['T1w:anat_ingress']", e)])];
              pipe_list := []; rtable := [];
              heap := [[("CpacProvenance", JProv [PStr "T1w:anat_ingress"])]] |} in
  keyed_by_lineage (snd (get_strats [Single (Name "T1w")] s)).
Proof.
  intros e s.
  apply (get_strats_keyed_by_lineage [Single (Name "T1w")] s
           (snd (get_strats [Single (Name "T1w")] s))
           (match fst (get_strats [Single (Name "T1w")] s) with
            | inr r => r
            | inl _ => []
            end)); [reflexivity|].
  intros r L k e0 l HL Hk Hj. cbn [rpool s dget] in HL.
  destruct (String.eqb r "T1w"); [|discriminate].
  inversion HL; subst L. cbn [dget] in Hk.
  destruct (String.eqb k "['T1w:anat_ingress']") eqn:Ek; [|discriminate].
  apply String.eqb_eq in Ek. inversion Hk; subst e0 k.
  cbn [json e] in Hj. inversion Hj; subst l.
  exists [("CpacProvenance", JProv [PStr "T1w:anat_ingress"])], [PStr "T1w:anat_ingress"].
  split_and!; reflexivity.
Defined.

(** ** The lineage of an output of a node block *)

Lemma dget_dupdate_None {V} k (e : pydict V) : forall d,
  dget k e = None -> dget k (dupdate d e) = dget k d.
Proof.
  unfold dupdate. induction e as [|[k0 v0] e IH]; intros d; cbn [fold_left dget fst snd];
    [reflexivity|].
  destruct (String.eqb_spec k k0) as [->|Hne]; [discriminate|].
  intros H. rewrite (IH _ H). apply dget_dset_ne. congruence.
Qed.

Lemma merge_fixed_prov fixed info info' :
  merge_fixed fixed info = Ok info' ->
  dget "CpacProvenance" fixed = None ->
  dget "CpacProvenance" info' = dget "CpacProvenance" info.
Proof.
  unfold merge_fixed. intros H Hnone.
  set (info1 := if dmem "Description" fixed then dupdate info fixed
                else discard "Description" (dupdate info fixed)) in *.
  assert (H1 : dget "CpacProvenance" info1 = dget "CpacProvenance" info).
  { subst info1. destruct (dmem "Description" fixed).
    - now apply dget_dupdate_None.
    - rewrite dget_discard_ne by discriminate. now apply dget_dupdate_None. }
  destruct (dget "Template" fixed) as [[| |template_key| | | |]|];
    try discriminate; [|inversion H; now subst].
  destruct (dget "Sources" info1) as [[| | |l| | |]|]; try discriminate.
  cbn [rbind] in H.
  match type of H with
  | rbind ?x _ = _ => destruct x as [e|tpl]; [discriminate|]
  end.
  cbn [rbind] in H. inversion H; subst info'. clear H.
  set (info2 := if existsb (String.eqb template_key) l
                then match dget "Description" tpl with
                     | Some v => dset "Template" v info1
                     | None => info1
                     end
                else info1).
  assert (H2 : dget "CpacProvenance" info2 = dget "CpacProvenance" info1).
  { subst info2. destruct (existsb _ l); [|reflexivity].
    destruct (dget "Description" tpl); [|reflexivity].
    now rewrite dget_dset_ne. }
  destruct (dget "Resolution" tpl); [rewrite dget_dset_ne by discriminate|]; congruence.
Qed.

Lemma describe_prov outs label sources info pre :
  describe outs label sources info = Ok pre ->
  match outs with
  | OutDict d => forall fixed, dget label d = Some fixed ->
                               dget "CpacProvenance" fixed = None
  | OutNames _ => True
  end ->
  dget "CpacProvenance" pre = dget "CpacProvenance" info.
Proof.
  unfold describe. intros H Hfixed.
  destruct (subjson_item info (data_type_of label)) as [e|typed]; [discriminate|].
  cbn [rbind] in H.
  set (info1 := dset "Sources" (JStrs sources)
                  match typed ≫= dget "SkullStripped" with
                  | Some v => dset "SkullStripped" v info
                  | None => info
                  end) in *.
  assert (H1 : dget "CpacProvenance" info1 = dget "CpacProvenance" info).
  { subst info1. rewrite dget_dset_ne by discriminate.
    destruct (typed ≫= dget "SkullStripped"); [|reflexivity].
    now rewrite dget_dset_ne. }
  match type of H with
  | rbind ?x _ = _ => destruct x as [e|info2] eqn:E2; [discriminate|]
  end.
  cbn [rbind] in H.
  assert (H2 : dget "CpacProvenance" info2 = dget "CpacProvenance" info1).
  { destruct outs as [names|d].
    - inversion E2; subst. now rewrite dget_discard_ne.
    - destruct (dget label d) as [fixed|] eqn:Ef; [|discriminate].
      apply (merge_fixed_prov _ _ _ E2). now apply Hfixed. }
  destruct (dget "Description" info2) as [[| |dsc| | | |]|]; try discriminate;
    cbn [rbind] in H; inversion H; subst pre;
    rewrite dget_discard_ne by discriminate; rewrite ?dget_dset_ne by discriminate;
    congruence.
Qed.

Lemma tag_fork_prov fork opts all_opts label node_name pre post :
  tag_fork fork opts all_opts label node_name pre = Ok post ->
  dget "CpacProvenance" post = dget "CpacProvenance" pre.
Proof.
  unfold tag_fork. destruct (is_fork fork opts all_opts); [|intros H; now inversion H].
  set (pre1 := if dmem "CpacVariant" pre then pre
               else dset "CpacVariant" (JVariant []) pre).
  assert (H1 : dget "CpacProvenance" pre1 = dget "CpacProvenance" pre).
  { subst pre1. destruct (dmem "CpacVariant" pre); [reflexivity|].
    now rewrite dget_dset_ne. }
  destruct (dget "CpacVariant" pre1) as [[| | | | |d|]|]; try discriminate.
  destruct (dget (get_raw_label label) _) as [[tags|t]|]; try discriminate.
  intros H. inversion H; subst post. now rewrite dget_dset_ne.
Qed.

(** X25. The lineage of an output is the lineage of the strategy it was
    computed from, followed by its own step.  When [connect_block]
    commits an output [label] of the stage [node_name] for a strategy
    pool whose merged metadata holds the chain [c] (and the fixed
    metadata of the output, if it has any, has no CpacProvenance field),
    the pool has an entry for [label] under the key of
    [c + ['label:node_name']]: [get_data] gives the connection of the
    output, [get_cpac_provenance] and the decoding of the key give that
    chain, and its flat view is the flat view of [c] followed by the step
    of the output. *)
Theorem commit_output_lineage
  (outs : outputs_decl) (fork : bool) (opts all_opts : list cval)
  (sp : strat_pool) (replaced_inputs : list string) (pipe_idx node_name label : string)
  (connection : producer) (s s' : state) (l : loc) :
  commit_output outs fork opts all_opts sp replaced_inputs pipe_idx node_name
    label connection s = (Ok l, s') ->
  match outs with
  | OutDict d => forall fixed, dget label d = Some fixed ->
                               dget "CpacProvenance" fixed = None
  | OutNames _ => True
  end ->
  exists merged c,
    strat_json sp s = (Ok merged, s) /\
    prov_of merged = Ok c /\
    let chain := c ++ [prov_step label node_name] in
    get_data (rpool s') (Name label) (Some (py_str chain)) false false
    = Ok (DPlain (DProducer connection)) /\
    get_cpac_provenance (heap s') (rpool s') label (py_str chain) = Ok chain /\
    generate_prov_list (py_str chain) = Ok (PList chain) /\
    flatten_prov (PList chain)
    = flatten_prov (PList c) ++ [label +:+ ":" +:+ node_name].
Proof.
  unfold commit_output. intros Hrun Hfixed.
  apply bind_ok_inv in Hrun as ([] & s1 & H1 & Hrun).
  unfold lift in H1. inversion H1 as [[Hcheck Hs]]; subst s1; clear H1.
  apply bind_ok_inv in Hrun as (merged & s1 & H1 & Hrun).
  assert (Hs1 : s1 = s).
  { revert H1. unfold strat_json. destruct (dget "json" sp) as [[j|e]|];
      try discriminate.
    unfold deref. destruct (heap s !! j); intros H; now inversion H. }
  subst s1.
  apply bind_ok_inv in Hrun as (pre & s1 & H2 & Hrun).
  unfold lift in H2. inversion H2 as [[Hdescribe Hs]]; subst s1; clear H2.
  apply bind_ok_inv in Hrun as (post & s1 & H3 & Hrun).
  unfold lift in H3. inversion H3 as [[Htag Hs]]; subst s1; clear H3.
  apply bind_ok_inv in Hrun as (j & s1 & H4 & Hrun).
  unfold alloc in H4. inversion H4; subst j s1; clear H4.
  apply bind_ok_inv in Hrun as ([] & s2 & H5 & Hrun).
  unfold ret in Hrun. inversion Hrun; subst l s2; clear Hrun.
  set (s1 := with_heap (fun h => h ++ [post]) s) in *.
  assert (Hj : heap s1 !! length (heap s) = Some post).
  { subst s1. simpl. rewrite lookup_app_r by lia. now rewrite Nat.sub_diag. }
  destruct (set_data_effect label (fst connection) (snd connection)
              (length (heap s)) pipe_idx node_name fork false s1 post Hj)
    as [_ Hstored].
  rewrite H5 in Hstored. cbn [fst snd] in Hstored.
  assert (Hprov : dget "CpacProvenance" post = dget "CpacProvenance" merged).
  { rewrite (tag_fork_prov _ _ _ _ _ _ _ Htag).
    now apply (describe_prov _ _ _ _ _ Hdescribe). }
  destruct (prov_of post) as [e|c] eqn:Hp.
  { exfalso. rewrite set_data_eq, (copy_info_ill_typed _ _ _ _ _ _ _ Hj Hp) in H5.
    discriminate. }
  destruct (Hstored c eq_refl eq_refl) as (at_l & stored & _ & He & Hl & Hc & _).
  exists merged, c. split; [assumption|]. split.
  { unfold prov_of in *. now rewrite <- Hprov. }
  cbv zeta. change (c ++ [prov_step label node_name])
    with (new_prov label node_name false c).
  set (chain := new_prov label node_name false c) in *.
  destruct (entries_of_Some _ _ _ _ He) as (L & HL & HkL).
  split_and!.
  - unfold get_data. rewrite truthy_key. unfold get.
    rewrite HL, truthy_key, HkL. cbn. now destruct connection.
  - unfold get_cpac_provenance.
    rewrite (get_json_key _ _ _ _ _ at_l HL HkL eq_refl). cbn [rbind json_items].
    rewrite Hl. cbn [rbind]. unfold cpac_provenance. now rewrite Hc.
  - unfold generate_prov_list, py_str. apply literal_eval_repr.
  - subst chain. unfold new_prov, prov_step.
    rewrite !flatten_prov_PList, flatten_entries_app. reflexivity.
Qed.

Lemma commit_output_lineage_witness :
  let s0 := {| rpool := []; pipe_list := []; rtable := [];
               heap := [[("CpacProvenance", JProv [PStr "T1w:anat_ingress"])]] |} in
  let s := snd (get_strats [Single (Name "T1w")]
                  (snd (set_data "T1w" "anat_ingress" "outputspec.data" 0
                          EmptyString "anat_ingress" false true s0))) in
  let sp := [("T1w", SPEntry {| data := Some ("anat_ingress", "outputspec.data");
                                json := Some 1 |});
             ("json", SPJson 1)] in
  let outs := OutNames ["desc-preproc_T1w"] in
  let out := commit_output outs false [CNone] [CNone] sp [] "['T1w:anat_ingress']"
               "anatomical_init" "desc-preproc_T1w"
               ("anat_init", "outputspec.out") s in
  exists merged c,
    strat_json sp s = (Ok merged, s) /\
    prov_of merged = Ok c /\
    let chain := c ++ [prov_step "desc-preproc_T1w" "anatomical_init"] in
    get_data (rpool (snd out)) (Name "desc-preproc_T1w") (Some (py_str chain))
      false false
    = Ok (DPlain (DProducer ("anat_init", "outputspec.out"))) /\
    get_cpac_provenance (heap (snd out)) (rpool (snd out)) "desc-preproc_T1w"
      (py_str chain) = Ok chain /\
    generate_prov_list (py_str chain) = Ok (PList chain) /\
    flatten_prov (PList chain)
    = flatten_prov (PList c) ++ ["desc-preproc_T1w" +:+ ":" +:+ "anatomical_init"].
Proof.
  intros s0 s sp outs out.
  apply (commit_output_lineage outs false [CNone] [CNone] sp []
           "['T1w:anat_ingress']" "anatomical_init" "desc-preproc_T1w"
           ("anat_init", "outputspec.out") s (snd out) 2);
    [reflexivity | exact I].
Defined.

(** ** The input interface of a node block *)

Lemma list_eqb_spec {A} (eqb : A -> A -> bool) :
  (forall x y, eqb x y = true <-> x = y) ->
  forall l1 l2, list_eqb eqb l1 l2 = true <-> l1 = l2.
Proof.
  intros H. induction l1 as [|x l1 IH]; intros [|y l2]; cbn [list_eqb];
    try (split; [discriminate | congruence]); [tauto|].
  rewrite andb_true_iff, H, IH. split; [intros [-> ->]; reflexivity|].
  intros Heq. inversion Heq. auto.
Qed.

Lemma rspec_eqb_spec a b : rspec_eqb a b = true <-> a = b.
Proof.
  destruct a as [x|x], b as [y|y]; cbn [rspec_eqb];
    try (split; [discriminate | congruence]).
  - rewrite String.eqb_eq. split; congruence.
  - rewrite (list_eqb_spec String.eqb String.eqb_eq). split; congruence.
Qed.

Lemma input_eqb_spec a b : input_eqb a b = true <-> a = b.
Proof.
  destruct a as [x|x], b as [y|y]; cbn [input_eqb];
    try (split; [discriminate | congruence]).
  - rewrite rspec_eqb_spec. split; congruence.
  - rewrite (list_eqb_spec rspec_eqb rspec_eqb_spec). split; congruence.
Qed.

Lemma rewire_input_other old new x inputs :
  rewired old x = false -> rewire_input (old, new) x inputs = inputs.
Proof. unfold rewired, rewire_input. destruct x; intros ->; reflexivity. Qed.

Lemma rewire_from_none interface n : forall i inputs,
  (forall j x, i <= j -> inputs !! j = Some x -> rewired (fst interface) x = false) ->
  rewire_from n i interface inputs = inputs.
Proof.
  destruct interface as [old new]. cbn [fst].
  induction n as [|n IH]; intros i inputs H; cbn [rewire_from]; [reflexivity|].
  destruct (inputs !! i) as [x|] eqn:E; [|reflexivity].
  rewrite (rewire_input_other old new x inputs) by (eapply H; [|exact E]; lia).
  apply IH. intros j y Hj. apply H. lia.
Qed.

Lemma rewire_from_skip interface k : forall n i inputs,
  (forall j x, i <= j -> j < i + k -> inputs !! j = Some x ->
               rewired (fst interface) x = false) ->
  i + k <= length inputs ->
  rewire_from (k + n) i interface inputs = rewire_from n (i + k) interface inputs.
Proof.
  destruct interface as [old new]. cbn [fst].
  induction k as [|k IH]; intros n i inputs H Hlen.
  - now rewrite Nat.add_0_r.
  - cbn [Nat.add rewire_from].
    destruct (lookup_lt_is_Some_2 inputs i) as [x Hx]; [lia|]. rewrite Hx.
    rewrite (rewire_input_other old new x inputs) by (eapply H; [| |exact Hx]; lia).
    rewrite IH; [f_equal; lia | | lia].
    intros j y Hj1 Hj2. apply H; lia.
Qed.

Lemma remove_first_middle {A} (eqb : A -> A -> bool) x pre post :
  (forall y, eqb y x = true <-> y = x) -> ~ In x pre ->
  remove_first eqb x (pre ++ x :: post) = pre ++ post.
Proof.
  intros Hspec. induction pre as [|y pre IH]; intros Hnot; cbn [app remove_first].
  - now rewrite (proj2 (Hspec x) eq_refl).
  - destruct (eqb y x) eqn:E.
    + apply Hspec in E. subst y. exfalso. apply Hnot. now left.
    + rewrite IH; [reflexivity|]. intros Hin. apply Hnot. now right.
Qed.

Lemma remove_first_absent {A} (eqb : A -> A -> bool) x l :
  (forall y, eqb y x = true <-> y = x) -> ~ In x l -> remove_first eqb x l = l.
Proof.
  intros Hspec. induction l as [|y l IH]; intros Hnot; cbn [remove_first]; [reflexivity|].
  destruct (eqb y x) eqn:E.
  - apply Hspec in E. subst y. exfalso. apply Hnot. now left.
  - rewrite IH; [reflexivity|]. intros Hin. apply Hnot. now right.
Qed.

(** X26. What an input interface does to the declared inputs of a node
    block.  For a pair [(old, new)] with [new] other than [old], and
    declared inputs that are distinct and have [old] in no linked tuple:
    if [old] is a declared input, it is taken out and [new] is added at
    the end, the other inputs keeping their order; if it is not, the
    inputs are as they were.  The loop of [__init__] makes as many steps
    as the list has items: more steps change nothing. *)
Theorem rewire_spec (old : string) (new : rspec) (inputs : list input) :
  List.NoDup inputs ->
  (forall list_tup, In (Linked list_tup) inputs -> ~ In (Name old) list_tup) ->
  new <> Name old ->
  rewire (old, new) inputs
  = (if existsb (input_eqb (Single (Name old))) inputs
     then remove_first input_eqb (Single (Name old)) inputs ++ [Single new]
     else inputs) /\
  forall more, rewire_from (length inputs + more) 0 (old, new) inputs
               = rewire (old, new) inputs.
Proof.
  intros Hnd Hlinked Hnew.
  set (X := Single (Name old)).
  assert (Hspec : forall y, input_eqb y X = true <-> y = X)
    by (intros y; apply input_eqb_spec).
  assert (Hother : forall x, In x inputs -> x <> X -> rewired old x = false).
  { intros [r|list_tup] Hin Hne; cbn [rewired].
    - destruct (rspec_eqb r (Name old)) eqn:E; [|reflexivity].
      apply rspec_eqb_spec in E. subst r. contradiction.
    - destruct (existsb _ list_tup) eqn:E; [|reflexivity].
      apply existsb_exists in E as (y & Hy & Hyeq).
      apply rspec_eqb_spec in Hyeq. subst y. exfalso. eapply Hlinked; eassumption. }
  assert (Hnew' : rewired old (Single new) = false).
  { cbn [rewired]. destruct (rspec_eqb new (Name old)) eqn:E; [|reflexivity].
    apply rspec_eqb_spec in E. contradiction. }
  destruct (existsb (input_eqb X) inputs) eqn:Ex.
  - apply existsb_exists in Ex as (y & Hy & Hyeq).
    apply input_eqb_spec in Hyeq. subst y.
    apply in_split in Hy as (pre & post & ->).
    apply List.NoDup_remove_2 in Hnd.
    assert (Hpre : ~ In X pre) by (intros H; apply Hnd, in_or_app; now left).
    assert (Hpost : ~ In X post) by (intros H; apply Hnd, in_or_app; now right).
    rewrite (remove_first_middle _ _ _ _ Hspec Hpre).
    assert (Hrun : forall n,
               rewire_from (length pre + S n) 0 (old, new) (pre ++ X :: post)
               = (pre ++ post) ++ [Single new]).
    { intros n. rewrite (rewire_from_skip (old, new) (length pre) (S n) 0).
      - cbn [Nat.add rewire_from].
        rewrite (lookup_app_r pre) by lia. rewrite Nat.sub_diag. cbn [lookup list_lookup].
        unfold rewire_input. fold X. cbn [X rspec_eqb]. rewrite String.eqb_refl.
        fold X. rewrite (remove_first_middle _ _ _ _ Hspec Hpre).
        apply rewire_from_none. cbn [fst]. intros j x Hj Hx.
        rewrite <- app_assoc in Hx.
        rewrite lookup_app_r in Hx by lia.
        apply list_elem_of_lookup_2, list_elem_of_In in Hx.
        apply in_app_or in Hx as [Hx | [<- | []]]; [|exact Hnew'].
        apply Hother; [apply in_or_app; right; now right|].
        intros ->. contradiction.
      - cbn [fst]. intros j x _ Hj Hx. cbn in Hj.
        rewrite lookup_app_l in Hx by lia.
        apply list_elem_of_lookup_2, list_elem_of_In in Hx.
        apply Hother; [apply in_or_app; now left|]. intros ->. contradiction.
      - rewrite length_app. cbn. lia. }
    split.
    + unfold rewire. rewrite length_app. cbn [length].
      replace (length pre + S (length post)) with (length pre + S (length post))
        by reflexivity.
      apply Hrun.
    + intros more. unfold rewire. rewrite length_app. cbn [length].
      replace (length pre + S (length post) + more)
        with (length pre + S (length post + more)) by lia.
      now rewrite !Hrun.
  - assert (Hnone : forall n, rewire_from n 0 (old, new) inputs = inputs).
    { intros n. apply rewire_from_none. cbn [fst]. intros j x _ Hx.
      apply list_elem_of_lookup_2, list_elem_of_In in Hx.
      apply Hother; [assumption|]. intros ->.
      assert (existsb (input_eqb X) inputs = true); [|congruence].
      apply existsb_exists. exists X. split; [assumption | now apply input_eqb_spec]. }
    split; [apply Hnone|]. intros more. unfold rewire. now rewrite !Hnone.
Qed.

Lemma rewire_spec_witness :
  let inputs := [Single (Alts ["desc-preproc_bold"; "bold"]);
                 Single (Name "bold");
                 Linked [Name "space-bold_desc-brain_mask"; Name "motion-basefile"]] in
  rewire ("bold", Name "opposite_pe_epi") inputs
  = (if existsb (input_eqb (Single (Name "bold"))) inputs
     then remove_first input_eqb (Single (Name "bold")) inputs
            ++ [Single (Name "opposite_pe_epi")]
     else inputs) /\
  forall more, rewire_from (length inputs + more) 0
                 ("bold", Name "opposite_pe_epi") inputs
               = rewire ("bold", Name "opposite_pe_epi") inputs.
Proof.
  intros inputs. apply (rewire_spec "bold" (Name "opposite_pe_epi") inputs).
  - repeat constructor; cbn; intuition discriminate.
  - intros list_tup [H | [H | [H | []]]]; try discriminate.
    inversion H; subst. cbn. intuition discriminate.
  - discriminate.
Defined.

(** ** The raw label of a resource name *)

Lemma split_hd_prefix c s : forall q,
  Str.prefix q (Str.split_hd c s) = true -> Str.prefix q s = true.
Proof.
  unfold Str.split_hd.
  induction s as [|d s IH]; intros q; cbn [Str.split]; [auto|].
  destruct (Ascii.eqb d c).
  - destruct q; [reflexivity | discriminate].
  - destruct (Str.split c s) as [|w ws] eqn:E.
    + pose proof (split_cases c s) as H. rewrite E in H. destruct H.
    + destruct q as [|a q]; [reflexivity|]. cbn [Str.prefix].
      rewrite !andb_true_iff. intros [Ha Hq]. split; [assumption|]. now apply IH.
Qed.

Lemma contains_cons p d s : Str.contains p s = true -> Str.contains p (String d s) = true.
Proof. intros H. cbn [Str.contains]. rewrite H. apply orb_true_r. Qed.

Lemma contains_piece c p s : forall tag,
  In tag (Str.split c s) -> Str.contains p tag = true -> Str.contains p s = true.
Proof.
  induction s as [|d s IH]; intros tag; cbn [Str.split].
  - intros [<- | []]. auto.
  - destruct (Ascii.eqb d c).
    + intros [<- | Hin] Hc.
      * cbn [Str.contains] in Hc. rewrite orb_false_r in Hc.
        destruct p; [reflexivity | discriminate].
      * apply contains_cons. eapply IH; eassumption.
    + destruct (Str.split c s) as [|w ws] eqn:E.
      { pose proof (split_cases c s) as H. rewrite E in H. destruct H. }
      intros [<- | Hin] Hc.
      * cbn [Str.contains] in Hc. apply orb_true_iff in Hc as [Hc | Hc].
        -- cbn [Str.contains]. apply orb_true_iff. left.
           destruct p as [|a p]; [reflexivity|]. cbn [Str.prefix] in *.
           apply andb_true_iff in Hc as [Ha Hp]. rewrite Ha. cbn [andb].
           apply (split_hd_prefix c s). unfold Str.split_hd. now rewrite E.
        -- apply contains_cons. apply (IH w); [now left | assumption].
      * apply contains_cons. apply (IH tag); [now right | assumption].
Qed.

(** X27. A resource name that has 'desc-' nowhere is its own raw label:
    [get_raw_label] gives it back as it is, so the fork tags of such an
    output are filed under its full name. *)
Theorem get_raw_label_without_desc (resource : string) :
  Str.contains "desc-" resource = false -> get_raw_label resource = resource.
Proof.
  intros H. unfold get_raw_label.
  destruct (find (Str.contains "desc-") (Str.split "_" resource)) as [tag|] eqn:E;
    [|reflexivity].
  apply find_some in E as [Hin Hc].
  rewrite (contains_piece _ _ _ _ Hin Hc) in H. discriminate.
Qed.

Lemma get_raw_label_without_desc_witness :
  get_raw_label "space-template_bold" = "space-template_bold".
Proof. apply get_raw_label_without_desc. reflexivity. Defined.

(** ** A non-forking insert after a merge *)

Lemma prov_size_In x l : In x l -> prov_size x < prov_size (PList l).
Proof.
  intros H. cbn [prov_size]. apply Nat.lt_succ_r.
  induction l as [|y l IH]; [destruct H|].
  change (list_sum (map prov_size (y :: l)))
    with (prov_size y + list_sum (map prov_size l)).
  destruct H as [-> | H]; [lia|]. specialize (IH H). lia.
Qed.

Lemma merged_chain_not_item before p after step :
  p <> map PList (before ++ p :: after) ++ [step].
Proof.
  intros H.
  assert (Hin : In (PList p) (map PList (before ++ p :: after) ++ [step])).
  { apply in_or_app. left. apply in_map, in_or_app. right. now left. }
  apply prov_size_In in Hin. rewrite <- H in Hin. lia.
Qed.

(** The search loop of [set_data] on a merged chain stops at the first
    chain whose last step is a step of the resource. *)
Lemma search_prov_merged r before p after :
  (forall q, In q before ->
     exists x, get_resource_from_prov (PList q) = Ok x /\ names x r = false) ->
  get_resource_from_prov (PList p) = Ok (Some r) ->
  search_prov r (map PList (before ++ p :: after))
  = rbind (generate_prov_string p) (fun rk => Ok (Some (snd rk))).
Proof.
  intros Hb Hp. induction before as [|q before IH]; cbn [app map search_prov].
  - rewrite Hp. cbn [rbind names]. now rewrite String.eqb_refl.
  - destruct (Hb q) as (x & -> & Hx); [now left|]. cbn [rbind]. rewrite Hx.
    apply IH. intros q' Hq'. apply Hb. now right.
Qed.

Lemma evict_merged r before p after k s s' :
  let c := map PList (before ++ p :: after) in
  (forall q, In q before ->
     exists x, get_resource_from_prov (PList q) = Ok x /\ names x r = false) ->
  get_resource_from_prov (PList p) = Ok (Some r) ->
  dget (py_str c) (entries_of r s) = None ->
  evict r c k false s = (Ok tt, s') ->
  dget (py_str p) (entries_of r s') = None.
Proof.
  intros c Hb Hp Hc. rewrite evict_eq.
  destruct (dget r (rpool s)) as [entries|] eqn:Er.
  2:{ intros H. inversion H; subst. now rewrite entries_of_dset. }
  assert (Hm : dmem (py_str c) entries = false).
  { unfold entries_of in Hc. rewrite Er in Hc. cbn [default from_option id] in Hc.
    unfold dmem. now rewrite Hc. }
  assert (Hdel : forall k0,
    (if dmem (py_str p) entries
     then (Ok tt, with_rpool (dset r (ddel (py_str p) entries)) s)
     else (@inr exn unit tt, s)) = (Ok tt, s') ->
    k0 = py_str p -> dget k0 (entries_of r s') = None).
  { intros k0 H ->. destruct (dmem (py_str p) entries) eqn:Em;
      inversion H; subst.
    - rewrite entries_of_dset. apply dget_ddel_eq.
    - unfold entries_of. rewrite Er. cbn [default from_option id].
      unfold dmem in Em. now destruct (dget (py_str p) entries). }
  unfold replaced_key.
  destruct (get_resource_from_prov (PList c)) as [e|x]; [discriminate|].
  cbn [rbind]. fold c in Hdel |- *.
  destruct (names x r).
  - unfold generate_prov_string at 1.
    destruct (get_last_prov_entry c) as [e|y]; [discriminate|].
    cbn [rbind fst snd]. rewrite Hm. cbn [negb].
    unfold c at 1. rewrite (search_prov_merged _ _ _ _ Hb Hp).
    unfold generate_prov_string.
    destruct (get_last_prov_entry p) as [e|z]; [discriminate|].
    cbn [rbind fst snd default from_option id]. intros H. now apply Hdel.
  - cbn [rbind]. unfold c at 1. rewrite (search_prov_merged _ _ _ _ Hb Hp).
    unfold generate_prov_string.
    destruct (get_last_prov_entry p) as [e|z]; [discriminate|].
    cbn [rbind fst snd default from_option id]. intros H. now apply Hdel.
Qed.

(** X28. Replacement through a merge.  When the chain handed to a
    non-forking [set_data] is a merge of several chains (a list of lists,
    as [get_strats] builds it for two or more inputs), the entry of the
    resource that is deleted is the one under the key of the first merged
    chain whose last step is a step of that resource: after the call the
    pool has no entry of the resource under that key, and has the new
    producer under the key of the merged chain extended by the new step. *)
Theorem set_data_replaces_merged_input
  (R node output : string) (j : loc) (hint node_name : string)
  (s s' : state) (info : jdict) (before : list (list prov)) (p : list prov)
  (after : list (list prov)) :
  let c := map PList (before ++ p :: after) in
  heap s !! j = Some info -> prov_of info = Ok c ->
  (forall q, In q before ->
     exists x, get_resource_from_prov (PList q) = Ok x /\ names x R = false) ->
  get_resource_from_prov (PList p) = Ok (Some R) ->
  dget (py_str c) (entries_of R s) = None ->
  set_data R node output j hint node_name false false s = (Ok tt, s') ->
  dget (py_str p) (entries_of R s') = None /\
  exists l, dget (py_str (c ++ [prov_step R node_name])) (entries_of R s')
            = Some {| data := Some (node, output); json := Some l |}.
Proof.
  intros c Hj Hp Hb Hnames Hc.
  rewrite set_data_eq, (copy_info_eq _ _ _ _ _ _ _ Hj Hp). cbv zeta.
  destruct (get_last_prov_entry (new_prov R node_name false c)) as [e|x];
    [discriminate|].
  assert (Hkey : py_str (new_prov R node_name false c) <> py_str p).
  { intros H. apply py_str_inj in H. symmetry in H.
    now apply merged_chain_not_item in H. }
  assert (Hgo : forall j' s1,
    entries_of R s1 = entries_of R s ->
    insert_entry R node output j' hint false c
      (py_str (new_prov R node_name false c)) s1 = (Ok tt, s') ->
    dget (py_str p) (entries_of R s') = None /\
    exists l, dget (py_str (c ++ [prov_step R node_name])) (entries_of R s')
              = Some {| data := Some (node, output); json := Some l |}).
  { intros j' s1 Hs1 Hrun. unfold insert_entry in Hrun.
    apply bind_ok_inv in Hrun as ([] & s2 & Hevict & Hrun).
    assert (Hold : dget (py_str p) (entries_of R s2) = None).
    { apply (evict_merged R before p after hint s1 s2); try assumption.
      now rewrite Hs1. }
    pose proof (after_evict R node output j'
                  (py_str (new_prov R node_name false c)) s2) as H.
    cbv zeta in H. rewrite Hrun in H. cbn [fst snd] in H.
    destruct H as [[Hne _] | [_ ->]]; [congruence|]. split.
    - now rewrite dget_committed_ne, dget_reserved_ne.
    - exists j'. apply dget_committed. }
  destruct info; intros Hrun; eapply Hgo; try exact Hrun; reflexivity.
Qed.

Lemma set_data_replaces_merged_input_witness :
  let chain_a := [PStr "T1w:anat_ingress"; PStr "desc-preproc_T1w:anat_init"] in
  let chain_b := [PStr "T1w:anat_ingress"; PStr "space-T1w_desc-brain_mask:brain_mask"] in
  let merged := [PList chain_a; PList chain_b] in
  let s := {| rpool := [("desc-preproc_T1w",
                         [(py_str chain_a,
                           {| data := Some ("anat_init", "outputspec.out");
                              json := Some 0 |})])];
              pipe_list := [py_str chain_a]; rtable := [];
              heap := [[("CpacProvenance", JProv chain_a)];
                       [("CpacProvenance", JProv merged)]] |} in
  let out := set_data "desc-preproc_T1w" "brain_extraction" "outputspec.out" 1
               (py_str merged) "brain_extraction" false false s in
  fst out = Ok tt /\
  dget (py_str chain_a) (entries_of "desc-preproc_T1w" (snd out)) = None /\
  exists l,
    dget (py_str (merged ++ [prov_step "desc-preproc_T1w" "brain_extraction"]))
      (entries_of "desc-preproc_T1w" (snd out))
    = Some {| data := Some ("brain_extraction", "outputspec.out"); json := Some l |}.
Proof.
  intros chain_a chain_b merged s out.
  split; [reflexivity|].
  apply (set_data_replaces_merged_input "desc-preproc_T1w" "brain_extraction"
           "outputspec.out" 1 (py_str merged) "brain_extraction" s (snd out)
           [("CpacProvenance", JProv merged)] [] chain_a [chain_b]).
  - reflexivity.
  - reflexivity.
  - intros q [].
  - reflexivity.
  - reflexivity.
  - reflexivity.
Defined.

(** ** The raw label of a name with a 'desc-' tag *)

Lemma sapp_sep p c x : (p +:+ String c EmptyString) +:+ x = p +:+ String c x.
Proof. now rewrite sapp_assoc. Qed.

Lemma split_app_sep c a b :
  Str.split c (a +:+ String c b) = Str.split c a ++ Str.split c b.
Proof.
  induction a as [|d a IH]; cbn [String.append Str.split].
  - now rewrite Ascii.eqb_refl.
  - rewrite IH. destruct (Ascii.eqb d c); [reflexivity|].
    pose proof (split_cases c a) as H.
    destruct (Str.split c a) as [|w ws]; [destruct H | reflexivity].
Qed.

Lemma split_no_sep c t : Str.mem_char c t = false -> Str.split c t = [t].
Proof.
  induction t as [|d t IH]; cbn [Str.mem_char Str.split]; [reflexivity|].
  intros H. apply orb_false_iff in H as [Hd Ht].
  rewrite (ascii_eqb_sym d c), Hd, (IH Ht). reflexivity.
Qed.

Lemma find_app_skip {A} (f : A -> bool) l1 l2 :
  (forall x, In x l1 -> f x = false) -> find f (l1 ++ l2) = find f l2.
Proof.
  induction l1 as [|x l1 IH]; intros H; cbn [app find]; [reflexivity|].
  rewrite (H x) by now left. apply IH. intros y Hy. apply H. now right.
Qed.

Lemma prefix_app_refl x y : Str.prefix x (x +:+ y) = true.
Proof.
  induction x as [|c x IH]; cbn [String.append Str.prefix]; [reflexivity|].
  now rewrite Ascii.eqb_refl, IH.
Qed.

Lemma prefix_app_inv x y : forall s,
  Str.prefix (x +:+ y) s = true -> Str.prefix x s = true.
Proof.
  induction x as [|c x IH]; intros s; cbn [String.append Str.prefix]; [reflexivity|].
  destruct s as [|d s]; [discriminate|].
  rewrite !andb_true_iff. intros [Hc Hx]. split; [assumption|]. now apply IH.
Qed.

Lemma contains_prefix p s : Str.prefix p s = true -> Str.contains p s = true.
Proof. intros H. destruct s; cbn [Str.contains]; now rewrite H. Qed.

Lemma contains_app_r p a b :
  Str.contains p b = true -> Str.contains p (a +:+ b) = true.
Proof.
  intros H. induction a as [|c a IH]; cbn [String.append]; [assumption|].
  now apply contains_cons.
Qed.

Lemma prefix_app_l p a b : Str.prefix p a = true -> Str.prefix p (a +:+ b) = true.
Proof.
  revert a. induction p as [|c p IH]; intros a; cbn [Str.prefix]; [reflexivity|].
  destruct a as [|d a]; [discriminate|]. cbn [String.append Str.prefix].
  rewrite !andb_true_iff. intros [Hc Hp]. split; [assumption|]. now apply IH.
Qed.

Lemma contains_app_l p a b :
  Str.contains p a = true -> Str.contains p (a +:+ b) = true.
Proof.
  induction a as [|c a IH]; cbn [Str.contains String.append].
  - rewrite orb_false_r. intros H. apply contains_prefix.
    now apply (prefix_app_l p EmptyString b).
  - intros H. apply orb_true_iff in H as [H | H]; apply orb_true_iff.
    + left. now apply (prefix_app_l p (String c a) b).
    + right. now apply IH.
Qed.

Lemma last_char_app a b :
  b <> EmptyString -> Str.last_char (a +:+ b) = Str.last_char b.
Proof.
  intros Hb. induction a as [|c a IH]; cbn [String.append]; [reflexivity|].
  cbn [Str.last_char]. rewrite IH.
  destruct (a +:+ b) eqn:E; [|reflexivity].
  destruct a; [cbn in E; congruence | discriminate].
Qed.

(** A piece that ends with '_' and lies at the start of a text that
    starts with 'desc-' has 'desc-' at its own start. *)
Lemma desc_prefix_short a x :
  Str.last_char a = Some "_"%char ->
  Str.prefix "desc-" (a +:+ x) = true -> Str.prefix "desc-" a = true.
Proof.
  intros Hl H.
  destruct a as [|c1 [|c2 [|c3 [|c4 [|c5 a]]]]];
    cbn [Str.last_char] in Hl; cbn [String.append Str.prefix] in H |- *;
    try discriminate Hl;
    repeat match type of H with
           | (_ && _ = true) =>
               let H1 := fresh "H" in
               apply andb_true_iff in H as [H1 H]; apply Ascii.eqb_eq in H1;
               subst
           end;
    try discriminate Hl; reflexivity.
Qed.

Lemma remove_go_keep old y : forall a,
  (forall a1 a2, a = a1 +:+ a2 -> a2 <> EmptyString ->
                 Str.prefix old (a2 +:+ y) = false) ->
  Str.remove_go old 0 (a +:+ y) = a +:+ Str.remove_go old 0 y.
Proof.
  induction a as [|c a IH]; intros H; cbn [String.append]; [reflexivity|].
  cbn [Str.remove_go].
  change (String c (a +:+ y)) with (String c a +:+ y).
  rewrite (H EmptyString (String c a)) by (reflexivity || discriminate).
  f_equal. apply IH. intros a1 a2 -> Ha2. now apply (H (String c a1) a2).
Qed.

Lemma remove_go_skip old y : forall x,
  Str.remove_go old (String.length x) (x +:+ y) = Str.remove_go old 0 y.
Proof.
  induction x as [|c x IH]; [reflexivity|].
  cbn [String.length String.append Str.remove_go]. exact IH.
Qed.

Lemma remove_go_match c old y :
  Str.remove_go (String c old) 0 (String c old +:+ y)
  = Str.remove_go (String c old) 0 y.
Proof.
  cbn [String.append Str.remove_go].
  change (String c (old +:+ y)) with (String c old +:+ y).
  rewrite prefix_app_refl. cbn [String.length]. rewrite Nat.sub_1_r. cbn [Nat.pred].
  apply remove_go_skip.
Qed.

Lemma remove_go_absent old : forall y,
  Str.contains old y = false -> Str.remove_go old 0 y = y.
Proof.
  induction y as [|c y IH]; [reflexivity|].
  cbn [Str.contains]. intros H. apply orb_false_iff in H as [Hp Hc].
  cbn [Str.remove_go]. rewrite Hp. f_equal. now apply IH.
Qed.

(** X29. The raw label of a name with a 'desc-' tag.  For a name made of
    [pre], which is empty or ends with '_' and has 'desc-' nowhere, then a
    tag 'desc-d' followed by '_', then [rest], in which that tag followed
    by '_' does not occur again: [get_raw_label] gives [pre] followed by
    [rest], the name without that tag. *)
Theorem get_raw_label_desc (pre d rest : string) :
  (pre = EmptyString \/ exists p, pre = p +:+ "_") ->
  Str.contains "desc-" pre = false ->
  Str.mem_char "_" d = false ->
  Str.contains ("desc-" +:+ d +:+ "_") rest = false ->
  get_raw_label (pre +:+ "desc-" +:+ d +:+ "_" +:+ rest) = pre +:+ rest.
Proof.
  intros Hpre Hno Hd Hrest. unfold get_raw_label.
  set (tag := "desc-" +:+ d).
  set (old := String "d" ("esc-" +:+ d +:+ "_")).
  assert (Htag : Str.mem_char "_" tag = false) by exact Hd.
  assert (Hname : pre +:+ "desc-" +:+ d +:+ "_" +:+ rest
                  = pre +:+ tag +:+ String "_" rest).
  { unfold tag. now rewrite sapp_assoc. }
  assert (Hold : tag +:+ String "_" rest = old +:+ rest).
  { now rewrite <- (sapp_sep tag "_" rest). }
  rewrite Hname.
  assert (Hfind : find (Str.contains "desc-")
                    (Str.split "_" (pre +:+ tag +:+ String "_" rest)) = Some tag).
  { assert (Hsplit : Str.split "_" (tag +:+ String "_" rest)
                     = tag :: Str.split "_" rest).
    { now rewrite split_app_sep, (split_no_sep _ _ Htag). }
    assert (Hhit : Str.contains "desc-" tag = true).
    { apply contains_prefix. apply (prefix_app_refl "desc-" d). }
    destruct Hpre as [-> | [p ->]].
    - change (find (Str.contains "desc-") (Str.split "_" (tag +:+ String "_" rest))
              = Some tag).
      rewrite Hsplit. cbn [find]. now rewrite Hhit.
    - rewrite sapp_sep, split_app_sep, Hsplit, find_app_skip.
      + cbn [find]. now rewrite Hhit.
      + intros x Hx. destruct (Str.contains "desc-" x) eqn:E; [|reflexivity].
        rewrite (contains_app_l _ _ _ (contains_piece _ _ _ _ Hx E)) in Hno.
        discriminate. }
  rewrite Hfind, Hold.
  change (Str.remove_go old 0 (pre +:+ old +:+ rest) = pre +:+ rest).
  rewrite remove_go_keep.
  - f_equal. unfold old. rewrite remove_go_match. now apply remove_go_absent.
  - intros a1 a2 -> Ha2.
    destruct (Str.prefix old (a2 +:+ old +:+ rest)) eqn:E; [|reflexivity].
    change old with ("desc-" +:+ (d +:+ "_")) in E at 1.
    apply prefix_app_inv in E.
    assert (Hl : Str.last_char a2 = Some "_"%char).
    { destruct Hpre as [Hp | [p Hp]].
      - destruct a1; [cbn in Hp; congruence | discriminate].
      - rewrite <- (last_char_app a1 a2 Ha2), Hp.
        now rewrite last_char_app. }
    apply (desc_prefix_short _ _ Hl) in E.
    rewrite (contains_app_r _ a1 _ (contains_prefix _ _ E)) in Hno. discriminate.
Qed.

Lemma get_raw_label_desc_witness :
  get_raw_label "space-T1w_desc-brain_mask" = "space-T1w_mask".
Proof.
  apply (get_raw_label_desc "space-T1w_" "brain" "mask").
  - right. now exists "space-T1w".
  - reflexivity.
  - reflexivity.
  - reflexivity.
Defined.
